(** * Matching, discovery and chat bookkeeping of the dating backend

    A shallow embedding of the route handlers of [routes/discovery.js],
    [routes/chats.js], [routes/matches.js], [routes/users.js] and of the
    Mongoose models [models/User.js], [models/Match.js], [models/Chat.js],
    followed by the middleware of [middleware/auth.js], the id check of
    [middleware/validation.js] and the login bookkeeping of
    [models/Admin.js], each modelled on its own.

    Modelling conventions.
    - A collection is a list of documents; the [_id] of a document is its
      collection together with its position (no handler modelled here removes
      a document).  ObjectIds of different collections are never equal.
    - A handler is a function from the store (and the clock, where the code
      reads [new Date()]) to the new store and the HTTP response.  The
      Express middleware in front of a handler ([protectUser], the
      express-validator chains) is outside the model: a handler starts with
      [req.user._id] and the request parameters at hand.
    - An id that arrives in a request is a string: a [RawId] keeps the
      ObjectId that the string casts to and whether it is spelled as
      [toString()] spells an id, in lower case.
    - [doc.save()] writes the paths the handler modified, as Mongoose does,
      and is refused for a user document without coordinates.
    - A JavaScript number is an IEEE 754 double; [Math.sin], [Math.cos] and
      [Math.atan2], which ECMAScript leaves to the runtime, are parameters.
    - Only the fields the handlers below read or write are kept in a record. *)

From Stdlib Require Import Reals Lra Floats.
From stdpp Require Import gmap list strings sorting.

Set Default Proof Using "Type".

(** ** ObjectIds *)

Inductive Collection := CUsers | CMatches | CChats.

Record ObjectId := Oid { oid_coll : Collection; oid_index : nat }.

#[global] Instance Collection_eq_dec : EqDecision Collection.
Proof. solve_decision. Defined.

#[global] Instance ObjectId_eq_dec : EqDecision ObjectId.
Proof. solve_decision. Defined.

Definition Collection_to_nat (c : Collection) : nat :=
  match c with CUsers => 0 | CMatches => 1 | CChats => 2 end.

Definition Collection_of_nat (n : nat) : Collection :=
  match n with 0 => CUsers | 1 => CMatches | _ => CChats end.

#[global] Instance ObjectId_countable : Countable ObjectId.
Proof.
  refine (inj_countable'
            (fun o => (Collection_to_nat (oid_coll o), oid_index o))
            (fun p => Oid (Collection_of_nat p.1) p.2) _).
  by intros [[] n].
Defined.

(** [array.includes(id)] of a Mongoose array of ObjectIds. *)
Definition includes (l : list ObjectId) (x : ObjectId) : bool :=
  bool_decide (x ∈ l).

(** The [$pull] update of an array of ObjectIds. *)
Definition without (x : ObjectId) (l : list ObjectId) : list ObjectId :=
  filter (fun y => y ≠ x) l.

(** ** Ids as a request carries them *)

(** An id of a request body or of a route parameter is a string.  The
    handlers use such a string in two ways.  Mongoose casts it to an
    ObjectId ([findById], [push] on an array of ObjectIds, [Match.create]);
    and the code compares it, as a string, with [id.toString()], which is
    the 24 lower-case hexadecimal digits of the ObjectId.  [Malformed] is a
    string that does not cast.  [Spelled id canonical] is a string that
    casts to [id]; [canonical] says whether it is [id.toString()] itself or
    another spelling of the same id (upper-case digits, which [isMongoId]
    and the cast accept). *)
Inductive RawId :=
| Malformed
| Spelled (id : ObjectId) (canonical : bool).

(** The cast of Mongoose; [None] is a CastError. *)
Definition castId (r : RawId) : option ObjectId :=
  match r with
  | Malformed => None
  | Spelled id _ => Some id
  end.

(** [id.toString()] *)
Definition canon (id : ObjectId) : RawId := Spelled id true.

(** [raw === id.toString()] *)
Definition sameString (r : RawId) (id : ObjectId) : bool :=
  match r with
  | Spelled id' true => bool_decide (id' = id)
  | _ => false
  end.

(** [array.includes(raw)] on a Mongoose array of ObjectIds: the string is
    compared with the [toString()] of each element. *)
Definition includesRaw (l : list ObjectId) (r : RawId) : bool :=
  existsb (sameString r) l.

(** [array.filter(id => id.toString() !== raw)] *)
Definition withoutRaw (r : RawId) (l : list ObjectId) : list ObjectId :=
  filter (fun id => sameString r id = false) l.

(** ** Numbers

    A JavaScript number is an IEEE 754 double, a [float].  ECMAScript fixes
    [Math.PI] and [Math.round], and [Math.sqrt] is the square root of
    IEEE 754, rounded to the nearest double, in the engines.  Of [Math.sin],
    [Math.cos] and [Math.atan2] ECMAScript asks only that they approximate
    the functions, so the choice of the runtime is a parameter of the
    model. *)

Class JSMath := {
  Math_sin : float → float;
  Math_cos : float → float;
  Math_atan2 : float → float → float
}.

Definition Math_PI : float := 0x1.921fb54442d18p+1.

(** [Math.sqrt(x)]: the double nearest to the square root, NaN below zero. *)
Definition Math_sqrt (x : float) : float := PrimFloat.sqrt x.

(** The double of an integer below [2 ^ 53]. *)
Definition numberOfZ (n : Z) : float := of_uint63 (Uint63.of_Z n).

(** [Math.round(x)]: the integer nearest to [x], a half going up; a double
    whose exponent is not negative is an integer already, and what rounds
    to zero from below is [-0]. *)
Definition Math_round (x : float) : float :=
  match Prim2SF x with
  | S754_finite s m e =>
      if (0 <=? e)%Z then x
      else
        let n := (((if s then Z.neg m else Z.pos m) + 2 ^ (- e - 1))
                  / 2 ^ (- e))%Z in
        if s then (- numberOfZ (- n))%float else numberOfZ n
  | _ => x
  end.

(** ** models/User.js *)

(** [location.coordinates]: [[longitude, latitude]]. *)
Record Location := { longitude : float; latitude : float }.

Module User.
Record t := mk {
  isPremium : bool;
  premiumExpiresAt : option nat;
  isActive : bool;
  isBlocked : bool;
  likes : list ObjectId;
  likedBy : list ObjectId;
  matches : list ObjectId;
  blocked : list ObjectId;
  blockedBy : list ObjectId;
  location : option Location;
  profileCompleted : bool
}.

Definition set_likes (l : list ObjectId) (u : t) : t :=
  mk (isPremium u) (premiumExpiresAt u) (isActive u) (isBlocked u)
     l (likedBy u) (matches u) (blocked u) (blockedBy u)
     (location u) (profileCompleted u).

Definition set_matches (l : list ObjectId) (u : t) : t :=
  mk (isPremium u) (premiumExpiresAt u) (isActive u) (isBlocked u)
     (likes u) (likedBy u) l (blocked u) (blockedBy u)
     (location u) (profileCompleted u).

Definition set_blocked (l : list ObjectId) (u : t) : t :=
  mk (isPremium u) (premiumExpiresAt u) (isActive u) (isBlocked u)
     (likes u) (likedBy u) (matches u) l (blockedBy u)
     (location u) (profileCompleted u).

(** [userSchema.methods.isPremiumActive] *)
Definition isPremiumActive (now : nat) (u : t) : bool :=
  if negb (isPremium u) then false
  else match premiumExpiresAt u with
       | None => true
       | Some e => bool_decide (now < e)
       end.

(** The fields [getPublicProfile] keeps (it deletes [isBlocked],
    [blocked], [blockedBy] and the credentials). *)
Record public := mkPublic {
  pub_id : ObjectId;
  pub_isPremium : bool;
  pub_isActive : bool;
  pub_likes : list ObjectId;
  pub_likedBy : list ObjectId;
  pub_matches : list ObjectId;
  pub_location : option Location;
  pub_profileCompleted : bool
}.

Definition getPublicProfile (id : ObjectId) (u : t) : public :=
  mkPublic id (isPremium u) (isActive u) (likes u) (likedBy u) (matches u)
           (location u) (profileCompleted u).

(** [doc.save()] of a user document goes through only when the document has
    coordinates: the schema declares [location.coordinates] as required and
    the collection has a [2dsphere] index on [location], so a document
    loaded without coordinates is not written back and [save] rejects.
    [findByIdAndUpdate] with [$pull] or with new coordinates does not load
    the document and is not held back. *)
Definition savable (u : t) : bool :=
  match location u with
  | Some _ => true
  | None => false
  end.
End User.

(** ** models/Match.js *)

Module Match.
Record t := mk {
  users : list ObjectId;
  isActive : bool;
  lastMessageAt : nat;
  unreadCount : gmap ObjectId nat
}.

Definition set_isActive (b : bool) (m : t) : t :=
  mk (users m) b (lastMessageAt m) (unreadCount m).

Definition set_lastMessageAt (d : nat) (m : t) : t :=
  mk (users m) (isActive m) d (unreadCount m).

Definition set_unread (k : ObjectId) (n : nat) (m : t) : t :=
  mk (users m) (isActive m) (lastMessageAt m) (<[k := n]> (unreadCount m)).

(** [matchSchema.pre('save')]: exactly two users, different from each
    other.  [None] is a validation error passed to [next]. *)
Definition preSave (m : t) : option t :=
  match users m with
  | [u0; u1] => if bool_decide (u0 = u1) then None else Some m
  | _ => None
  end.

(** [matchSchema.methods.getOtherUser] *)
Definition getOtherUser (m : t) (userId : ObjectId) : option ObjectId :=
  head (filter (fun u => u ≠ userId) (users m)).

(** [matchSchema.methods.hasUser] *)
Definition hasUser (m : t) (userId : ObjectId) : bool :=
  bool_decide (Exists (fun u => u = userId) (users m)).

(** [this.unreadCount.get(userId.toString()) || 0] *)
Definition unreadOf (m : t) (userId : ObjectId) : nat :=
  default 0 (unreadCount m !! userId).

(** [matchSchema.methods.incrementUnread] *)
Definition incrementUnread (userId : ObjectId) (m : t) : t :=
  set_unread userId (unreadOf m userId + 1) m.

(** [matchSchema.methods.resetUnread] *)
Definition resetUnread (userId : ObjectId) (m : t) : t :=
  set_unread userId 0 m.
End Match.

(** ** models/Chat.js *)

Inductive MessageType := text | image | gif | emoji.

Module Chat.
Record t := mk {
  matchId : ObjectId;
  sender : ObjectId;
  message : string;
  messageType : MessageType;
  isRead : bool;
  readAt : option nat;
  isDeleted : bool;
  deletedAt : option nat;
  createdAt : nat
}.

Definition set_read (d : nat) (c : t) : t :=
  mk (matchId c) (sender c) (message c) (messageType c)
     true (Some d) (isDeleted c) (deletedAt c) (createdAt c).

(** [chatSchema.methods.softDelete] *)
Definition softDelete (d : nat) (c : t) : t :=
  mk (matchId c) (sender c) (message c) (messageType c)
     (isRead c) (readAt c) true (Some d) (createdAt c).

(** Schema validation of a new message: [message] is required and at most
    1000 characters long. *)
Definition valid (c : t) : bool :=
  bool_decide (1 ≤ String.length (message c) ≤ 1000).
End Chat.

(** ** The document store *)

Record Store := mkStore {
  userDocs : list User.t;
  matchDocs : list Match.t;
  chatDocs : list Chat.t
}.

Definition userOid (i : nat) : ObjectId := Oid CUsers i.
Definition matchOid (i : nat) : ObjectId := Oid CMatches i.
Definition chatOid (i : nat) : ObjectId := Oid CChats i.

(** [Model.findById]: a document of the model's own collection. *)
Definition findIn {A} (c : Collection) (docs : list A) (id : ObjectId) : option A :=
  if bool_decide (oid_coll id = c) then docs !! oid_index id else None.

(** An update of the document [id] of a collection, when it exists. *)
Definition updateIn {A} (c : Collection) (f : A → A) (id : ObjectId)
    (docs : list A) : list A :=
  if bool_decide (oid_coll id = c) then alter f (oid_index id) docs else docs.

Definition findUser (s : Store) : ObjectId → option User.t :=
  findIn CUsers (userDocs s).
Definition findMatch (s : Store) : ObjectId → option Match.t :=
  findIn CMatches (matchDocs s).
Definition findChat (s : Store) : ObjectId → option Chat.t :=
  findIn CChats (chatDocs s).

Definition updateUser (f : User.t → User.t) (id : ObjectId) (s : Store) : Store :=
  mkStore (updateIn CUsers f id (userDocs s)) (matchDocs s) (chatDocs s).
Definition updateMatch (f : Match.t → Match.t) (id : ObjectId) (s : Store) : Store :=
  mkStore (userDocs s) (updateIn CMatches f id (matchDocs s)) (chatDocs s).
Definition updateChat (f : Chat.t → Chat.t) (id : ObjectId) (s : Store) : Store :=
  mkStore (userDocs s) (matchDocs s) (updateIn CChats f id (chatDocs s)).

(** [Match.create(doc)]: the pre-save hook, then the insertion; the new
    document gets a fresh ObjectId of the matches collection. *)
Definition createMatch (m : Match.t) (s : Store) : option (ObjectId * Store) :=
  match Match.preSave m with
  | None => None
  | Some m' =>
      Some (matchOid (length (matchDocs s)),
            mkStore (userDocs s) (matchDocs s ++ [m']) (chatDocs s))
  end.

(** ** HTTP responses *)

(** What a handler leaves behind: [res.status(n).json] with [success: true]
    and a payload, with [success: false] and a message, or no response. *)
Inductive Response (A : Type) :=
| Success (status : nat) (data : A)
| Failure (status : nat) (msg : string)
| Pending.
Arguments Success {A} status data.
Arguments Failure {A} status msg.
Arguments Pending {A}.

Definition NotFound : nat := 404.
Definition Forbidden : nat := 403.
Definition BadRequest : nat := 400.
Definition ServerError : nat := 500.

(** The [catch] block every handler ends with. *)
Definition serverError {A} : Response A := Failure ServerError "Server error".

(** ** routes/discovery.js: like, dislike, super-like *)

Record LikeData := mkLikeData {
  isMatch : bool;
  matchSummary : option (ObjectId * list User.public)
}.

(** [POST /api/discovery/like].  [targetUserId] is the string of the request
    body.  The handler holds two documents, [targetUser] read first and
    [currentUser] read second, and saves [currentUser] once after the push
    on [likes], then both after the pushes on [matches]; the two last saves
    are started together, so the one of [currentUser], whose coordinates
    the first save has checked, is written even when the one of
    [targetUser] rejects. *)
Definition like (now : nat) (s : Store) (currentUserId : ObjectId)
    (targetUserId : RawId) : Store * Response LikeData :=
  if sameString targetUserId currentUserId then
    (s, Failure BadRequest "Cannot like yourself")
  else
    match castId targetUserId with
    | None => (s, serverError)
    | Some targetId =>
        match findUser s targetId with
        | None => (s, Failure NotFound "User not found")
        | Some targetUser =>
            if negb (User.isActive targetUser) || User.isBlocked targetUser then
              (s, Failure BadRequest "User is not available")
            else
              match findUser s currentUserId with
              | None => (s, serverError)
              | Some currentUser =>
                  if includesRaw (User.likes currentUser) targetUserId then
                    (s, Failure BadRequest "Already liked this user")
                  else if negb (User.savable currentUser) then (s, serverError)
                  else
                    (* currentUser.likes.push(targetUserId); await currentUser.save() *)
                    let currentUser1 :=
                      User.set_likes (User.likes currentUser ++ [targetId])
                                     currentUser in
                    let s1 :=
                      updateUser (User.set_likes (User.likes currentUser1))
                                 currentUserId s in
                    if includes (User.likes targetUser) currentUserId then
                      match createMatch
                              (Match.mk [currentUserId; targetId] true now ∅) s1 with
                      | None => (s1, serverError)
                      | Some (mid, s2) =>
                          let currentUser2 :=
                            User.set_matches
                              (User.matches currentUser1 ++ [targetId])
                              currentUser1 in
                          let targetUser2 :=
                            User.set_matches
                              (User.matches targetUser ++ [currentUserId])
                              targetUser in
                          (* await Promise.all([currentUser.save(), targetUser.save()]) *)
                          let s3 :=
                            updateUser
                              (User.set_matches (User.matches currentUser2))
                              currentUserId s2 in
                          if negb (User.savable targetUser) then (s3, serverError)
                          else
                            let s4 :=
                              updateUser
                                (User.set_matches (User.matches targetUser2))
                                targetId s3 in
                            (s4, Success 200
                                   (mkLikeData true
                                      (Some (mid,
                                             [User.getPublicProfile currentUserId
                                                                    currentUser2;
                                              User.getPublicProfile targetId
                                                                    targetUser2]))))
                      end
                    else
                      (s1, Success 200 (mkLikeData false None))
              end
        end
    end.

(** [POST /api/discovery/dislike] *)
Definition dislike (s : Store) (currentUserId : ObjectId) (targetUserId : RawId)
    : Store * Response unit :=
  if sameString targetUserId currentUserId then
    (s, Failure BadRequest "Cannot dislike yourself")
  else
    match castId targetUserId with
    | None => (s, serverError)
    | Some targetId =>
        match findUser s targetId with
        | None => (s, Failure NotFound "User not found")
        | Some _ =>
            match findUser s currentUserId with
            | None => (s, serverError)
            | Some currentUser =>
                if negb (User.savable currentUser) then (s, serverError)
                else
                  (updateUser
                     (User.set_likes
                        (withoutRaw targetUserId (User.likes currentUser)))
                     currentUserId s,
                   Success 200 ())
            end
        end
    end.

(** Express: [router.METHOD(path, ...handlers)] adds a route.  Each argument
    after the path is a function or an array of functions; for anything else
    the call throws ("requires a callback function"). *)
Inductive RouteArg :=
| Middleware (name : string)
| MiddlewareArray (names : list string)
| NotAFunction (what : string).

Definition isCallback (a : RouteArg) : bool :=
  match a with NotAFunction _ => false | _ => true end.

(** [None] when the call throws, the router (returned for chaining)
    otherwise. *)
Definition router_post (path : string) (handlers : list RouteArg) : option unit :=
  if forallb isCallback handlers then Some () else None.

(** [POST /api/discovery/super-like].  The last statement of the [try] block
    is [return router.post('/like', protectUser, validateLikeDislike, req, res)]:
    a route registration whose last two arguments are the request and the
    response objects. *)
Definition superLike (now : nat) (s : Store) (currentUserId targetUserId : ObjectId)
    : Store * Response LikeData :=
  match findUser s currentUserId with
  | None => (s, serverError)
  | Some currentUser =>
      if negb (User.isPremiumActive now currentUser) then
        (s, Failure Forbidden "Super like is a premium feature")
      else
        match router_post "/like"
                [Middleware "protectUser";
                 MiddlewareArray ["body('targetUserId').isMongoId()";
                                  "handleValidationErrors"];
                 NotAFunction "req"; NotAFunction "res"] with
        | None => (s, serverError)
        | Some _ => (s, Pending)
        end
  end.

(** ** Sorting, as the store does it for [.sort] and [$near] *)

Section Sorting.
Context {A : Type} (before : A → A → bool).

Fixpoint insertSorted (x : A) (l : list A) : list A :=
  match l with
  | [] => [x]
  | y :: l' => if before x y then x :: l else y :: insertSorted x l'
  end.

Definition sortBy (l : list A) : list A := foldr insertSorted [] l.
End Sorting.

(** ** routes/discovery.js: calculateDistance and the discovery query *)

Section Distance.
Context {runtime : JSMath}.
Local Open Scope float_scope.

Definition calculateDistance (lat1 lon1 lat2 lon2 : float) : float :=
  let R_earth := 6371 in
  let dLat := (lat2 - lat1) * Math_PI / 180 in
  let dLon := (lon2 - lon1) * Math_PI / 180 in
  let a :=
    Math_sin (dLat / 2) * Math_sin (dLat / 2) +
    Math_cos (lat1 * Math_PI / 180) * Math_cos (lat2 * Math_PI / 180) *
    Math_sin (dLon / 2) * Math_sin (dLon / 2) in
  let c := 2 * Math_atan2 (Math_sqrt a) (Math_sqrt (1 - a)) in
  let distance := R_earth * c in
  distance.

(** [Math.round(distance * 10) / 10] *)
Definition roundedDistance (from to : Location) : float :=
  Math_round
    (calculateDistance (latitude from) (longitude from)
                       (latitude to) (longitude to) * 10) / 10.
End Distance.

Record DiscoveryData := mkDiscoveryData {
  disc_users : list (ObjectId * float);
  disc_page : nat;
  disc_limit : nat;
  disc_hasMore : bool
}.

Section Discovery.
Context {runtime : JSMath}.

(** The distance, in metres, that the store's [2dsphere] index computes
    for [$near]; the handler never sees it. *)
Variable geoDistance : Location → Location → R.

Definition Rleb (x y : R) : bool := if Rle_dec x y then true else false.

(** The documents of the users collection with their ids; [$near] only
    matches documents that have a location. *)
Definition locatedUsers (s : Store) : list (ObjectId * User.t * Location) :=
  omap (fun p => (fun l => (p.1, p.2, l)) <$> User.location p.2)
       (imap (fun i u => (userOid i, u)) (userDocs s)).

(** The [query] object: [_id: { $ne, $nin }], the three flags, [$near]. *)
Definition discoveryQuery (id : ObjectId) (user : User.t) (center : Location)
    (maxDistance : R) (d : ObjectId * User.t * Location) : bool :=
  bool_decide (d.1.1 ≠ id)
  && negb (includes (User.likes user ++ User.blocked user ++ User.blockedBy user)
                    d.1.1)
  && User.isActive d.1.2
  && negb (User.isBlocked d.1.2)
  && User.profileCompleted d.1.2
  && Rleb (geoDistance center d.2) (maxDistance * 1000).

(** [GET /api/discovery]; [validatePagination] has checked [1 ≤ page] and
    [1 ≤ limit ≤ 100].  [location] is a nested path of the schema, so
    [user.location] is an object also when the document has no coordinates:
    the guard [!user.location] with its answer 400 is never taken, the
    [$near] query is sent without a point, the store refuses it and the
    [catch] answers 500. *)
Definition findCandidates (s : Store) (seekerId : ObjectId)
    (page limit : nat) (maxDistance : R) : Response DiscoveryData :=
  let skip := (page - 1) * limit in
  match findUser s seekerId with
  | None => serverError
  | Some user =>
      match User.location user with
      | None => serverError
      | Some center =>
          let found :=
            take limit
              (drop skip
                 (sortBy (fun d1 d2 => Rleb (geoDistance center d1.2)
                                            (geoDistance center d2.2))
                    (filter (fun d => discoveryQuery seekerId user center
                                                     maxDistance d = true)
                            (locatedUsers s)))) in
          let usersWithDistance :=
            map (fun d => (d.1.1, roundedDistance center d.2)) found in
          Success 200
            (mkDiscoveryData usersWithDistance page limit
               (bool_decide (length usersWithDistance = limit)))
      end
  end.
End Discovery.

(** ** routes/chats.js *)

(** The guard shared by the chat handlers: the match exists, is active, and
    the caller is one of its users. *)
Definition chatGuard {A} (s : Store) (matchId userId : ObjectId)
    (forbidden : string) (k : Match.t → Store * Response A) : Store * Response A :=
  match findMatch s matchId with
  | None => (s, Failure NotFound "Match not found")
  | Some m =>
      if negb (Match.isActive m) then (s, Failure NotFound "Match not found")
      else if negb (Match.hasUser m userId) then (s, Failure Forbidden forbidden)
      else k m
  end.

(** The filter of [Chat.updateMany] in [GET /:matchId] and [PUT /:matchId/read]. *)
Definition unreadFromOthers (matchId userId : ObjectId) (c : Chat.t) : bool :=
  bool_decide (Chat.matchId c = matchId)
  && bool_decide (Chat.sender c ≠ userId)
  && negb (Chat.isRead c)
  && negb (Chat.isDeleted c).

(** [Chat.updateMany(filter, { isRead: true, readAt: new Date() })] *)
Definition markAllRead (now : nat) (matchId userId : ObjectId) (s : Store) : Store :=
  mkStore (userDocs s) (matchDocs s)
    (map (fun c => if unreadFromOthers matchId userId c
                   then Chat.set_read now c else c)
         (chatDocs s)).

(** [await match.save()] after [incrementUnread] or [resetUnread] changed the
    counter of [key] in [doc], the document the handler holds: the stored
    counter of [key] becomes the one of [doc]. *)
Definition saveUnread (doc : Match.t) (key matchId : ObjectId) (s : Store) : Store :=
  updateMatch (Match.set_unread key (Match.unreadOf doc key)) matchId s.

Record MessagesData := mkMessagesData {
  msg_messages : list (ObjectId * Chat.t);
  msg_page : nat;
  msg_limit : nat;
  msg_hasMore : bool
}.

(** [GET /api/chats/:matchId]; [validatePagination] has checked [1 ≤ page]
    and [1 ≤ limit ≤ 100]. *)
Definition listMessages (now : nat) (s : Store) (matchId userId : ObjectId)
    (page limit : nat) : Store * Response MessagesData :=
  let skip := (page - 1) * limit in
  chatGuard s matchId userId "Not authorized to view this chat" (fun m =>
    let messages :=
      take limit
        (drop skip
           (sortBy (fun c1 c2 => bool_decide (Chat.createdAt c2.2 ≤ Chat.createdAt c1.2))
              (filter (fun c => Chat.matchId c.2 = matchId ∧ Chat.isDeleted c.2 = false)
                      (imap (fun i c => (chatOid i, c)) (chatDocs s))))) in
    let s1 := markAllRead now matchId userId s in
    let s2 := saveUnread (Match.resetUnread userId m) userId matchId s1 in
    (s2, Success 200
           (mkMessagesData (reverse messages) page limit
              (bool_decide (length messages = limit))))).

(** [PUT /api/chats/:matchId/read] *)
Definition markRead (now : nat) (s : Store) (matchId userId : ObjectId)
    : Store * Response unit :=
  chatGuard s matchId userId "Not authorized to access this chat" (fun m =>
    let s1 := markAllRead now matchId userId s in
    let s2 := saveUnread (Match.resetUnread userId m) userId matchId s1 in
    (s2, Success 200 ())).

(** [Chat.create(doc)]: validation, then the pre-save hook of the chat
    schema, which sets [lastMessageAt] of the match with
    [Match.findByIdAndUpdate], then the insertion. *)
Definition createChat (now : nat) (c : Chat.t) (s : Store)
    : option (ObjectId * Store) :=
  if Chat.valid c then
    let s1 := updateMatch (Match.set_lastMessageAt now) (Chat.matchId c) s in
    Some (chatOid (length (chatDocs s1)),
          mkStore (userDocs s1) (matchDocs s1) (chatDocs s1 ++ [c]))
  else None.

(** [POST /api/chats/:matchId].  [match] is the document read at the start
    of the handler.  With no other user in the document,
    [incrementUnread(undefined)] throws after the message is stored. *)
Definition send (now : nat) (s : Store) (matchId senderId : ObjectId)
    (message : string) (messageType : MessageType)
    : Store * Response (ObjectId * Chat.t) :=
  chatGuard s matchId senderId "Not authorized to send message to this match" (fun m =>
    let chatMessage :=
      Chat.mk matchId senderId message messageType false None false None now in
    match createChat now chatMessage s with
    | None => (s, serverError)
    | Some (cid, s1) =>
        match Match.getOtherUser m senderId with
        | None => (s1, serverError)
        | Some otherUserId =>
            let s2 :=
              saveUnread (Match.incrementUnread otherUserId m) otherUserId
                         matchId s1 in
            (s2, Success 201 (cid, chatMessage))
        end
    end).

(** [DELETE /api/chats/:matchId/messages/:messageId] *)
Definition deleteMessage (now : nat) (s : Store) (matchId : RawId)
    (messageId userId : ObjectId) : Store * Response unit :=
  match castId matchId with
  | None => (s, serverError)
  | Some mid =>
      chatGuard s mid userId "Not authorized to access this chat" (fun m =>
        match findChat s messageId with
        | None => (s, Failure NotFound "Message not found")
        | Some msg =>
            (* message.matchId.toString() !== matchId *)
            if negb (sameString matchId (Chat.matchId msg)) then
              (s, Failure NotFound "Message not found")
            else if bool_decide (Chat.sender msg ≠ userId) then
              (s, Failure Forbidden "Not authorized to delete this message")
            else (updateChat (Chat.softDelete now) messageId s, Success 200 ())
        end)
  end.

(** The names bound at the top of [routes/chats.js]. *)
Definition chatsModuleScope : list string :=
  ["express"; "router"; "Chat"; "Match"; "protectUser";
   "validateChatMessage"; "validatePagination"; "validateObjectId"].

(** [$group: { _id: '$matchId', count: { $sum: 1 } }] *)
Definition groupByMatch (cs : list Chat.t) : list (ObjectId * nat) :=
  map (fun k => (k, length (filter (fun c => Chat.matchId c = k) cs)))
      (remove_dups (map Chat.matchId cs)).

Record UnreadData := mkUnreadData {
  unreadCounts : gmap ObjectId nat;
  totalUnread : nat
}.

(** The [try] block of [GET /api/chats/unread/count], given a binding for
    [User].  [user.matches] holds ids of users ([ref: 'User']);
    [populate('matches')] puts the user documents found in their place, and
    [matchIds] collects the [_id] of each. *)
Definition unreadCountBody (s : Store) (userId : ObjectId) : Response UnreadData :=
  match findUser s userId with
  | None => serverError
  | Some user =>
      let populated :=
        omap (fun id => (fun u => (id, u)) <$> findUser s id) (User.matches user) in
      let matchIds := map fst populated in
      let selected :=
        filter (fun c => includes matchIds (Chat.matchId c) = true
                         ∧ Chat.sender c ≠ userId
                         ∧ Chat.isRead c = false
                         ∧ Chat.isDeleted c = false)
               (chatDocs s) in
      let counts := groupByMatch selected in
      Success 200
        (mkUnreadData
           (foldl (fun acc item => <[item.1 := item.2]> acc) ∅ counts)
           (foldl (fun sum item => sum + item.2) 0 counts))
  end.

(** [GET /api/chats/unread/count]: the handler reads the identifier [User],
    which the module does not bind; the ReferenceError is caught by the
    handler's [catch]. *)
Definition unreadCount (s : Store) (userId : ObjectId) : Response UnreadData :=
  if bool_decide ("User" ∈ chatsModuleScope) then unreadCountBody s userId
  else serverError.

(** ** routes/matches.js: unmatch *)

(** [{ $pull: { matches: x } }] on the user [id]. *)
Definition pullMatch (x id : ObjectId) (s : Store) : Store :=
  updateUser (fun u => User.set_matches (without x (User.matches u)) u) id s.

(** [DELETE /api/matches/:matchId].  Every document of the matches
    collection went through [Match.preSave], so [getOtherUser] finds a user
    for a caller that [hasUser] accepts (see [reachable_participants]); the
    branch without one stands for the exception path. *)
Definition unmatch (s : Store) (matchId userId : ObjectId) : Store * Response unit :=
  match findMatch s matchId with
  | None => (s, Failure NotFound "Match not found")
  | Some m =>
      if negb (Match.hasUser m userId) then
        (s, Failure Forbidden "Not authorized to unmatch this user")
      else
        match Match.getOtherUser m userId with
        | None => (s, serverError)
        | Some otherUserId =>
            let s1 := pullMatch otherUserId userId s in
            let s2 := pullMatch userId otherUserId s1 in
            let s3 := updateMatch (Match.set_isActive false) matchId s2 in
            (s3, Success 200 ())
        end
  end.

(** ** routes/users.js: block, unblock *)

(** [POST /api/users/block/:userId]; no validator stands before the
    handler, [targetUserId] is the route parameter as it came. *)
Definition block (s : Store) (currentUserId : ObjectId) (targetUserId : RawId)
    : Store * Response unit :=
  if sameString targetUserId currentUserId then
    (s, Failure BadRequest "Cannot block yourself")
  else
    match castId targetUserId with
    | None => (s, serverError)
    | Some targetId =>
        match findUser s targetId with
        | None => (s, Failure NotFound "User not found")
        | Some _ =>
            match findUser s currentUserId with
            | None => (s, serverError)
            | Some user =>
                let blocked1 :=
                  if negb (includesRaw (User.blocked user) targetUserId)
                  then User.blocked user ++ [targetId]
                  else User.blocked user in
                let likes1 := withoutRaw targetUserId (User.likes user) in
                let matches1 := withoutRaw targetUserId (User.matches user) in
                if negb (User.savable user) then (s, serverError)
                else
                  (updateUser
                     (fun u => User.set_matches matches1
                                 (User.set_likes likes1
                                    (User.set_blocked blocked1 u)))
                     currentUserId s,
                   Success 200 ())
            end
        end
    end.

(** [DELETE /api/users/block/:userId]; the parameter is only compared, never
    cast. *)
Definition unblock (s : Store) (currentUserId : ObjectId) (targetUserId : RawId)
    : Store * Response unit :=
  match findUser s currentUserId with
  | None => (s, serverError)
  | Some user =>
      if negb (User.savable user) then (s, serverError)
      else
        (updateUser
           (User.set_blocked (withoutRaw targetUserId (User.blocked user)))
           currentUserId s,
         Success 200 ())
  end.

(** ** Sequences of requests *)

Inductive Request :=
| ReqLike (currentUserId : ObjectId) (targetUserId : RawId)
| ReqDislike (currentUserId : ObjectId) (targetUserId : RawId)
| ReqSuperLike (currentUserId targetUserId : ObjectId)
| ReqBlock (currentUserId : ObjectId) (targetUserId : RawId)
| ReqUnblock (currentUserId : ObjectId) (targetUserId : RawId)
| ReqSend (matchId senderId : ObjectId) (message : string) (messageType : MessageType)
| ReqListMessages (matchId userId : ObjectId) (page limit : nat)
| ReqMarkRead (matchId userId : ObjectId)
| ReqDeleteMessage (matchId : RawId) (messageId userId : ObjectId)
| ReqUnmatch (matchId userId : ObjectId).

(** The store after a request served at time [now]. *)
Definition serve (now : nat) (s : Store) (r : Request) : Store :=
  match r with
  | ReqLike a b => (like now s a b).1
  | ReqDislike a b => (dislike s a b).1
  | ReqSuperLike a b => (superLike now s a b).1
  | ReqBlock a b => (block s a b).1
  | ReqUnblock a b => (unblock s a b).1
  | ReqSend m u msg ty => (send now s m u msg ty).1
  | ReqListMessages m u p l => (listMessages now s m u p l).1
  | ReqMarkRead m u => (markRead now s m u).1
  | ReqDeleteMessage m c u => (deleteMessage now s m c u).1
  | ReqUnmatch m u => (unmatch s m u).1
  end.

(** Requests served one after the other, each with its arrival time. *)
Definition serveAll (s : Store) (rs : list (nat * Request)) : Store :=
  foldl (fun st r => serve r.1 st r.2) s rs.

(** A store as signups leave it: no likes, matches or blocks yet, no match
    documents and no messages. *)
Definition freshUser (u : User.t) : Prop :=
  User.likes u = [] ∧ User.likedBy u = [] ∧ User.matches u = []
  ∧ User.blocked u = [] ∧ User.blockedBy u = [].

Definition initial (s : Store) : Prop :=
  Forall freshUser (userDocs s) ∧ matchDocs s = [] ∧ chatDocs s = [].

Definition reachable (s : Store) : Prop :=
  ∃ s0 rs, initial s0 ∧ s = serveAll s0 rs.

(** ** routes/matches.js: the read handlers *)

Record MatchesData := mkMatchesData {
  mt_matches : list ObjectId;
  mt_page : nat;
  mt_limit : nat;
  mt_total : nat;
  mt_hasMore : bool
}.

(** [populate({ path: 'matches', match: { isActive: true, isBlocked: false } })]:
    each id of [user.matches] gives way to the user document it refers to;
    an id without a document, or whose document the [match] filter rejects,
    is dropped from the array. *)
Definition populateMatches (s : Store) (user : User.t) : list ObjectId :=
  omap (fun id =>
          match findUser s id with
          | Some u =>
              if User.isActive u && negb (User.isBlocked u) then Some id else None
          | None => None
          end)
       (User.matches user).

(** [GET /api/matches]; [validatePagination] has checked [1 ≤ page] and
    [1 ≤ limit ≤ 100].  [slice(skip, skip + limit)] is [take limit (drop skip _)]. *)
Definition getMatches (s : Store) (userId : ObjectId) (page limit : nat)
    : Response MatchesData :=
  let skip := (page - 1) * limit in
  match findUser s userId with
  | None => serverError
  | Some user =>
      let populated := populateMatches s user in
      let matches := take limit (drop skip populated) in
      Success 200
        (mkMatchesData matches page limit (length populated)
           (bool_decide (skip + length matches < length populated)))
  end.

Record MatchDetails := mkMatchDetails {
  det_id : ObjectId;
  det_lastMessageAt : nat;
  det_otherUser : option ObjectId
}.

(** [GET /api/matches/:matchId].  [otherUser] is the document that
    [User.findById(match.getOtherUser(userId))] finds, or [null]. *)
Definition getMatch (s : Store) (matchId userId : ObjectId) : Response MatchDetails :=
  match findMatch s matchId with
  | None => Failure NotFound "Match not found"
  | Some m =>
      if negb (Match.hasUser m userId) then
        Failure Forbidden "Not authorized to view this match"
      else
        let otherUserData :=
          match Match.getOtherUser m userId with
          | Some otherUser =>
              match findUser s otherUser with
              | Some _ => Some otherUser
              | None => None
              end
          | None => None
          end in
        Success 200 (mkMatchDetails matchId (Match.lastMessageAt m) otherUserData)
  end.

Record Stats := mkStats {
  totalMatches : nat;
  totalLikes : nat;
  totalLikedBy : nat;
  matchRate : R
}.

(** [Math.round(x)] of the quotient of two lengths, kept exact: the integer
    nearest to [x], a half going up. *)
Definition Math_round_exact (x : R) : R := IZR (Int_part (x + / 2)).

(** [GET /api/matches/stats/overview] *)
Definition matchStats (s : Store) (userId : ObjectId) : Response Stats :=
  match findUser s userId with
  | None => serverError
  | Some user =>
      let totalMatches := length (User.matches user) in
      let totalLikes := length (User.likes user) in
      let totalLikedBy := length (User.likedBy user) in
      Success 200
        (mkStats totalMatches totalLikes totalLikedBy
           (if bool_decide (0 < totalLikedBy)
            then Math_round_exact (INR totalMatches / INR totalLikedBy * 100)
            else 0%R))
  end.

(** ** routes/users.js: photos *)







(** ** middleware/auth.js: protectUser, optionalAuth *)

(** [str.split(sep)] for a one-character separator. *)
Fixpoint splitOn (sep : Ascii.ascii) (str : string) : list string :=
  match str with
  | EmptyString => [EmptyString]
  | String c rest =>
      let parts := splitOn sep rest in
      if Ascii.eqb c sep then EmptyString :: parts
      else match parts with
           | part :: more => String c part :: more
           | [] => [String c EmptyString]
           end
  end.

(** The token of the [Authorization] header: the second piece of the header
    split at spaces, when the header starts with [Bearer]; a missing header,
    a missing piece and an empty piece all count as no token. *)
Definition bearerToken (authorization : option string) : option string :=
  match authorization with
  | None => None
  | Some header =>
      if String.prefix "Bearer" header then
        match splitOn (Ascii.ascii_of_nat 32) header !! 1 with
        | Some EmptyString | None => None
        | Some token => Some token
        end
      else None
  end.

Inductive AuthResult :=
| Next (userId : ObjectId) (user : User.t)
| Rejected (status : nat) (msg : string).

Section Auth.
(** [jwt.verify(token, process.env.JWT_SECRET)]: the [id] and [type] of the
    payload, or [None] when it throws. *)
Variable verifyToken : string → option (ObjectId * string).

(** [protectUser]: [Next] stands for [req.user = user; next()]. *)
Definition protectUser (s : Store) (authorization : option string) : AuthResult :=
  match bearerToken authorization with
  | None => Rejected 401 "Not authorized to access this route"
  | Some token =>
      match verifyToken token with
      | None => Rejected 401 "Not authorized to access this route"
      | Some (id, type) =>
          if negb (String.eqb type "user") then Rejected 401 "Invalid token type"
          else
            match findUser s id with
            | None => Rejected 401 "User not found"
            | Some user =>
                if negb (User.isActive user) || User.isBlocked user then
                  Rejected 401 "Account is deactivated or blocked"
                else Next id user
            end
      end
  end.

(** [optionalAuth]: the value of [req.user] when [next()] is called, which
    it always is. *)
Definition optionalAuth (s : Store) (authorization : option string)
    : option (ObjectId * User.t) :=
  match bearerToken authorization with
  | None => None
  | Some token =>
      match verifyToken token with
      | None => None
      | Some (id, type) =>
          if String.eqb type "user" then
            match findUser s id with
            | Some user =>
                if User.isActive user && negb (User.isBlocked user)
                then Some (id, user) else None
            | None => None
            end
          else None
      end
  end.
End Auth.

(** ** routes/users.js: location *)

(** [PUT /api/users/location]; [validateLocation] has checked that the two
    numbers are a latitude and a longitude.  [findByIdAndUpdate] sets the
    one path and answers with the updated document, [null] when there is
    none. *)
Definition withLocation (l : Location) (u : User.t) : User.t :=
  User.mk (User.isPremium u) (User.premiumExpiresAt u) (User.isActive u)
          (User.isBlocked u) (User.likes u) (User.likedBy u) (User.matches u)
          (User.blocked u) (User.blockedBy u) (Some l) (User.profileCompleted u).

Definition updateLocation (s : Store) (userId : ObjectId)
    (latitude longitude : float)
    : Store * Response (option User.t) :=
  let s' :=
    updateUser (withLocation {| longitude := longitude; latitude := latitude |})
               userId s in
  (s', Success 200 (findUser s' userId)).

(** ** models/Admin.js *)

Module Admin.
Inductive Role := SuperAdmin | PlainAdmin | Moderator.

Record t := mk {
  role : Role;
  permissions : list string;
  isActive : bool;
  loginAttempts : nat;
  lockUntil : option Z
}.

(** A new admin: the defaults of the schema. *)
Definition create (r : Role) (perms : list string) : t := mk r perms true 0 None.

Definition set_loginAttempts (n : nat) (a : t) : t :=
  mk (role a) (permissions a) (isActive a) n (lockUntil a).

Definition set_lockUntil (d : option Z) (a : t) : t :=
  mk (role a) (permissions a) (isActive a) (loginAttempts a) d.

(** [!!(this.lockUntil && this.lockUntil > Date.now())] *)
Definition isLocked (now : Z) (a : t) : bool :=
  match lockUntil a with
  | Some until => bool_decide (now < until)%Z
  | None => false
  end.

(** [incLoginAttempts]: the stored document after [this.updateOne], for a
    document that was loaded as stored; [now1], [now2] and [now3] are what
    [Date.now()] gives at its three calls, in milliseconds.  An unset [loginAttempts] reads as
    the default 0, and [$inc] of an unset field gives 1. *)
Definition incLoginAttempts (now1 now2 now3 : Z) (a : t) : t :=
  match lockUntil a with
  | Some until =>
      if bool_decide (until < now1)%Z then
        (* $unset: { lockUntil: 1 }, $set: { loginAttempts: 1 } *)
        set_lockUntil None (set_loginAttempts 1 a)
      else
        let a' := set_loginAttempts (loginAttempts a + 1) a in
        if bool_decide (5 ≤ loginAttempts a + 1) && negb (isLocked now2 a)
        then set_lockUntil (Some (now3 + 2 * 60 * 60 * 1000)%Z) a'
        else a'
  | None =>
      let a' := set_loginAttempts (loginAttempts a + 1) a in
      if bool_decide (5 ≤ loginAttempts a + 1) && negb (isLocked now2 a)
      then set_lockUntil (Some (now3 + 2 * 60 * 60 * 1000)%Z) a'
      else a'
  end.

(** [$unset: { loginAttempts: 1, lockUntil: 1 }] *)
Definition resetLoginAttempts (a : t) : t :=
  set_lockUntil None (set_loginAttempts 0 a).

Definition hasPermission (permission : string) (a : t) : bool :=
  match role a with
  | SuperAdmin => true
  | _ => bool_decide (permission ∈ permissions a)
  end.
End Admin.

(** ** middleware/auth.js: protectAdmin, checkPermission *)

Inductive AdminAuthResult :=
| AdminNext (adminId : ObjectId) (admin : Admin.t)
| AdminRejected (status : nat) (msg : string).

Section AdminAuth.
Variable verifyToken : string → option (ObjectId * string).
(** [Admin.findById] on the admins collection. *)
Variable findAdmin : ObjectId → option Admin.t.

(** [protectAdmin]: [AdminNext] stands for [req.admin = admin; next()]. *)
Definition protectAdmin (authorization : option string) : AdminAuthResult :=
  match bearerToken authorization with
  | None => AdminRejected 401 "Not authorized to access this route"
  | Some token =>
      match verifyToken token with
      | None => AdminRejected 401 "Not authorized to access this route"
      | Some (id, type) =>
          if negb (String.eqb type "admin") then
            AdminRejected 401 "Invalid token type"
          else
            match findAdmin id with
            | None => AdminRejected 401 "Admin not found"
            | Some admin =>
                if negb (Admin.isActive admin) then
                  AdminRejected 401 "Admin account is deactivated"
                else AdminNext id admin
            end
      end
  end.

(** [checkPermission(permission)] on the value of [req.admin]; [None] stands
    for [next()]. *)
Definition checkPermission (permission : string) (reqAdmin : option Admin.t)
    : option (nat * string) :=
  match reqAdmin with
  | None => Some (401, "Admin authentication required")
  | Some admin =>
      if negb (Admin.hasPermission permission admin)
      then Some (403, "Insufficient permissions")
      else None
  end.

(** A route declared with [protectAdmin, checkPermission(permission)]. *)
Definition adminGate (permission : string) (authorization : option string)
    : AdminAuthResult :=
  match protectAdmin authorization with
  | AdminNext id admin =>
      match checkPermission permission (Some admin) with
      | Some (status, msg) => AdminRejected status msg
      | None => AdminNext id admin
      end
  | rejected => rejected
  end.
End AdminAuth.

(** ** middleware/validation.js: validateObjectId *)

(** validator.js, [isHexadecimal]: [/^(0x|0h)?[0-9A-F]+$/i]. *)
Definition isHexDigit (c : Ascii.ascii) : bool :=
  let n := Ascii.nat_of_ascii c in
  ((48 <=? n) && (n <=? 57)) || ((65 <=? n) && (n <=? 70))
  || ((97 <=? n) && (n <=? 102)).

Fixpoint allHex (str : string) : bool :=
  match str with
  | EmptyString => true
  | String c rest => isHexDigit c && allHex rest
  end.

Definition hexDigits (str : string) : bool :=
  negb (String.eqb str "") && allHex str.

Definition isHexadecimal (str : string) : bool :=
  match str with
  | String c0 (String c1 rest) =>
      if Ascii.eqb c0 (Ascii.ascii_of_nat 48)
         && (Ascii.eqb c1 (Ascii.ascii_of_nat 120)
             || Ascii.eqb c1 (Ascii.ascii_of_nat 88)
             || Ascii.eqb c1 (Ascii.ascii_of_nat 104)
             || Ascii.eqb c1 (Ascii.ascii_of_nat 72))
      then hexDigits rest
      else hexDigits str
  | _ => hexDigits str
  end.

(** validator.js, [isMongoId]: [isHexadecimal(str) && str.length === 24]. *)
Definition isMongoId (str : string) : bool :=
  isHexadecimal str && (String.length str =? 24).

(** The names of the parameters of an Express route path: the segments
    that start with a colon. *)
Definition paramNames (path : string) : list string :=
  omap (fun segment =>
          match segment with
          | String c name =>
              if Ascii.eqb c (Ascii.ascii_of_nat 58) then Some name else None
          | EmptyString => None
          end)
       (splitOn (Ascii.ascii_of_nat 47) path).

(** [validateObjectId]: [param('id').isMongoId()], then
    [handleValidationErrors].  A parameter that the request does not have is
    validated as the empty string.  [None] stands for [next()], otherwise the
    status and the errors of the answer. *)
Definition validateObjectId (params : gmap string string)
    : option (nat * list (string * string)) :=
  if isMongoId (default EmptyString (params !! "id")) then None
  else Some (400, [("id", "Invalid ID format")]).

(** The routes that are declared with [validateObjectId]: the router, the
    method and the path. *)
Definition objectIdRoutes : list (string * string * string) :=
  [ ("routes/chats.js", "GET", "/:matchId");
    ("routes/chats.js", "POST", "/:matchId");
    ("routes/chats.js", "PUT", "/:matchId/read");
    ("routes/chats.js", "DELETE", "/:matchId/messages/:messageId");
    ("routes/matches.js", "GET", "/:matchId");
    ("routes/matches.js", "DELETE", "/:matchId") ].

(** * Vocabulary of the properties *)

(** ** Match documents and their users *)

(** What [Match.preSave] accepts. *)
Definition wellFormed (m : Match.t) : Prop :=
  ∃ a b, Match.users m = [a; b] ∧ a ≠ b.

(** The two users of a match, in either order. *)
Definition participants (m : Match.t) (u o : ObjectId) : Prop :=
  u ≠ o ∧ (Match.users m = [u; o] ∨ Match.users m = [o; u]).

(** The match [mid] is on record and not active. *)
Definition inactiveAt (mid : ObjectId) (docs : list Match.t) : Prop :=
  ∃ m, findIn CMatches docs mid = Some m ∧ Match.isActive m = false.

(** ** Likes and pairs *)

(** The store and the answer of a like that gets through its guards. *)
Definition likeEffect (now : nat) (s : Store) (a b : ObjectId) (ua ub : User.t)
    (s' : Store) (d : LikeData) : Prop :=
  if includes (User.likes ub) a then
    isMatch d = true
    ∧ (∃ profiles,
          matchSummary d = Some (matchOid (length (matchDocs s)), profiles))
    ∧ matchDocs s' = matchDocs s ++ [Match.mk [a; b] true now ∅]
    ∧ findUser s' a
      = Some (User.set_matches (User.matches ua ++ [b])
                (User.set_likes (User.likes ua ++ [b]) ua))
    ∧ findUser s' b = Some (User.set_matches (User.matches ub ++ [a]) ub)
  else
    isMatch d = false
    ∧ matchSummary d = None
    ∧ matchDocs s' = matchDocs s
    ∧ findUser s' a = Some (User.set_likes (User.likes ua ++ [b]) ua)
    ∧ findUser s' b = Some ub.

(** The payload of a successful answer. *)
Definition dataOf {A} (dflt : A) (r : Response A) : A :=
  match r with Success _ d => d | _ => dflt end.

(** The two views of the store that match creation depends on: who likes
    whom, and the pairs on record. *)
Definition likesOf (s : Store) (id : ObjectId) : option (list ObjectId) :=
  User.likes <$> findUser s id.

Definition pairs (s : Store) : list (list ObjectId) :=
  map Match.users (matchDocs s).

(** No two match documents are about the same pair of users. *)
Definition onePerPair (s : Store) : Prop :=
  ∀ i j mi mj,
    matchDocs s !! i = Some mi → matchDocs s !! j = Some mj →
    Match.users mi ≡ₚ Match.users mj → i = j.

(** No two active match documents are about the same pair of users. *)
Definition oneActivePerPair (s : Store) : Prop :=
  ∀ i j mi mj,
    matchDocs s !! i = Some mi → matchDocs s !! j = Some mj →
    Match.isActive mi = true → Match.isActive mj = true →
    Match.users mi ≡ₚ Match.users mj → i = j.

(** A string that the comparisons with [id.toString()] recognise for the
    id it casts to: not another spelling of an id. *)
Definition canonical (r : RawId) : bool :=
  match r with
  | Spelled _ false => false
  | _ => true
  end.

(** Requests that never take an id out of a [likes] array. *)
Definition noRemoval (r : Request) : bool :=
  match r with
  | ReqDislike _ _ | ReqBlock _ _ => false
  | _ => true
  end.

(** Requests that never take an id out of a [likes] array, and whose like
    spells its target as the array does. *)
Definition keepsLikes (r : Request) : bool :=
  match r with
  | ReqDislike _ _ | ReqBlock _ _ => false
  | ReqLike _ target => canonical target
  | _ => true
  end.

(** Every pair on record is a mutual like, and is on record once. *)
Definition mutualLikes (s : Store) : Prop :=
  (∀ p, p ∈ pairs s →
        ∃ a b la lb,
          p = [a; b] ∧ a ≠ b
          ∧ likesOf s a = Some la ∧ b ∈ la
          ∧ likesOf s b = Some lb ∧ a ∈ lb)
  ∧ (∀ i j p q,
        pairs s !! i = Some p → pairs s !! j = Some q → p ≡ₚ q → i = j).

(** ** Blocking *)

Definition blockedOf (s : Store) (id : ObjectId) : option (list ObjectId) :=
  User.blocked <$> findUser s id.

Definition blockedByOf (s : Store) (id : ObjectId) : option (list ObjectId) :=
  User.blockedBy <$> findUser s id.

(** [blocked] and [blockedBy] as inverse relations. *)
Definition inversePairs (s : Store) : Prop :=
  ∀ a b ua ub,
    findUser s a = Some ua → findUser s b = Some ub →
    b ∈ User.blocked ua ↔ a ∈ User.blockedBy ub.

Definition isBlockRequest (r : Request) : bool :=
  match r with
  | ReqBlock _ _ | ReqUnblock _ _ => true
  | _ => false
  end.

(** What the block handler leaves of the caller's document, for a
    parameter [r] that casts to [b]. *)
Definition blockedDoc (r : RawId) (b : ObjectId) (ua : User.t) : User.t :=
  User.set_matches (withoutRaw r (User.matches ua))
    (User.set_likes (withoutRaw r (User.likes ua))
       (User.set_blocked
          (if negb (includesRaw (User.blocked ua) r)
           then User.blocked ua ++ [b] else User.blocked ua) ua)).

(** ** Unread messages *)

(** The count the comments of the unread-count handler describe: the
    unread, non-deleted messages of a match that the user did not send. *)
Definition unreadFromOthersIn (s : Store) (userId mid : ObjectId) : nat :=
  length (filter (fun c => unreadFromOthers mid userId c = true) (chatDocs s)).

(** ** The runtime of the examples *)

Fixpoint valueAt (table : list (float * float)) (x : float) : float :=
  match table with
  | [] => nan
  | (argument, value) :: table' =>
      if Leibniz.eqb argument x then value else valueAt table' x
  end.

(** Eight degrees in radians, [8 * Math.PI / 180]. *)
Definition eightDegrees : float := 0x1.1df46a2529d39p-3.

(** [Math.sin], [Math.cos] and [Math.atan2] at the arguments that the
    examples reach, with the correctly rounded values of the functions
    there, and NaN elsewhere, as for every NaN argument: the sine and the
    cosine of zero, of eight degrees and of [Math.PI / 2], the angle of the
    point (1, 0) and of the point that lies at eight degrees. *)
#[global] Instance exampleMath : JSMath := {|
  Math_sin := valueAt [(0, 0); (-0, -0);
                       (eightDegrees, 0x1.1d06c968d9e19p-3);
                       (- eightDegrees, -0x1.1d06c968d9e19p-3);
                       (0x1.921fb54442d18p+0, 1);
                       (-0x1.921fb54442d18p+0, -1)]%float;
  Math_cos := valueAt [(0, 1); (-0, 1);
                       (eightDegrees, 0x1.fb046a930947ap-1);
                       (- eightDegrees, 0x1.fb046a930947ap-1)]%float;
  Math_atan2 := fun y x =>
    if Leibniz.eqb y 0 && Leibniz.eqb x 1 then 0%float
    else if Leibniz.eqb y 0x1.1d06c968d9e19p-3
            && Leibniz.eqb x 0x1.fb046a930947ap-1 then eightDegrees
    else nan
|}.

(** ** Example stores *)

Definition origin : Location := {| longitude := 0; latitude := 0 |}.

(** A user with a completed profile who has sent coordinates and has no
    likes, matches or blocks yet. *)
Definition newUser : User.t :=
  User.mk false None true false [] [] [] [] [] (Some origin) true.

(** A user who has not sent coordinates yet. *)
Definition unlocatedUser : User.t :=
  User.mk false None true false [] [] [] [] [] None true.

Definition alice : ObjectId := userOid 0.
Definition bob : ObjectId := userOid 1.
Definition carol : ObjectId := userOid 2.

Definition threeUsers : Store := mkStore [newUser; newUser; newUser] [] [].

(** Bob has liked Alice. *)
Definition bobLikedAlice : Store := (like 3 threeUsers bob (canon alice)).1.

(** Alice has liked Bob back: document 0 of the matches collection. *)
Definition matchedStore : Store := (like 5 bobLikedAlice alice (canon bob)).1.

(** Bob has sent a first message, which Alice has not read. *)
Definition chattedStore : Store :=
  (send 7 matchedStore (matchOid 0) bob "hello" text).1.

Definition chattedMatch : Match.t :=
  Match.mk [alice; bob] true 7 (<[alice := 1]> ∅).

(** Bob likes Alice, Alice likes Bob (a match), Alice unmatches and tries to
    like Bob again. *)
Definition rematchTrace : list (nat * Request) :=
  [(1, ReqLike bob (canon alice)); (2, ReqLike alice (canon bob));
   (3, ReqUnmatch (matchOid 0) alice); (4, ReqLike alice (canon bob))].

(** Bob likes Alice, Alice likes Bob (a match), Alice dislikes Bob and likes
    him again. *)
Definition relikeTrace : list (nat * Request) :=
  [(1, ReqLike bob (canon alice)); (2, ReqLike alice (canon bob));
   (3, ReqDislike alice (canon bob)); (4, ReqLike alice (canon bob))].

Definition relikeStore : Store := serveAll threeUsers relikeTrace.

(** Three users at the same place; the first has liked the second. *)
Definition locatedUser (likes : list ObjectId) : User.t :=
  User.mk false None true false likes [] [] [] [] (Some origin) true.

Definition locatedStore : Store :=
  mkStore [locatedUser [bob]; locatedUser []; locatedUser []] [] [].

(** A premium user without expiry, and a second user. *)
Definition premiumUser : User.t :=
  User.mk true None true false [] [] [] [] [] (Some origin) true.

Definition premiumStore : Store := mkStore [premiumUser; newUser] [] [].

(** Alice has not sent coordinates yet; Bob and Carol have. *)
Definition arrivingStore : Store := mkStore [unlocatedUser; newUser; newUser] [] [].

(** ** Tactics *)

(** Settles the [decide (id = id')] left by the update lemmas. *)
Ltac decide_ids := repeat (case_decide; try congruence).

(** Unfolds a handler down to the collections of the resulting store. *)
Ltac unfold_handlers :=
  unfold serve, like, dislike, superLike, block, unblock, send, listMessages,
    markRead, deleteMessage, unmatch, chatGuard, createChat, createMatch,
    saveUnread, markAllRead, pullMatch, updateUser, updateMatch,
    updateChat in *.

(** ** Invariants of the social graph *)

(** No profile is in its own [likes], [matches] or [blocked]. *)
Definition selfFree (s : Store) : Prop :=
  ∀ id u, findUser s id = Some u →
    (id ∉ User.likes u) ∧ (id ∉ User.matches u) ∧ (id ∉ User.blocked u).

(** Each of two profiles is in the other's [matches], or neither is. *)
Definition symmetricMatches (s : Store) : Prop :=
  ∀ a b ua ub,
    findUser s a = Some ua → findUser s b = Some ub →
    b ∈ User.matches ua ↔ a ∈ User.matches ub.

Definition notBlock (r : Request) : bool :=
  match r with ReqBlock _ _ => false | _ => true end.

(** A document without coordinates has no likes. *)
Definition likersLocated (s : Store) : Prop :=
  ∀ id u, findUser s id = Some u → User.savable u = false → User.likes u = [].

(** A like or a block whose string is another spelling of the caller's own
    id. *)
Definition namesCallerOtherwise (r : Request) : bool :=
  match r with
  | ReqLike a (Spelled b false) | ReqBlock a (Spelled b false) =>
      bool_decide (a = b)
  | _ => false
  end.

(** Turns the boolean guards met on the way into propositions. *)
Ltac bool_hyps :=
  repeat match goal with
         | H : bool_decide _ = true |- _ => apply bool_decide_eq_true in H
         | H : bool_decide _ = false |- _ => apply bool_decide_eq_false in H
         | H : includes _ _ = _ |- _ => unfold includes in H
         | H : negb _ = true |- _ => apply negb_true_iff in H
         | H : negb _ = false |- _ => apply negb_false_iff in H
         | H : _ || _ = false |- _ => apply orb_false_iff in H as [? ?]
         | H : _ && _ = true |- _ => apply andb_true_iff in H as [? ?]
         end.

(** ** Listings *)

(** The messages of an answer of the list handler. *)
Definition listedMessages (r : Response MessagesData) : list (ObjectId * Chat.t) :=
  match r with Success _ d => msg_messages d | _ => [] end.

(** The non-deleted messages of a match, with their ids. *)
Definition visibleMessages (s : Store) (mid : ObjectId) : list (ObjectId * Chat.t) :=
  filter (fun c => Chat.matchId c.2 = mid ∧ Chat.isDeleted c.2 = false)
         (imap (fun i c => (chatOid i, c)) (chatDocs s)).

(** ** Sending *)

(** The requests of one sender in one match, from the times, texts and
    types of the messages. *)
Definition sendsOf (mid u : ObjectId) (msgs : list (nat * string * MessageType))
    : list (nat * Request) :=
  map (fun x => (x.1.1, ReqSend mid u x.1.2 x.2)) msgs.

Definition validText (msg : string) : Prop := 1 ≤ String.length msg ≤ 1000.

(** ** Unread counters and unread messages *)

Definition notDelete (r : Request) : bool :=
  match r with ReqDeleteMessage _ _ _ => false | _ => true end.

(** Over the two collections: every match document is well formed; no
    message is deleted and each was sent by a user of its match; and in
    every match the unread counter of each of its users is the number of
    unread messages of the match that the user did not send. *)
Definition countersAgreeOn (docs : list Match.t) (chats : list Chat.t) : Prop :=
  Forall wellFormed docs
  ∧ (∀ c, c ∈ chats →
          Chat.isDeleted c = false
          ∧ ∃ m, findIn CMatches docs (Chat.matchId c) = Some m
                 ∧ Chat.sender c ∈ Match.users m)
  ∧ (∀ mid m k, findIn CMatches docs mid = Some m → k ∈ Match.users m →
                Match.unreadOf m k
                = length (filter (fun c => unreadFromOthers mid k c = true) chats)).

Definition countersAgree (s : Store) : Prop :=
  countersAgreeOn (matchDocs s) (chatDocs s).

(** ** Pages of matches *)

(** The ids listed on a page of [GET /api/matches]. *)
Definition matchesPage (s : Store) (userId : ObjectId) (page limit : nat)
    : list ObjectId :=
  match getMatches s userId page limit with
  | Success _ d => mt_matches d
  | _ => []
  end.

(** ** Photos *)


(** ** The Authorization header *)

Fixpoint hasChar (c : Ascii.ascii) (str : string) : bool :=
  match str with
  | EmptyString => false
  | String c' rest => Ascii.eqb c' c || hasChar c rest
  end.

Definition space : Ascii.ascii := Ascii.ascii_of_nat 32.

(** ** Pages of discovery *)

(** The ids and rounded distances listed on a page of [GET /api/discovery]. *)
Definition discoveryPage {runtime : JSMath} (geoDistance : Location → Location → R)
    (s : Store) (seekerId : ObjectId) (page limit : nat) (maxDistance : R)
    : list (ObjectId * float) :=
  match findCandidates geoDistance s seekerId page limit maxDistance with
  | Success _ d => disc_users d
  | _ => []
  end.

(** [dLat / 2] and [dLon / 2] of [calculateDistance]. *)
Definition halfAngle (x y : float) : float :=
  ((y - x) * Math_PI / 180 / 2)%float.

(** The entry of the answer made from a document found by the query. *)
Definition withDistance {runtime : JSMath} (center : Location)
    (d : ObjectId * User.t * Location) : ObjectId * float :=
  (d.1.1, roundedDistance center d.2).

(** ** Failed logins of an admin *)

(** What is done to an admin document between two loads: a failed login
    with its three clock readings, or a successful one. *)
Inductive AdminEvent :=
| FailedLogin (now1 now2 now3 : Z)
| SuccessfulLogin.

Definition adminStep (a : Admin.t) (e : AdminEvent) : Admin.t :=
  match e with
  | FailedLogin now1 now2 now3 => Admin.incLoginAttempts now1 now2 now3 a
  | SuccessfulLogin => Admin.resetLoginAttempts a
  end.

Definition adminRun (a : Admin.t) (es : list AdminEvent) : Admin.t :=
  foldl adminStep a es.

Definition twoHours : Z := 2 * 60 * 60 * 1000.

(** Failed logins, one per triple of clock readings. *)
Definition failures (readings : list (Z * Z * Z)) : list AdminEvent :=
  map (fun r => FailedLogin r.1.1 r.1.2 r.2) readings.

(** * Properties *)

(** ** Lookups and updates of documents *)

Section StoreLemmas.
Context {A : Type}.
Implicit Types (docs : list A) (f : A → A) (id : ObjectId) (c : Collection).

Lemma findIn_updateIn_eq c f id docs :
  findIn c (updateIn c f id docs) id = f <$> findIn c docs id.
Proof.
  unfold findIn, updateIn. case_bool_decide; [|done].
  by rewrite list_lookup_alter_eq.
Qed.

Lemma findIn_updateIn_ne c f id id' docs :
  id ≠ id' → findIn c (updateIn c f id docs) id' = findIn c docs id'.
Proof.
  intros Hne. unfold findIn, updateIn.
  destruct (bool_decide (oid_coll id' = c)) eqn:E'; [|done].
  apply bool_decide_eq_true in E'.
  case_bool_decide as E; [|done].
  apply list_lookup_alter_ne. intros Hidx. apply Hne.
  destruct id, id'; simpl in *; congruence.
Qed.

Lemma findIn_updateIn c f id id' docs :
  findIn c (updateIn c f id docs) id'
  = if decide (id = id') then f <$> findIn c docs id' else findIn c docs id'.
Proof.
  case_decide as E; [subst; apply findIn_updateIn_eq|by apply findIn_updateIn_ne].
Qed.

Lemma length_updateIn c f id docs : length (updateIn c f id docs) = length docs.
Proof. unfold updateIn. case_bool_decide; [apply length_alter|done]. Qed.

Lemma updateIn_lookup c f id docs i :
  updateIn c f id docs !! i
  = if decide (id = Oid c i) then f <$> docs !! i else docs !! i.
Proof.
  unfold updateIn. case_bool_decide as E.
  - case_decide as E'.
    + subst id. simpl. apply list_lookup_alter_eq.
    + apply list_lookup_alter_ne. intros Hi. apply E'.
      destruct id; simpl in *; congruence.
  - case_decide as E'; [|done]. subst id. by destruct E.
Qed.

Lemma findIn_Some c docs id x :
  findIn c docs id = Some x → id = Oid c (oid_index id) ∧ docs !! oid_index id = Some x.
Proof.
  unfold findIn. case_bool_decide as E; [|done].
  intros H. split; [|done]. by destruct id; simpl in *; subst.
Qed.

Lemma findIn_Oid c docs i : findIn c docs (Oid c i) = docs !! i.
Proof. unfold findIn. simpl. by rewrite bool_decide_eq_true_2. Qed.
End StoreLemmas.

Lemma includes_true l x : includes l x = true ↔ x ∈ l.
Proof. unfold includes. apply bool_decide_eq_true. Qed.

Lemma includes_false l x : includes l x = false ↔ x ∉ l.
Proof. unfold includes. apply bool_decide_eq_false. Qed.

Lemma elem_of_without x y l : y ∈ without x l ↔ y ≠ x ∧ y ∈ l.
Proof. unfold without. by rewrite list_elem_of_filter. Qed.

Lemma not_elem_of_without x l : x ∉ without x l.
Proof. rewrite elem_of_without. tauto. Qed.

(** ** Ids as strings *)

Lemma sameString_true r id : sameString r id = true ↔ r = canon id.
Proof.
  unfold sameString, canon. destruct r as [|id' []]; try (split; done).
  rewrite bool_decide_eq_true. split; congruence.
Qed.

Lemma sameString_canon b id : sameString (canon b) id = bool_decide (b = id).
Proof. done. Qed.

Lemma sameString_cast r b id :
  castId r = Some b → sameString r id = true → b = id.
Proof. intros Hc Hs. apply sameString_true in Hs. subst r. by injection Hc. Qed.

Lemma sameString_not_canonical r id : canonical r = false → sameString r id = false.
Proof. by destruct r as [|? []]. Qed.

Lemma includesRaw_true l r : includesRaw l r = true ↔ ∃ id, r = canon id ∧ id ∈ l.
Proof.
  unfold includesRaw. rewrite existsb_exists. split.
  - intros (id & Hin & Hs). apply sameString_true in Hs.
    exists id. split; [done|]. by apply list_elem_of_In.
  - intros (id & -> & Hin). exists id. split; [by apply list_elem_of_In|].
    by apply sameString_true.
Qed.

Lemma includesRaw_canon l b : includesRaw l (canon b) = includes l b.
Proof.
  destruct (includes l b) eqn:E.
  - apply includes_true in E. apply includesRaw_true. eauto.
  - apply includes_false in E. apply not_true_is_false.
    intros (id & [= ->] & Hin)%includesRaw_true. done.
Qed.

Lemma includesRaw_not_canonical l r : canonical r = false → includesRaw l r = false.
Proof.
  intros Hr. apply not_true_is_false.
  intros (id & -> & _)%includesRaw_true. done.
Qed.

Lemma elem_of_withoutRaw r y l : y ∈ withoutRaw r l ↔ r ≠ canon y ∧ y ∈ l.
Proof.
  unfold withoutRaw. rewrite list_elem_of_filter.
  rewrite <- not_true_iff_false, sameString_true. tauto.
Qed.

Lemma withoutRaw_canon b l : withoutRaw (canon b) l = without b l.
Proof.
  unfold withoutRaw, without. apply list_filter_iff. intros id.
  rewrite sameString_canon, bool_decide_eq_false. split; congruence.
Qed.

Lemma withoutRaw_not_canonical r l : canonical r = false → withoutRaw r l = l.
Proof.
  intros Hr. unfold withoutRaw. induction l as [|x l IH]; [done|].
  rewrite filter_cons, decide_True by by apply sameString_not_canonical.
  by rewrite IH.
Qed.

Lemma not_elem_of_withoutRaw_canon x l : x ∉ withoutRaw (canon x) l.
Proof. rewrite elem_of_withoutRaw. tauto. Qed.

Lemma withoutRaw_subseteq r l : withoutRaw r l ⊆ l.
Proof. intros y. rewrite elem_of_withoutRaw. tauto. Qed.

(** ** The match documents *)

Lemma preSave_Some m m' : Match.preSave m = Some m' → m' = m ∧ wellFormed m.
Proof.
  unfold Match.preSave, wellFormed.
  destruct (Match.users m) as [|a [|b [|? ?]]] eqn:E; try done.
  case_bool_decide; [done|]. intros [= <-]. eauto.
Qed.

Lemma preSave_pair a b act d cnt :
  a ≠ b → Match.preSave (Match.mk [a; b] act d cnt) = Some (Match.mk [a; b] act d cnt).
Proof. intros. unfold Match.preSave. simpl. by rewrite bool_decide_eq_false_2. Qed.

Lemma hasUser_true m u : Match.hasUser m u = true ↔ u ∈ Match.users m.
Proof.
  unfold Match.hasUser. rewrite bool_decide_eq_true, Exists_exists.
  split; [by intros (? & ? & ->)|eauto].
Qed.

Lemma getOtherUser_pair m a b u :
  Match.users m = [a; b] → a ≠ b →
  Match.getOtherUser m u
  = if decide (u = a) then Some b else Some a.
Proof.
  intros E Hab. unfold Match.getOtherUser. rewrite E.
  rewrite !filter_cons, filter_nil.
  repeat case_decide; simplify_eq; done.
Qed.

Lemma wellFormed_getOtherUser m u :
  wellFormed m → Match.hasUser m u = true →
  ∃ o, Match.getOtherUser m u = Some o ∧ o ≠ u
       ∧ (Match.users m = [u; o] ∨ Match.users m = [o; u]).
Proof.
  intros (a & b & E & Hab) Hu. apply hasUser_true in Hu. rewrite E in Hu.
  rewrite (getOtherUser_pair m a b u E Hab).
  case_decide; simplify_eq.
  - exists b. rewrite E. eauto.
  - exists a. rewrite E.
    apply elem_of_cons in Hu as [->|Hu]; [done|].
    apply list_elem_of_singleton in Hu as ->. eauto.
Qed.

(** ** The like handler *)

Lemma findUser_updateUser f id id' s :
  findUser (updateUser f id s) id'
  = if decide (id = id') then f <$> findUser s id' else findUser s id'.
Proof. apply findIn_updateIn. Qed.

Lemma findMatch_updateMatch f id id' s :
  findMatch (updateMatch f id s) id'
  = if decide (id = id') then f <$> findMatch s id' else findMatch s id'.
Proof. apply findIn_updateIn. Qed.

(** The guards of the like handler are the only way for it to fail. *)
Lemma like_succeeds now s a r b ua ub :
  a ≠ b → castId r = Some b →
  findUser s a = Some ua → findUser s b = Some ub →
  User.isActive ub = true → User.isBlocked ub = false →
  includesRaw (User.likes ua) r = false →
  User.savable ua = true →
  (includes (User.likes ub) a = true → User.savable ub = true) →
  ∃ s' d, like now s a r = (s', Success 200 d).
Proof.
  intros Hab Hr Ha Hb Hact Hblk Hnew Hsa Hsb. unfold like.
  destruct (sameString r a) eqn:Hself.
  { apply (sameString_cast r b a Hr) in Hself. congruence. }
  rewrite Hr, Hb, Hact, Hblk, Ha, Hnew, Hsa. simpl.
  destruct (includes (User.likes ub) a); [|eauto].
  unfold createMatch. rewrite preSave_pair by done.
  rewrite Hsb by done. simpl. eauto.
Qed.

Lemma like_success_effect now s a r b s' status d :
  a ≠ b → castId r = Some b →
  like now s a r = (s', Success status d) →
  ∃ ua ub,
    findUser s a = Some ua ∧ findUser s b = Some ub
    ∧ User.isActive ub = true ∧ User.isBlocked ub = false
    ∧ includesRaw (User.likes ua) r = false
    ∧ User.savable ua = true
    ∧ (includes (User.likes ub) a = true → User.savable ub = true)
    ∧ likeEffect now s a b ua ub s' d.
Proof.
  intros Hne Hr. unfold like.
  destruct (sameString r a); [done|]. rewrite Hr.
  destruct (findUser s b) as [ub|] eqn:Hb; [|done].
  destruct (negb (User.isActive ub) || User.isBlocked ub) eqn:Hflags; [done|].
  apply orb_false_iff in Hflags as [Hact%negb_false_iff Hblk].
  destruct (findUser s a) as [ua|] eqn:Ha; [|done].
  destruct (includesRaw (User.likes ua) r) eqn:Hnew; [done|].
  destruct (User.savable ua) eqn:Hsa; [|done]. simpl.
  intros H. exists ua, ub. split_and!; try done.
  - destruct (includes (User.likes ub) a); [|done]. intros _.
    unfold createMatch in H. rewrite preSave_pair in H by done.
    by destruct (User.savable ub).
  - unfold likeEffect. destruct (includes (User.likes ub) a).
    + unfold createMatch in H. rewrite preSave_pair in H by done.
      destruct (User.savable ub); [|done].
      simpl in H. injection H as <- <- <-. simpl.
      unfold findUser, updateUser in *. simpl.
      rewrite !findIn_updateIn, Ha, Hb.
      decide_ids. simpl. split_and!; eauto.
    + injection H as <- <- <-. simpl.
      unfold findUser, updateUser in *. simpl.
      rewrite !findIn_updateIn, Ha, Hb.
      decide_ids. done.
Qed.

(** C1. For two distinct users [A] and [B], however the request spells the
    id of [B]: a like that succeeds appends [B] to the likes of [A]; when
    the likes of [B] already contain [A] it also creates the match document
    [[A; B]], appends each user to the other's matches and answers
    [isMatch = true] with the match; otherwise it answers [isMatch = false]
    and leaves the matches collection as it was.  The like succeeds exactly
    when both users exist, [B] is active and not blocked, the string is not
    found in the likes of [A], the document of [A] has coordinates and, for
    a mutual like, so has the document of [B]. *)
Theorem like_mutual_creates_match now s a r b :
  a ≠ b → castId r = Some b →
  (∀ s' status d, like now s a r = (s', Success status d) →
     ∃ ua ub,
       findUser s a = Some ua ∧ findUser s b = Some ub
       ∧ likeEffect now s a b ua ub s' d)
  ∧ ((∃ s' d, like now s a r = (s', Success 200 d))
     ↔ ∃ ua ub,
         findUser s a = Some ua ∧ findUser s b = Some ub
         ∧ User.isActive ub = true ∧ User.isBlocked ub = false
         ∧ includesRaw (User.likes ua) r = false
         ∧ User.savable ua = true
         ∧ (includes (User.likes ub) a = true → User.savable ub = true)).
Proof.
  intros Hne Hr. split.
  - intros s' status d H.
    destruct (like_success_effect now s a r b s' status d Hne Hr H)
      as (ua & ub & Ha & Hb & _ & _ & _ & _ & _ & Heff).
    eauto.
  - split.
    + intros (s' & d & H).
      destruct (like_success_effect now s a r b s' 200 d Hne Hr H)
        as (ua & ub & Ha & Hb & Hact & Hblk & Hnew & Hsa & Hsb & _).
      exists ua, ub. by split_and!.
    + intros (ua & ub & Ha & Hb & Hact & Hblk & Hnew & Hsa & Hsb).
      by apply (like_succeeds now s a r b ua ub).
Qed.

Lemma like_mutual_creates_match_witness :
  alice ≠ bob
  ∧ castId (canon bob) = Some bob
  ∧ (∀ s' status d,
       like 5 bobLikedAlice alice (canon bob) = (s', Success status d) →
       ∃ ua ub,
         findUser bobLikedAlice alice = Some ua
         ∧ findUser bobLikedAlice bob = Some ub
         ∧ likeEffect 5 bobLikedAlice alice bob ua ub s' d)
  ∧ ((∃ s' d, like 5 bobLikedAlice alice (canon bob) = (s', Success 200 d))
     ↔ ∃ ua ub,
         findUser bobLikedAlice alice = Some ua
         ∧ findUser bobLikedAlice bob = Some ub
         ∧ User.isActive ub = true ∧ User.isBlocked ub = false
         ∧ includesRaw (User.likes ua) (canon bob) = false
         ∧ User.savable ua = true
         ∧ (includes (User.likes ub) alice = true → User.savable ub = true)).
Proof.
  assert (alice ≠ bob) as Hne by done.
  do 2 (split; [done|]).
  exact (like_mutual_creates_match 5 bobLikedAlice alice (canon bob) bob
           Hne eq_refl).
Defined.

(** The scenario of the two likes: the first is not a match, the second is,
    and each user ends up in the other's matches. *)
Example like_then_like_back :
  (like 3 threeUsers bob (canon alice)).2 = Success 200 (mkLikeData false None)
  ∧ matchDocs bobLikedAlice = []
  ∧ isMatch (dataOf (mkLikeData false None)
               (like 5 bobLikedAlice alice (canon bob)).2) = true
  ∧ matchDocs (like 5 bobLikedAlice alice (canon bob)).1
    = [Match.mk [alice; bob] true 5 ∅]
  ∧ (User.matches <$> findUser (like 5 bobLikedAlice alice (canon bob)).1 alice)
    = Some [bob]
  ∧ (User.matches <$> findUser (like 5 bobLikedAlice alice (canon bob)).1 bob)
    = Some [alice].
Proof. done. Qed.

(** The same likes between users who have sent no coordinates: the save is
    refused, the answer is 500 and nothing is stored. *)
Example like_without_coordinates :
  like 3 (mkStore [unlocatedUser; unlocatedUser] [] []) bob (canon alice)
  = (mkStore [unlocatedUser; unlocatedUser] [] [], serverError).
Proof. done. Qed.

(** Spelled in upper case, the caller's own id passes the guard and is
    stored in the caller's likes. *)
Example like_oneself_in_upper_case :
  like 3 threeUsers alice (Spelled alice false)
  = (mkStore [User.set_likes [alice] newUser; newUser; newUser] [] [],
     Success 200 (mkLikeData false None)).
Proof. done. Qed.

(** ** One match per pair *)

Lemma map_users_updateIn f id (docs : list Match.t) :
  (∀ m, Match.users (f m) = Match.users m) →
  map Match.users (updateIn CMatches f id docs) = map Match.users docs.
Proof.
  intros Hf. apply list_eq. intros i.
  rewrite !list_lookup_fmap, updateIn_lookup.
  case_decide; [|done]. destruct (docs !! i); simpl; [|done]. by rewrite Hf.
Qed.

Lemma likes_findIn_updateIn f id id' (docs : list User.t) :
  (∀ u, User.likes (f u) = User.likes u) →
  User.likes <$> findIn CUsers (updateIn CUsers f id docs) id'
  = User.likes <$> findIn CUsers docs id'.
Proof.
  intros Hf. rewrite findIn_updateIn. case_decide; [|done].
  destruct (findIn CUsers docs id'); simpl; [|done]. by rewrite Hf.
Qed.

Lemma serve_quiet_views now s r :
  noRemoval r = true → (∀ a b, r ≠ ReqLike a b) →
  pairs (serve now s r) = pairs s
  ∧ ∀ id, likesOf (serve now s r) id = likesOf s id.
Proof.
  intros Hk Hl. unfold pairs, likesOf, findUser.
  destruct r; try done; try (by destruct (Hl currentUserId targetUserId));
    unfold_handlers; repeat case_match; simplify_eq/=;
    rewrite ?map_app, ?map_users_updateIn by done;
    (split; [done|]); intros id';
    rewrite ?likes_findIn_updateIn by done; done.
Qed.

(** What a like does to the two views: nothing, or it records the like and
    perhaps adds the pair, which it does only when the target already likes
    the caller.  A like that spells its target as [toString] does is
    recorded only for another user and only once. *)
Lemma like_views now s a r :
  let s' := (like now s a r).1 in
  (pairs s' = pairs s ∧ ∀ id, likesOf s' id = likesOf s id)
  ∨ ∃ b la,
      castId r = Some b ∧ likesOf s a = Some la
      ∧ (canonical r = true → a ≠ b ∧ b ∉ la)
      ∧ (∀ id, likesOf s' id
               = (if decide (id = a) then Some (la ++ [b]) else likesOf s id))
      ∧ (pairs s' = pairs s
         ∨ pairs s' = pairs s ++ [[a; b]]
           ∧ a ≠ b ∧ ∃ lb, likesOf s b = Some lb ∧ a ∈ lb).
Proof.
  simpl. unfold like.
  destruct (sameString r a) eqn:Hself; [by left|].
  destruct (castId r) as [b|] eqn:Hr; [|by left].
  destruct (findUser s b) as [ub|] eqn:Hb; [|by left].
  destruct (negb (User.isActive ub) || User.isBlocked ub); [by left|].
  destruct (findUser s a) as [ua|] eqn:Ha; [|by left].
  destruct (includesRaw (User.likes ua) r) eqn:Hnew; [by left|].
  destruct (User.savable ua); [|by left]. simpl.
  right. exists b, (User.likes ua).
  assert (∀ s1 : Store,
            userDocs s1 = updateIn CUsers
                            (User.set_likes (User.likes ua ++ [b])) a (userDocs s)
            ∨ (∃ f, (∀ u, User.likes (f u) = User.likes u)
                    ∧ userDocs s1
                      = updateIn CUsers f a
                          (updateIn CUsers
                             (User.set_likes (User.likes ua ++ [b])) a
                             (userDocs s)))
            ∨ (∃ f g, (∀ u, User.likes (f u) = User.likes u)
                      ∧ (∀ u, User.likes (g u) = User.likes u)
                      ∧ userDocs s1
                        = updateIn CUsers g b
                            (updateIn CUsers f a
                               (updateIn CUsers
                                  (User.set_likes (User.likes ua ++ [b])) a
                                  (userDocs s)))) →
            ∀ id, likesOf s1 id
                  = (if decide (id = a) then Some (User.likes ua ++ [b])
                     else likesOf s id)) as Hlikes.
  { intros s1 Hs1 id. unfold likesOf, findUser in *.
    destruct Hs1 as [->|[(f & Hf & ->)|(f & g & Hf & Hg & ->)]];
      rewrite ?likes_findIn_updateIn by done;
      rewrite findIn_updateIn; case_decide; subst; decide_ids;
      by rewrite Ha. }
  split_and!; [done|by unfold likesOf; rewrite Ha|..].
  - intros Hcan. destruct r as [|b' []]; try done.
    simpl in Hr, Hself. injection Hr as ->.
    apply bool_decide_eq_false in Hself. split; [congruence|].
    change (includesRaw (User.likes ua) (canon b) = false) in Hnew.
    rewrite includesRaw_canon in Hnew. by apply includes_false.
  - destruct (includes (User.likes ub) a); [|apply Hlikes; by left].
    unfold createMatch, Match.preSave. simpl.
    case_bool_decide; simpl; [apply Hlikes; by left|].
    destruct (User.savable ub); simpl; apply Hlikes; right.
    + right. eexists _, _. split_and!; [..|done]; done.
    + left. eexists. split; [|done]. done.
  - destruct (includes (User.likes ub) a) eqn:Hmut; [|by left].
    unfold createMatch, Match.preSave. simpl.
    case_bool_decide as Hab; simpl; [by left|].
    right.
    assert (∀ s1 : Store,
              matchDocs s1 = matchDocs s ++ [Match.mk [a; b] true now ∅] →
              pairs s1 = pairs s ++ [[a; b]]) as Hpairs.
    { intros s1 Hs1. unfold pairs. by rewrite Hs1, map_app. }
    split_and!; [|done|].
    + by destruct (User.savable ub); apply Hpairs.
    + exists (User.likes ub). unfold likesOf. rewrite Hb.
      by apply includes_true in Hmut.
Qed.

Lemma Permutation_pair (a b c d : ObjectId) :
  [a; b] ≡ₚ [c; d] → (a = c ∧ b = d) ∨ (a = d ∧ b = c).
Proof. apply Permutation_length_2. Qed.

Lemma mutualLikes_initial s : initial s → mutualLikes s.
Proof.
  intros (_ & Hm & _). unfold mutualLikes, pairs. rewrite Hm. simpl.
  split; [by intros p ?%elem_of_nil|intros i j p q Hi; by rewrite lookup_nil in Hi].
Qed.

Lemma mutualLikes_like now s a r :
  canonical r = true →
  mutualLikes s → mutualLikes (like now s a r).1.
Proof.
  intros Hcan [Hmut Huniq].
  destruct (like_views now s a r)
    as [[Hp Hl]|(b & la & Hr & Hla & Hfresh & Hl & Hp)]; simpl in *.
  { unfold mutualLikes. rewrite Hp. setoid_rewrite Hl. done. }
  destruct (Hfresh Hcan) as [Hab Hnew]. clear Hfresh.
  set (s' := (like now s a r).1) in *.
  assert (∀ id l x, likesOf s id = Some l → x ∈ l →
                    ∃ l', likesOf s' id = Some l' ∧ x ∈ l') as Hgrow.
  { intros id l x Hid Hx. rewrite Hl. case_decide as E.
    - subst id. rewrite Hla in Hid. injection Hid as <-.
      eexists. split; [done|]. apply elem_of_app. by left.
    - eauto. }
  assert (∀ p, p ∈ pairs s →
               ∃ a0 b0 la0 lb0,
                 p = [a0; b0] ∧ a0 ≠ b0
                 ∧ likesOf s' a0 = Some la0 ∧ b0 ∈ la0
                 ∧ likesOf s' b0 = Some lb0 ∧ a0 ∈ lb0) as Hold.
  { intros p Hin.
    destruct (Hmut p Hin) as (a0 & b0 & la0 & lb0 & -> & Hne & Ha0 & Hb0 & Ha1 & Hb1).
    destruct (Hgrow _ _ _ Ha0 Hb0) as (la1 & ? & ?).
    destruct (Hgrow _ _ _ Ha1 Hb1) as (lb1 & ? & ?).
    by exists a0, b0, la1, lb1. }
  destruct Hp as [Hp|[Hp (_ & lb & Hlb & Halb)]].
  { unfold mutualLikes. rewrite Hp. split; [exact Hold|exact Huniq]. }
  split.
  - intros p. rewrite Hp, elem_of_app, list_elem_of_singleton.
    intros [Hin| ->]; [by apply Hold|].
    exists a, b, (la ++ [b]), lb. split_and!; try done.
    + by rewrite Hl, decide_True.
    + apply elem_of_app. right. by apply list_elem_of_singleton.
    + by rewrite Hl, decide_False.
  - assert (∀ i p, pairs s !! i = Some p → ¬ p ≡ₚ [a; b]) as Hfresh.
    { intros i p Hi Hperm.
      destruct (Hmut p) as (a0 & b0 & la0 & lb0 & -> & Hne & Ha0 & Hb0 & Ha1 & Hb1).
      { apply list_elem_of_lookup. eauto. }
      apply Permutation_pair in Hperm as [[-> ->]|[-> ->]]; congruence. }
    intros i j p q. rewrite Hp.
    rewrite !lookup_app_Some, !list_lookup_singleton_Some.
    intros [Hi|(Hi & Hi0 & <-)] [Hj|(Hj & Hj0 & <-)] Hperm.
    + by eapply Huniq.
    + by destruct (Hfresh i p Hi).
    + symmetry in Hperm. by destruct (Hfresh j q Hj).
    + lia.
Qed.

Lemma mutualLikes_serve now s r :
  keepsLikes r = true → mutualLikes s → mutualLikes (serve now s r).
Proof.
  intros Hk Hinv.
  assert ((∃ a b, r = ReqLike a b) ∨ ∀ a b, r ≠ ReqLike a b) as [(a & b & ->)|Hno]
    by (destruct r; eauto).
  { by apply mutualLikes_like. }
  assert (noRemoval r = true) as Hk' by (by destruct r).
  destruct (serve_quiet_views now s r Hk' Hno) as [Hp Hl].
  unfold mutualLikes. rewrite Hp. setoid_rewrite Hl. done.
Qed.

Lemma mutualLikes_serveAll s rs :
  Forall (fun r => keepsLikes r.2 = true) rs →
  mutualLikes s → mutualLikes (serveAll s rs).
Proof.
  revert s. induction rs as [|[now r] rs IH]; intros s Hrs Hinv; [done|].
  apply Forall_cons in Hrs as [Hr Hrs]. simpl.
  apply IH; [done|]. by apply mutualLikes_serve.
Qed.

Lemma mutualLikes_onePerPair s : mutualLikes s → onePerPair s.
Proof.
  intros [_ Huniq] i j mi mj Hi Hj Hperm.
  apply (Huniq i j (Match.users mi) (Match.users mj)); [..|done];
    unfold pairs; rewrite list_lookup_fmap; by simplify_option_eq.
Qed.

(** Every match document has two users, different from each other, whatever
    requests were served. *)
Lemma serve_pairs_other now s r :
  (∀ a b, r ≠ ReqLike a b) → pairs (serve now s r) = pairs s.
Proof.
  intros Hl. unfold pairs.
  destruct r; try (by destruct (Hl currentUserId targetUserId));
    unfold_handlers; repeat case_match; simplify_eq/=;
    rewrite ?map_app, ?map_users_updateIn by done; done.
Qed.

Lemma wellFormed_pairs s :
  Forall wellFormed (matchDocs s)
  ↔ Forall (fun p => ∃ a b, p = [a; b] ∧ a ≠ b) (pairs s).
Proof. unfold pairs. by rewrite Forall_fmap. Qed.

Lemma serve_wellFormed now s r :
  Forall wellFormed (matchDocs s) → Forall wellFormed (matchDocs (serve now s r)).
Proof.
  rewrite !wellFormed_pairs. intros Hwf.
  assert ((∃ a b, r = ReqLike a b) ∨ ∀ a b, r ≠ ReqLike a b) as [(a & b & ->)|Hno]
    by (destruct r; eauto).
  - destruct (like_views now s a b) as [[Hp _]|(b' & la & _ & _ & _ & _ & Hp)];
      simpl in *; [by rewrite Hp|].
    destruct Hp as [Hp|(Hp & Hab & _)]; rewrite Hp; [done|].
    apply Forall_app. split; [done|]. apply Forall_singleton. eauto.
  - by rewrite serve_pairs_other.
Qed.

Lemma serveAll_wellFormed s rs :
  Forall wellFormed (matchDocs s) → Forall wellFormed (matchDocs (serveAll s rs)).
Proof.
  revert s. induction rs as [|[now r] rs IH]; intros s H; [done|].
  simpl. by apply IH, serve_wellFormed.
Qed.

Lemma reachable_wellFormed s : reachable s → Forall wellFormed (matchDocs s).
Proof.
  intros (s0 & rs & (_ & Hm & _) & ->). apply serveAll_wellFormed.
  rewrite Hm. constructor.
Qed.

Lemma like_mutual_adds_match now s a b ua ub :
  a ≠ b → findUser s a = Some ua → findUser s b = Some ub →
  User.isActive ub = true → User.isBlocked ub = false →
  User.savable ua = true →
  a ∈ User.likes ub → b ∉ User.likes ua →
  matchDocs (like now s a (canon b)).1
  = matchDocs s ++ [Match.mk [a; b] true now ∅].
Proof.
  intros Hab Ha Hb Hact Hblk Hsa Hmut Hnew. unfold like.
  rewrite sameString_canon, bool_decide_eq_false_2 by congruence. simpl.
  rewrite Hb, Hact, Hblk, Ha, includesRaw_canon. simpl.
  apply includes_false in Hnew. apply includes_true in Hmut.
  rewrite Hnew, Hsa, Hmut. simpl.
  unfold createMatch. rewrite preSave_pair by done.
  by destruct (User.savable ub).
Qed.

(** C2, amended. In a store reached from a fresh one by requests served one
    after the other, none of them a dislike or a block and each like
    spelling its target as [toString] does, no two match documents (active
    or not) are about the same pair of users, and every match document has
    exactly two users, different from each other.  In such a store a like
    of [B] by [A], when [B] already likes [A] and [A] does not yet like
    [B], adds the one match document [[A; B]]. *)
Theorem one_match_per_pair_without_removals s0 rs :
  initial s0 →
  Forall (fun r => keepsLikes r.2 = true) rs →
  onePerPair (serveAll s0 rs)
  ∧ Forall wellFormed (matchDocs (serveAll s0 rs))
  ∧ ∀ now a b ua ub,
      a ≠ b →
      findUser (serveAll s0 rs) a = Some ua →
      findUser (serveAll s0 rs) b = Some ub →
      User.isActive ub = true → User.isBlocked ub = false →
      User.savable ua = true →
      a ∈ User.likes ub → b ∉ User.likes ua →
      matchDocs (like now (serveAll s0 rs) a (canon b)).1
      = matchDocs (serveAll s0 rs) ++ [Match.mk [a; b] true now ∅]
      ∧ onePerPair (like now (serveAll s0 rs) a (canon b)).1.
Proof.
  intros Hinit Hrs.
  assert (mutualLikes (serveAll s0 rs)) as Hmut.
  { apply mutualLikes_serveAll; [done|]. by apply mutualLikes_initial. }
  split_and!.
  - by apply mutualLikes_onePerPair.
  - apply reachable_wellFormed. by exists s0, rs.
  - intros now a b ua ub Hab Ha Hb Hact Hblk Hsa Hin Hnew. split.
    + by apply (like_mutual_adds_match now _ a b ua ub).
    + by apply mutualLikes_onePerPair, mutualLikes_like.
Qed.

Lemma initial_threeUsers : initial threeUsers.
Proof. split_and!; [|done..]. repeat constructor. Qed.

Lemma one_match_per_pair_without_removals_witness :
  initial threeUsers
  ∧ Forall (fun r => keepsLikes r.2 = true) rematchTrace
  ∧ onePerPair (serveAll threeUsers rematchTrace)
  ∧ Forall wellFormed (matchDocs (serveAll threeUsers rematchTrace))
  ∧ ∀ now a b ua ub,
      a ≠ b →
      findUser (serveAll threeUsers rematchTrace) a = Some ua →
      findUser (serveAll threeUsers rematchTrace) b = Some ub →
      User.isActive ub = true → User.isBlocked ub = false →
      User.savable ua = true →
      a ∈ User.likes ub → b ∉ User.likes ua →
      matchDocs (like now (serveAll threeUsers rematchTrace) a (canon b)).1
      = matchDocs (serveAll threeUsers rematchTrace) ++ [Match.mk [a; b] true now ∅]
      ∧ onePerPair (like now (serveAll threeUsers rematchTrace) a (canon b)).1.
Proof.
  assert (Forall (fun r : nat * Request => keepsLikes r.2 = true) rematchTrace)
    as Hrs by (repeat constructor).
  do 2 (split; [done || exact initial_threeUsers|]).
  exact (one_match_per_pair_without_removals threeUsers rematchTrace
           initial_threeUsers Hrs).
Defined.

(** In the trace of the witness the match of Alice and Bob is created once:
    after the unmatch Alice's like of Bob is refused, Bob still being in
    her likes. *)
Example rematch_is_refused :
  matchDocs (serveAll threeUsers rematchTrace)
  = [Match.mk [alice; bob] false 2 ∅]
  ∧ (like 4 (serveAll threeUsers (take 3 rematchTrace)) alice (canon bob)).2
    = Failure BadRequest "Already liked this user".
Proof. done. Qed.

(** C2, as stated, fails: the second like of the same pair, after a
    dislike, creates a second active match document for Alice and Bob. *)
Lemma duplicate_active_match_after_relike :
  reachable relikeStore
  ∧ matchDocs relikeStore
    = [Match.mk [alice; bob] true 2 ∅; Match.mk [alice; bob] true 4 ∅]
  ∧ ¬ (∀ s, reachable s → oneActivePerPair s).
Proof.
  assert (reachable relikeStore) as Hreach.
  { exists threeUsers, relikeTrace. split; [exact initial_threeUsers|done]. }
  assert (matchDocs relikeStore
          = [Match.mk [alice; bob] true 2 ∅; Match.mk [alice; bob] true 4 ∅])
    as Hdocs by reflexivity.
  split_and!; [done..|].
  intros Hclaim. specialize (Hclaim relikeStore Hreach 0 1).
  rewrite Hdocs in Hclaim.
  specialize (Hclaim _ _ eq_refl eq_refl eq_refl eq_refl). simpl in Hclaim.
  by specialize (Hclaim (Permutation_refl _)).
Qed.

(** Nor is a dislike needed: the same like with Bob's id in upper case is
    not found in Alice's likes and creates the second match document. *)
Example duplicate_match_in_upper_case :
  matchDocs (serveAll threeUsers
               [(1, ReqLike bob (canon alice)); (2, ReqLike alice (canon bob));
                (3, ReqLike alice (Spelled bob false))])
  = [Match.mk [alice; bob] true 2 ∅; Match.mk [alice; bob] true 3 ∅].
Proof. done. Qed.

(** ** Sorting keeps the elements *)

Section SortingLemmas.
Context {A : Type} (before : A → A → bool).

Lemma insertSorted_Permutation x l : insertSorted before x l ≡ₚ x :: l.
Proof.
  induction l as [|y l IH]; simpl; [done|].
  destruct (before x y); [done|]. rewrite IH. apply Permutation_swap.
Qed.

Lemma sortBy_Permutation l : sortBy before l ≡ₚ l.
Proof.
  induction l as [|x l IH]; simpl; [done|].
  by rewrite insertSorted_Permutation, IH.
Qed.

Lemma elem_of_sortBy x l : x ∈ sortBy before l ↔ x ∈ l.
Proof. by rewrite sortBy_Permutation. Qed.
End SortingLemmas.

(** ** Discovery *)

Lemma elem_of_locatedUsers s id u l :
  (id, u, l) ∈ locatedUsers s ↔ findUser s id = Some u ∧ User.location u = Some l.
Proof.
  unfold locatedUsers. rewrite list_elem_of_omap. split.
  - intros ([id' u'] & Hin & Hloc). simpl in Hloc.
    apply elem_of_lookup_imap in Hin as (i & u0 & [= -> ->] & Hi).
    destruct (User.location u0) eqn:E; simplify_eq/=.
    split; [|done]. unfold findUser, userOid. by rewrite findIn_Oid.
  - intros [Hfind Hloc]. exists (id, u). simpl. rewrite Hloc. split; [|done].
    apply findIn_Some in Hfind as [-> Hi].
    apply elem_of_lookup_imap. eauto.
Qed.

Section DiscoveryLemmas.
Context {runtime : JSMath}.
Variable geoDistance : Location → Location → R.

(** C3. For a seeker whose location is set, the discovery handler answers
    with a list that contains neither the seeker nor any id of the
    seeker's [likes], [blocked] or [blockedBy]; every listed id is that of
    a stored profile that is active, not blocked and profile-complete. *)
Theorem discovery_excludes s seekerId user center page limit maxDistance :
  findUser s seekerId = Some user →
  User.location user = Some center →
  ∃ d,
    findCandidates geoDistance s seekerId page limit maxDistance = Success 200 d
    ∧ ∀ id dist, (id, dist) ∈ disc_users d →
        id ≠ seekerId
        ∧ (id ∉ User.likes user)
        ∧ (id ∉ User.blocked user)
        ∧ (id ∉ User.blockedBy user)
        ∧ ∃ u, findUser s id = Some u
               ∧ User.isActive u = true
               ∧ User.isBlocked u = false
               ∧ User.profileCompleted u = true.
Proof.
  intros Huser Hcenter. unfold findCandidates. rewrite Huser, Hcenter.
  eexists. split; [done|]. simpl. intros id dist Hin.
  apply list_elem_of_fmap in Hin as ([[id' u] l] & [= -> ->] & Hin). simpl.
  apply subseteq_take, subseteq_drop in Hin.
  apply elem_of_sortBy, list_elem_of_filter in Hin as [Hq Hin].
  apply elem_of_locatedUsers in Hin as [Hfind _].
  unfold discoveryQuery in Hq. simpl in Hq.
  repeat (apply andb_prop in Hq as [Hq ?]).
  apply bool_decide_eq_true in Hq.
  match goal with H : negb (includes _ _) = true |- _ =>
    apply negb_true_iff, includes_false in H; rewrite !not_elem_of_app in H;
    destruct H as (? & ? & ?) end.
  split_and!; try done.
  exists u. split_and!; try done. by apply negb_true_iff.
Qed.
End DiscoveryLemmas.

Lemma discovery_excludes_witness :
  findUser locatedStore alice = Some (locatedUser [bob])
  ∧ User.location (locatedUser [bob]) = Some origin
  ∧ ∃ d,
      findCandidates (fun _ _ => 0%R) locatedStore alice 1 20 50 = Success 200 d
      ∧ ∀ id dist, (id, dist) ∈ disc_users d →
          id ≠ alice
          ∧ (id ∉ User.likes (locatedUser [bob]))
          ∧ (id ∉ User.blocked (locatedUser [bob]))
          ∧ (id ∉ User.blockedBy (locatedUser [bob]))
          ∧ ∃ u, findUser locatedStore id = Some u
                 ∧ User.isActive u = true
                 ∧ User.isBlocked u = false
                 ∧ User.profileCompleted u = true.
Proof.
  split_and!; [reflexivity..|].
  apply (discovery_excludes (fun _ _ => 0%R) locatedStore alice
           (locatedUser [bob]) origin 1 20 50); reflexivity.
Defined.

(** Bob, whom Alice has liked, is left out; Carol is found. *)
Example discovery_finds_carol :
  ∃ d, findCandidates (fun _ _ => 0%R) locatedStore alice 1 20 50 = Success 200 d
       ∧ map fst (disc_users d) = [carol].
Proof.
  eexists. split; [reflexivity|].
  cbn [disc_users]. unfold locatedUsers. simpl.
  rewrite !filter_cons, filter_nil. unfold discoveryQuery, Rleb. simpl.
  destruct (Rle_dec 0 (50 * 1000)) as [_|Hn]; [|exfalso; apply Hn; lra].
  reflexivity.
Qed.

(** ** The distance function *)

(** *** Doubles *)

Section Doubles.
Local Open Scope float_scope.

Lemma SFopp_involutive x : SFopp (SFopp x) = x.
Proof. destruct x as [[]|[]| |[] ? ?]; done. Qed.

(** Rounding to the nearest double does not look at the sign. *)
Lemma binary_round_aux_negb s m e l :
  binary_round_aux prec emax (negb s) m e l
  = SFopp (binary_round_aux prec emax s m e l).
Proof.
  unfold binary_round_aux.
  destruct (shr_fexp prec emax m e l) as [mrs' e'].
  destruct (shr_fexp prec emax _ e' loc_Exact) as [mrs'' e''].
  destruct (shr_m mrs''); try done.
  by destruct (e'' <=? emax - prec)%Z.
Qed.

Lemma SFmul_opp_l x y :
  SFmul prec emax (SFopp x) y = SFopp (SFmul prec emax x y).
Proof.
  destruct x as [sx|sx| |sx mx ex], y as [sy|sy| |sy my ey]; simpl;
    rewrite <- ?negb_xorb_l; try done.
  apply binary_round_aux_negb.
Qed.

Lemma SFmul_comm x y : SFmul prec emax x y = SFmul prec emax y x.
Proof.
  destruct x as [sx|sx| |sx mx ex], y as [sy|sy| |sy my ey]; simpl;
    rewrite ?(xorb_comm sx sy); try done.
  by rewrite Pos.mul_comm, Z.add_comm.
Qed.

Lemma SFdiv_opp_l x y :
  SFdiv prec emax (SFopp x) y = SFopp (SFdiv prec emax x y).
Proof.
  destruct x as [sx|sx| |sx mx ex], y as [sy|sy| |sy my ey]; simpl;
    rewrite <- ?negb_xorb_l; try done.
  destruct (SFdiv_core_binary prec emax (Z.pos mx) ex (Z.pos my) ey)
    as [[mz ez] lz].
  apply binary_round_aux_negb.
Qed.

Lemma binary_normalize_opp m e :
  m ≠ 0%Z →
  binary_normalize prec emax (- m) e false
  = SFopp (binary_normalize prec emax m e false).
Proof.
  intros Hm. destruct m as [|p|p]; [done| |]; simpl; unfold binary_round;
    destruct (shl_align p e _) as [mz ez];
    [apply (binary_round_aux_negb false)|].
  by rewrite (binary_round_aux_negb false), SFopp_involutive.
Qed.

(** A difference taken the other way round is the opposite double, or the
    two differences are the same double: zero, or NaN. *)
Lemma SFsub_swap x y :
  SFsub prec emax y x = SFopp (SFsub prec emax x y)
  ∨ SFsub prec emax y x = SFsub prec emax x y.
Proof.
  destruct x as [sx|sx| |sx mx ex], y as [sy|sy| |sy my ey]; simpl;
    try (by left); try (by right);
    try (by destruct sx, sy; (by left) || (by right)).
  rewrite (Z.min_comm ey ex).
  set (ez := (ex `min` ey)%Z).
  set (a := cond_Zopp sx (Z.pos (shl_align mx ex ez).1)).
  set (b := cond_Zopp sy (Z.pos (shl_align my ey ez).1)).
  destruct (decide (a - b = 0)%Z) as [E|E].
  - right. replace (b - a)%Z with 0%Z by lia. by rewrite E.
  - left. replace (b - a)%Z with (- (a - b))%Z by lia.
    by apply binary_normalize_opp.
Qed.

Lemma float_opp_opp x : - - x = x.
Proof. apply Prim2SF_inj. by rewrite !opp_spec, SFopp_involutive. Qed.

Lemma float_mul_comm x y : x * y = y * x.
Proof. apply Prim2SF_inj. rewrite !mul_spec. apply SFmul_comm. Qed.

Lemma float_mul_opp_l x y : (- x) * y = - (x * y).
Proof.
  apply Prim2SF_inj. rewrite opp_spec, !mul_spec, opp_spec. apply SFmul_opp_l.
Qed.

Lemma float_mul_opp_r x y : x * (- y) = - (x * y).
Proof. by rewrite (float_mul_comm x), float_mul_opp_l, (float_mul_comm y). Qed.

Lemma float_mul_opp_opp x y : (- x) * (- y) = x * y.
Proof. by rewrite float_mul_opp_l, float_mul_opp_r, float_opp_opp. Qed.

Lemma float_div_opp_l x y : (- x) / y = - (x / y).
Proof.
  apply Prim2SF_inj. rewrite opp_spec, !div_spec, opp_spec. apply SFdiv_opp_l.
Qed.

Lemma float_sub_swap x y : y - x = - (x - y) ∨ y - x = x - y.
Proof.
  destruct (SFsub_swap (Prim2SF x) (Prim2SF y)) as [E|E]; [left|right];
    apply Prim2SF_inj; rewrite ?opp_spec, !sub_spec; exact E.
Qed.

(** [Math.round] on halves, below a half and on a large double. *)
Example Math_round_values :
  Math_round 2.5 = 3 ∧ Math_round (-2.5) = -2
  ∧ Math_round 0x1.fffffffffffffp-2 = 0 ∧ Math_round (-0.5) = -0
  ∧ Math_round 0x1.15fcc0c80cbf4p+14 = 17791
  ∧ Math_round 0x1p+60 = 0x1p+60 ∧ Math_round nan = nan.
Proof. by vm_compute. Qed.
End Doubles.

Section DistanceLemmas.
Context {runtime : JSMath}.
Local Open Scope float_scope.

Lemma halfAngle_swap x y :
  halfAngle y x = - halfAngle x y ∨ halfAngle y x = halfAngle x y.
Proof.
  unfold halfAngle.
  destruct (float_sub_swap y x) as [-> | ->]; [left|by right].
  by rewrite float_mul_opp_l, !float_div_opp_l.
Qed.

Lemma sin_sqr_swap x y :
  Math_sin (- halfAngle x y) = - Math_sin (halfAngle x y) →
  ∀ c, c * Math_sin (halfAngle y x) * Math_sin (halfAngle y x)
       = c * Math_sin (halfAngle x y) * Math_sin (halfAngle x y).
Proof.
  intros Hodd c. destruct (halfAngle_swap x y) as [-> | ->]; [|done].
  by rewrite Hodd, (float_mul_opp_r c), float_mul_opp_opp.
Qed.

(** X29. On a runtime whose sine is odd at the two half differences, the
    distance from B to A is the same double as the distance from A to B,
    NaN when that is NaN. *)
Theorem calculateDistance_same_both_ways lat1 lon1 lat2 lon2 :
  Math_sin (- ((lat2 - lat1) * Math_PI / 180 / 2))
  = - Math_sin ((lat2 - lat1) * Math_PI / 180 / 2) →
  Math_sin (- ((lon2 - lon1) * Math_PI / 180 / 2))
  = - Math_sin ((lon2 - lon1) * Math_PI / 180 / 2) →
  calculateDistance lat2 lon2 lat1 lon1 = calculateDistance lat1 lon1 lat2 lon2
  ∧ roundedDistance {| longitude := lon2; latitude := lat2 |}
                    {| longitude := lon1; latitude := lat1 |}
    = roundedDistance {| longitude := lon1; latitude := lat1 |}
                      {| longitude := lon2; latitude := lat2 |}.
Proof.
  intros Hlat Hlon.
  assert (calculateDistance lat2 lon2 lat1 lon1
          = calculateDistance lat1 lon1 lat2 lon2) as Hsame.
  { unfold calculateDistance.
    pose proof (sin_sqr_swap lon1 lon2 Hlon) as E2.
    destruct (halfAngle_swap lat1 lat2) as [E1|E1]; unfold halfAngle in *;
      rewrite E1, ?Hlat, ?float_mul_opp_opp,
              (float_mul_comm (Math_cos (lat2 * Math_PI / 180))), E2; done. }
  split; [done|]. unfold roundedDistance. simpl. by rewrite Hsame.
Qed.
End DistanceLemmas.

Lemma calculateDistance_same_both_ways_witness :
  Math_sin (- ((-8 - 8) * Math_PI / 180 / 2))%float
  = (- Math_sin ((-8 - 8) * Math_PI / 180 / 2))%float
  ∧ Math_sin (- ((0 - 0) * Math_PI / 180 / 2))%float
    = (- Math_sin ((0 - 0) * Math_PI / 180 / 2))%float
  ∧ calculateDistance (-8) 0 8 0 = calculateDistance 8 0 (-8) 0
  ∧ roundedDistance {| longitude := 0; latitude := -8 |}
                    {| longitude := 0; latitude := 8 |}
    = roundedDistance {| longitude := 0; latitude := 8 |}
                      {| longitude := 0; latitude := -8 |}.
Proof.
  do 2 (split; [reflexivity|]).
  apply (calculateDistance_same_both_ways 8 0 (-8) 0); reflexivity.
Defined.

(** Sixteen degrees along a meridian are 1779.1188263129397 kilometres
    either way, listed as the double nearest to 1779.1. *)
Example distance_along_meridian :
  calculateDistance 8 0 (-8) 0 = 0x1.bcc79ad9adfecp+10%float
  ∧ calculateDistance (-8) 0 8 0 = 0x1.bcc79ad9adfecp+10%float
  ∧ roundedDistance {| longitude := 0; latitude := 8 |}
                    {| longitude := 0; latitude := -8 |}
    = 0x1.bcc6666666666p+10%float.
Proof. by vm_compute. Qed.

Section NearAntipodes.
Context {runtime : JSMath}.
Local Open Scope float_scope.

(** C9. The distance is not the same both ways, within whatever tolerance,
    for two points that lie almost opposite on the globe.  From 8 degrees
    north on the prime meridian to 8 degrees south on the date line, on a
    runtime whose sine and cosine of eight degrees and of [Math.PI / 2] are
    the correctly rounded ones, rounding takes the sum [a] to
    [1 + 2 ^ -52], [Math.sqrt(1 - a)] is NaN, and both calls answer NaN,
    which equals nothing; discovery lists the profile with NaN for a
    distance. *)
Theorem calculateDistance_nan_near_antipodes :
  Math_sin eightDegrees = 0x1.1d06c968d9e19p-3 →
  Math_sin (- eightDegrees) = -0x1.1d06c968d9e19p-3 →
  Math_cos eightDegrees = 0x1.fb046a930947ap-1 →
  Math_cos (- eightDegrees) = 0x1.fb046a930947ap-1 →
  Math_sin 0x1.921fb54442d18p+0 = 1 →
  Math_sin (-0x1.921fb54442d18p+0) = -1 →
  (∀ y, Math_atan2 y nan = nan) →
  Math_sin (- eightDegrees) * Math_sin (- eightDegrees)
  + Math_cos eightDegrees * Math_cos (- eightDegrees)
    * Math_sin 0x1.921fb54442d18p+0 * Math_sin 0x1.921fb54442d18p+0
  = 0x1.0000000000001p+0
  ∧ Math_sqrt (1 - 0x1.0000000000001p+0) = nan
  ∧ calculateDistance 8 0 (-8) 180 = nan
  ∧ calculateDistance (-8) 180 8 0 = nan
  ∧ (calculateDistance 8 0 (-8) 180 =? calculateDistance (-8) 180 8 0) = false
  ∧ roundedDistance {| longitude := 0; latitude := 8 |}
                    {| longitude := 180; latitude := -8 |} = nan
  ∧ roundedDistance {| longitude := 180; latitude := -8 |}
                    {| longitude := 0; latitude := 8 |} = nan.
Proof.
  intros Hs Hs' Hc Hc' Hh Hh' Hnan.
  assert ((-8 - 8) * Math_PI / 180 / 2 = - eightDegrees) as E1 by reflexivity.
  assert ((8 - -8) * Math_PI / 180 / 2 = eightDegrees) as E2 by reflexivity.
  assert (8 * Math_PI / 180 = eightDegrees) as E3 by reflexivity.
  assert (-8 * Math_PI / 180 = - eightDegrees) as E4 by reflexivity.
  assert ((180 - 0) * Math_PI / 180 / 2 = 0x1.921fb54442d18p+0) as E5
    by reflexivity.
  assert ((0 - 180) * Math_PI / 180 / 2 = -0x1.921fb54442d18p+0) as E6
    by reflexivity.
  assert (calculateDistance 8 0 (-8) 180 = nan) as Hab.
  { unfold calculateDistance. rewrite E1, E3, E4, E5, Hs', Hc, Hc', Hh.
    replace (Math_sqrt _) with 1 at 1 by reflexivity.
    replace (Math_sqrt _) with nan by reflexivity.
    by rewrite Hnan. }
  assert (calculateDistance (-8) 180 8 0 = nan) as Hba.
  { unfold calculateDistance. rewrite E2, E3, E4, E6, Hs, Hc, Hc', Hh'.
    replace (Math_sqrt _) with 1 at 1 by reflexivity.
    replace (Math_sqrt _) with nan by reflexivity.
    by rewrite Hnan. }
  rewrite Hs', Hc, Hc', Hh. unfold roundedDistance. simpl.
  rewrite Hab, Hba. by vm_compute.
Qed.
End NearAntipodes.

Lemma calculateDistance_nan_near_antipodes_witness :
  Math_sin eightDegrees = 0x1.1d06c968d9e19p-3%float
  ∧ Math_sin (- eightDegrees) = (-0x1.1d06c968d9e19p-3)%float
  ∧ Math_cos eightDegrees = 0x1.fb046a930947ap-1%float
  ∧ Math_cos (- eightDegrees) = 0x1.fb046a930947ap-1%float
  ∧ Math_sin 0x1.921fb54442d18p+0 = 1%float
  ∧ Math_sin (-0x1.921fb54442d18p+0) = (-1)%float
  ∧ (∀ y, Math_atan2 y nan = nan)
  ∧ (Math_sin (- eightDegrees) * Math_sin (- eightDegrees)
     + Math_cos eightDegrees * Math_cos (- eightDegrees)
       * Math_sin 0x1.921fb54442d18p+0 * Math_sin 0x1.921fb54442d18p+0
     = 0x1.0000000000001p+0)%float
  ∧ Math_sqrt (1 - 0x1.0000000000001p+0) = nan
  ∧ calculateDistance 8 0 (-8) 180 = nan
  ∧ calculateDistance (-8) 180 8 0 = nan
  ∧ (calculateDistance 8 0 (-8) 180 =? calculateDistance (-8) 180 8 0)%float
    = false
  ∧ roundedDistance {| longitude := 0; latitude := 8 |}
                    {| longitude := 180; latitude := -8 |} = nan
  ∧ roundedDistance {| longitude := 180; latitude := -8 |}
                    {| longitude := 0; latitude := 8 |} = nan.
Proof.
  assert (∀ y, Math_atan2 y nan = nan) as Hnan.
  { intros y. simpl. by rewrite !andb_false_r. }
  do 6 (split; [reflexivity|]). split; [exact Hnan|].
  apply calculateDistance_nan_near_antipodes; (reflexivity || exact Hnan).
Defined.

(** ** Blocking *)

Lemma blockedBy_findIn_updateIn f id id' (docs : list User.t) :
  (∀ u, User.blockedBy (f u) = User.blockedBy u) →
  User.blockedBy <$> findIn CUsers (updateIn CUsers f id docs) id'
  = User.blockedBy <$> findIn CUsers docs id'.
Proof.
  intros Hf. rewrite findIn_updateIn. case_decide; [|done].
  destruct (findIn CUsers docs id'); simpl; [|done]. by rewrite Hf.
Qed.

(** No handler writes [blockedBy]. *)
Lemma serve_blockedBy now s r id :
  blockedByOf (serve now s r) id = blockedByOf s id.
Proof.
  unfold blockedByOf, findUser.
  destruct r; unfold_handlers; repeat case_match; simplify_eq/=;
    rewrite ?blockedBy_findIn_updateIn by done; done.
Qed.

Lemma serveAll_blockedBy s rs id :
  blockedByOf (serveAll s rs) id = blockedByOf s id.
Proof.
  revert s. induction rs as [|[now r] rs IH]; intros s; [done|].
  simpl. by rewrite IH, serve_blockedBy.
Qed.

Lemma block_succeeds s a r b ua ub :
  a ≠ b → castId r = Some b →
  findUser s a = Some ua → findUser s b = Some ub →
  User.savable ua = true →
  block s a r
  = (updateUser
       (fun u =>
          User.set_matches (withoutRaw r (User.matches ua))
            (User.set_likes (withoutRaw r (User.likes ua))
               (User.set_blocked
                  (if negb (includesRaw (User.blocked ua) r)
                   then User.blocked ua ++ [b] else User.blocked ua) u)))
       a s,
     Success 200 ()).
Proof.
  intros Hab Hr Ha Hb Hsa. unfold block.
  destruct (sameString r a) eqn:Hself.
  { apply (sameString_cast r b a Hr) in Hself. congruence. }
  by rewrite Hr, Hb, Ha, Hsa.
Qed.

Lemma block_blocked s a r b ua ub :
  a ≠ b → castId r = Some b →
  findUser s a = Some ua → findUser s b = Some ub →
  User.savable ua = true →
  findUser (block s a r).1 a = Some (blockedDoc r b ua)
  ∧ b ∈ User.blocked (blockedDoc r b ua)
  ∧ User.savable (blockedDoc r b ua) = true.
Proof.
  intros Hab Hr Ha Hb Hsa. rewrite (block_succeeds s a r b ua ub) by done.
  simpl. rewrite findUser_updateUser, decide_True, Ha by done.
  split_and!; [done| |done]. simpl.
  destruct (includesRaw (User.blocked ua) r) eqn:E; simpl.
  - apply includesRaw_true in E as (id & -> & Hin). by injection Hr as <-.
  - apply elem_of_app. right. by apply list_elem_of_singleton.
Qed.

(** C4, amended. A block by [A], whose document has coordinates, of another
    user [B], however the request spells the id of [B], puts [B] in [A]'s
    [blocked], and a later unblock that spells the id as [toString] does
    takes it out again; but no request, block and unblock included, ever
    changes a [blockedBy] array: the inverse relation is not maintained. *)
Theorem block_maintains_blocked_only s a r b ua ub rs :
  a ≠ b → castId r = Some b →
  findUser s a = Some ua → findUser s b = Some ub →
  User.savable ua = true →
  (∃ ua1, findUser (block s a r).1 a = Some ua1 ∧ b ∈ User.blocked ua1)
  ∧ (∃ ua2, findUser (unblock (block s a r).1 a (canon b)).1 a = Some ua2
            ∧ b ∉ User.blocked ua2)
  ∧ (∀ id, blockedByOf (serveAll (block s a r).1 rs) id = blockedByOf s id)
  ∧ (∀ id, blockedByOf (serveAll s rs) id = blockedByOf s id).
Proof.
  intros Hab Hr Ha Hb Hsa.
  destruct (block_blocked s a r b ua ub) as (Ha1 & Hin & Hsa1); try done.
  split_and!.
  - eauto.
  - unfold unblock. rewrite Ha1, Hsa1. simpl.
    rewrite findUser_updateUser, decide_True, Ha1 by done. simpl.
    eexists. split; [done|]. simpl. apply not_elem_of_withoutRaw_canon.
  - intros id. rewrite serveAll_blockedBy.
    rewrite (block_succeeds s a r b ua ub) by done.
    unfold blockedByOf, findUser, updateUser. simpl.
    by rewrite blockedBy_findIn_updateIn.
  - intros id. apply serveAll_blockedBy.
Qed.

Lemma block_maintains_blocked_only_witness :
  alice ≠ bob
  ∧ castId (Spelled bob false) = Some bob
  ∧ findUser matchedStore alice
    = Some (User.set_matches [bob] (User.set_likes [bob] newUser))
  ∧ findUser matchedStore bob
    = Some (User.set_matches [alice] (User.set_likes [alice] newUser))
  ∧ User.savable (User.set_matches [bob] (User.set_likes [bob] newUser)) = true
  ∧ (∃ ua1, findUser (block matchedStore alice (Spelled bob false)).1 alice
            = Some ua1
            ∧ bob ∈ User.blocked ua1)
  ∧ (∃ ua2, findUser (unblock (block matchedStore alice (Spelled bob false)).1
                        alice (canon bob)).1 alice
            = Some ua2
            ∧ bob ∉ User.blocked ua2)
  ∧ (∀ id, blockedByOf
             (serveAll (block matchedStore alice (Spelled bob false)).1
                [(8, ReqUnblock alice (canon bob)); (9, ReqBlock bob (canon alice))])
             id
           = blockedByOf matchedStore id)
  ∧ (∀ id, blockedByOf
             (serveAll matchedStore
                [(8, ReqUnblock alice (canon bob)); (9, ReqBlock bob (canon alice))])
             id
           = blockedByOf matchedStore id).
Proof.
  assert (alice ≠ bob) as Hne by done.
  do 5 (split; [done|]).
  exact (block_maintains_blocked_only matchedStore alice (Spelled bob false) bob
           _ _ [(8, ReqUnblock alice (canon bob)); (9, ReqBlock bob (canon alice))]
           Hne eq_refl eq_refl eq_refl eq_refl).
Defined.

(** C4, as stated, fails: after Alice blocks Bob, Bob is in Alice's
    [blocked] and Alice is not in Bob's [blockedBy]. *)
Lemma block_breaks_inverse_pairs :
  initial threeUsers
  ∧ Forall (fun r => isBlockRequest r.2 = true) [(1, ReqBlock alice (canon bob))]
  ∧ blockedOf (serveAll threeUsers [(1, ReqBlock alice (canon bob))]) alice
    = Some [bob]
  ∧ blockedByOf (serveAll threeUsers [(1, ReqBlock alice (canon bob))]) bob
    = Some []
  ∧ ¬ inversePairs (serveAll threeUsers [(1, ReqBlock alice (canon bob))]).
Proof.
  split_and!; [exact initial_threeUsers|by repeat constructor|done..|].
  intros Hinv.
  specialize (Hinv alice bob _ _ eq_refl eq_refl). simpl in Hinv.
  assert (bob ∈ [bob]) as Hin by (by apply list_elem_of_singleton).
  apply Hinv in Hin. by apply elem_of_nil in Hin.
Qed.

(** An unblock that spells the id in upper case takes nothing out. *)
Example unblock_in_upper_case :
  blockedOf (serveAll threeUsers
               [(1, ReqBlock alice (canon bob));
                (2, ReqUnblock alice (Spelled bob false))]) alice
  = Some [bob].
Proof. done. Qed.

(** The answer of the send and list handlers depends on the match and chat
    collections only. *)
Lemma send_response_ext now s s' mid u msg ty :
  matchDocs s' = matchDocs s → chatDocs s' = chatDocs s →
  (send now s' mid u msg ty).2 = (send now s mid u msg ty).2.
Proof.
  intros Hm Hc. unfold send, chatGuard, createChat, findMatch, updateMatch.
  simpl. rewrite Hm, Hc.
  destruct (findIn CMatches (matchDocs s) mid) as [m|]; [|done].
  destruct (negb (Match.isActive m)); [done|].
  destruct (negb (Match.hasUser m u)); [done|].
  destruct (Chat.valid _); [|done].
  by destruct (Match.getOtherUser m u).
Qed.

Lemma listMessages_response_ext now s s' mid u page limit :
  matchDocs s' = matchDocs s → chatDocs s' = chatDocs s →
  (listMessages now s' mid u page limit).2 = (listMessages now s mid u page limit).2.
Proof.
  intros Hm Hc. unfold listMessages, chatGuard, findMatch.
  rewrite Hm, Hc. by repeat case_match.
Qed.

Lemma without_without x l : without x (without x l) = without x l.
Proof.
  unfold without. induction l as [|y l IH]; [done|].
  rewrite filter_cons. case_decide; [|done].
  rewrite filter_cons, decide_True by done. by rewrite IH.
Qed.

Lemma NoDup_without x l : NoDup l → NoDup (without x l).
Proof. apply NoDup_filter. Qed.

Lemma withoutRaw_withoutRaw r l : withoutRaw r (withoutRaw r l) = withoutRaw r l.
Proof.
  unfold withoutRaw. induction l as [|y l IH]; [done|].
  rewrite filter_cons. case_decide; [|done].
  rewrite filter_cons, decide_True by done. by rewrite IH.
Qed.

(** X30. What a block of another user does when the caller's document has
    coordinates, for every spelling of the target: it is answered 200 and
    rewrites the caller's document only; every other profile, every
    match document (its [isActive] flag included) and every message stay
    as they were, so the chat handlers answer as before.  Spelled as
    [toString] spells it, the target is in [blocked] afterwards without a
    second entry and is gone from [likes] and [matches], and blocking again
    changes nothing.  Spelled otherwise, the target is appended to
    [blocked] whether it is there or not, and stays in [likes] and
    [matches]. *)
Theorem block_effect s a r b ua ub :
  a ≠ b → castId r = Some b →
  findUser s a = Some ua → findUser s b = Some ub →
  User.savable ua = true →
  ∃ s',
    block s a r = (s', Success 200 ())
    ∧ findUser s' a = Some (blockedDoc r b ua)
    ∧ b ∈ User.blocked (blockedDoc r b ua)
    ∧ (∀ id, id ≠ a → findUser s' id = findUser s id)
    ∧ findUser s' b = Some ub
    ∧ matchDocs s' = matchDocs s
    ∧ chatDocs s' = chatDocs s
    ∧ (∀ now mid u msg ty,
         (send now s' mid u msg ty).2 = (send now s mid u msg ty).2)
    ∧ (∀ now mid u page limit,
         (listMessages now s' mid u page limit).2
         = (listMessages now s mid u page limit).2)
    ∧ (canonical r = true →
       (NoDup (User.blocked ua) → NoDup (User.blocked (blockedDoc r b ua)))
       ∧ (b ∉ User.likes (blockedDoc r b ua))
       ∧ (b ∉ User.matches (blockedDoc r b ua))
       ∧ (block s' a r).1 = s')
    ∧ (canonical r = false →
       User.blocked (blockedDoc r b ua) = User.blocked ua ++ [b]
       ∧ User.likes (blockedDoc r b ua) = User.likes ua
       ∧ User.matches (blockedDoc r b ua) = User.matches ua).
Proof.
  intros Hab Hr Ha Hb Hsa.
  destruct (block_blocked s a r b ua ub) as (Ha' & Hin & Hsa'); try done.
  rewrite (block_succeeds s a r b ua ub) in * by done.
  eexists. split; [done|]. simpl in Ha'.
  set (s' := updateUser _ a s) in *.
  assert (∀ id, id ≠ a → findUser s' id = findUser s id) as Hother.
  { intros id Hid. unfold s'. by rewrite findUser_updateUser, decide_False. }
  assert (findUser s' b = Some ub) as Hb' by (by rewrite Hother by congruence).
  split_and!; try done.
  - intros. by apply send_response_ext.
  - intros. by apply listMessages_response_ext.
  - intros Hcan. assert (r = canon b) as ->.
    { destruct r as [|? []]; try done. by injection Hr as ->. }
    split_and!.
    + simpl. rewrite includesRaw_canon. intros Hnd.
      destruct (includes (User.blocked ua) b) eqn:E; simpl; [done|].
      apply includes_false in E. apply NoDup_app.
      split_and!; [done| |apply NoDup_singleton].
      intros x Hx ->%list_elem_of_singleton. done.
    + simpl. apply not_elem_of_withoutRaw_canon.
    + simpl. apply not_elem_of_withoutRaw_canon.
    + rewrite (block_succeeds s' a (canon b) b (blockedDoc (canon b) b ua) ub)
        by done.
      assert (includesRaw (User.blocked (blockedDoc (canon b) b ua)) (canon b)
              = true) as ->.
      { rewrite includesRaw_canon. by apply includes_true. }
      simpl. rewrite !withoutRaw_withoutRaw.
      unfold s', updateUser. simpl. f_equal.
      apply list_eq. intros i. rewrite !updateIn_lookup.
      case_decide; [|done]. by destruct (userDocs s !! i).
  - intros Hcan. simpl.
    by rewrite includesRaw_not_canonical, !withoutRaw_not_canonical.
Qed.

Lemma block_effect_witness :
  alice ≠ bob
  ∧ castId (canon bob) = Some bob
  ∧ findUser chattedStore alice
    = Some (User.set_matches [bob] (User.set_likes [bob] newUser))
  ∧ findUser chattedStore bob
    = Some (User.set_matches [alice] (User.set_likes [alice] newUser))
  ∧ User.savable (User.set_matches [bob] (User.set_likes [bob] newUser)) = true
  ∧ ∃ s',
      block chattedStore alice (canon bob) = (s', Success 200 ())
      ∧ findUser s' alice
        = Some (blockedDoc (canon bob) bob
                  (User.set_matches [bob] (User.set_likes [bob] newUser)))
      ∧ bob ∈ User.blocked
                (blockedDoc (canon bob) bob
                   (User.set_matches [bob] (User.set_likes [bob] newUser)))
      ∧ (∀ id, id ≠ alice → findUser s' id = findUser chattedStore id)
      ∧ findUser s' bob
        = Some (User.set_matches [alice] (User.set_likes [alice] newUser))
      ∧ matchDocs s' = matchDocs chattedStore
      ∧ chatDocs s' = chatDocs chattedStore
      ∧ (∀ now mid u msg ty,
           (send now s' mid u msg ty).2 = (send now chattedStore mid u msg ty).2)
      ∧ (∀ now mid u page limit,
           (listMessages now s' mid u page limit).2
           = (listMessages now chattedStore mid u page limit).2)
      ∧ (canonical (canon bob) = true →
         (NoDup (User.blocked
                   (User.set_matches [bob] (User.set_likes [bob] newUser))) →
          NoDup (User.blocked
                   (blockedDoc (canon bob) bob
                      (User.set_matches [bob] (User.set_likes [bob] newUser)))))
         ∧ (bob ∉ User.likes
                    (blockedDoc (canon bob) bob
                       (User.set_matches [bob] (User.set_likes [bob] newUser))))
         ∧ (bob ∉ User.matches
                    (blockedDoc (canon bob) bob
                       (User.set_matches [bob] (User.set_likes [bob] newUser))))
         ∧ (block s' alice (canon bob)).1 = s')
      ∧ (canonical (canon bob) = false →
         User.blocked
           (blockedDoc (canon bob) bob
              (User.set_matches [bob] (User.set_likes [bob] newUser)))
         = User.blocked (User.set_matches [bob] (User.set_likes [bob] newUser))
           ++ [bob]
         ∧ User.likes
             (blockedDoc (canon bob) bob
                (User.set_matches [bob] (User.set_likes [bob] newUser)))
           = User.likes (User.set_matches [bob] (User.set_likes [bob] newUser))
         ∧ User.matches
             (blockedDoc (canon bob) bob
                (User.set_matches [bob] (User.set_likes [bob] newUser)))
           = User.matches (User.set_matches [bob] (User.set_likes [bob] newUser))).
Proof.
  assert (alice ≠ bob) as Hne by done.
  do 5 (split; [done|]).
  exact (block_effect chattedStore alice (canon bob) bob
           (User.set_matches [bob] (User.set_likes [bob] newUser))
           (User.set_matches [alice] (User.set_likes [alice] newUser))
           Hne eq_refl eq_refl eq_refl eq_refl).
Defined.

(** Alice, matched with Bob who has written to her, blocks him: he leaves
    her likes and matches and enters her blocked list, and he can still
    write to her. *)
Example block_after_chat :
  findUser (block chattedStore alice (canon bob)).1 alice
  = Some (User.set_blocked [bob] newUser)
  ∧ (Match.isActive <$> findMatch (block chattedStore alice (canon bob)).1
                                  (matchOid 0)) = Some true
  ∧ (send 9 (block chattedStore alice (canon bob)).1 (matchOid 0) bob
          "still there?" text).2
    = Success 201
        (chatOid 1, Chat.mk (matchOid 0) bob "still there?" text
                            false None false None 9).
Proof. done. Qed.

(** C10. The block handler compares the route parameter, as a string, with
    the [toString] of the stored ids.  Alice likes Bob and is matched with
    him.  When her block spells Bob's id as [toString] does, Bob is put in
    her [blocked], once, and taken out of her [likes] and [matches], Bob's
    document and the match document stay as they were and the match stays
    active.  When it spells the id in upper case, Bob is put in [blocked]
    but stays in her [likes] and [matches], and the same block again gives
    [blocked] a second entry for him. *)
Theorem block_in_upper_case_keeps_links :
  findUser matchedStore alice
  = Some (User.set_matches [bob] (User.set_likes [bob] newUser))
  ∧ block matchedStore alice (canon bob)
    = (mkStore [User.set_blocked [bob] newUser;
                User.set_matches [alice] (User.set_likes [alice] newUser);
                newUser]
         [Match.mk [alice; bob] true 5 ∅] [],
       Success 200 ())
  ∧ (block (block matchedStore alice (canon bob)).1 alice (canon bob)).1
    = (block matchedStore alice (canon bob)).1
  ∧ block matchedStore alice (Spelled bob false)
    = (mkStore [User.set_blocked [bob]
                  (User.set_matches [bob] (User.set_likes [bob] newUser));
                User.set_matches [alice] (User.set_likes [alice] newUser);
                newUser]
         [Match.mk [alice; bob] true 5 ∅] [],
       Success 200 ())
  ∧ (block (block matchedStore alice (Spelled bob false)).1
           alice (Spelled bob false)).1
    = mkStore [User.set_blocked [bob; bob]
                 (User.set_matches [bob] (User.set_likes [bob] newUser));
               User.set_matches [alice] (User.set_likes [alice] newUser);
               newUser]
        [Match.mk [alice; bob] true 5 ∅] [].
Proof. done. Qed.

(** ** Unread counters *)

Lemma participants_hasUser m u o : participants m u o → Match.hasUser m u = true.
Proof.
  intros [_ [E|E]]; apply hasUser_true; rewrite E.
  - apply elem_of_cons. by left.
  - apply elem_of_cons. right. by apply list_elem_of_singleton.
Qed.

Lemma participants_getOtherUser m u o :
  participants m u o → Match.getOtherUser m u = Some o.
Proof.
  intros [Hne [E|E]].
  - rewrite (getOtherUser_pair m u o u E Hne). by rewrite decide_True.
  - rewrite (getOtherUser_pair m o u u E) by done. by rewrite decide_False.
Qed.

Lemma participants_sym m u o : participants m u o → participants m o u.
Proof. intros [Hne H]. split; [done|tauto]. Qed.

(** In a reachable store a caller that [hasUser] accepts always has an other
    user in the match: the exception paths of [send] and [unmatch] after
    [getOtherUser] are not taken. *)
Lemma reachable_participants s mid m u :
  reachable s → findMatch s mid = Some m → Match.hasUser m u = true →
  ∃ o, participants m u o ∧ Match.getOtherUser m u = Some o.
Proof.
  intros Hreach Hm Hu. apply reachable_wellFormed in Hreach.
  apply findIn_Some in Hm as [_ Hm].
  pose proof (Forall_lookup_1 _ _ _ _ Hreach Hm) as Hwf.
  destruct (wellFormed_getOtherUser m u Hwf Hu) as (o & Ho & Hne & Hus).
  exists o. split; [|done]. split; [done|]. destruct Hus; eauto.
Qed.

Lemma markAllRead_lookup now mid u s i c :
  chatDocs s !! i = Some c →
  Chat.matchId c = mid → Chat.sender c ≠ u → Chat.isDeleted c = false →
  ∃ c', chatDocs (markAllRead now mid u s) !! i = Some c' ∧ Chat.isRead c' = true.
Proof.
  intros Hi Hm Hs Hd. unfold markAllRead. simpl.
  rewrite list_lookup_fmap, Hi. simpl. eexists. split; [done|].
  unfold unreadFromOthers.
  rewrite (bool_decide_eq_true_2 _ Hm), (bool_decide_eq_true_2 _ Hs), Hd. simpl.
  destruct (Chat.isRead c) eqn:E; simpl; done.
Qed.

(** C5. In an active match of [U] and [O]: a message sent by [U] raises the
    unread counter of [O] by one, leaves every other counter (the one of [U]
    among them) alone and sets [lastMessageAt] to the time of sending;
    listing the messages as [U] sets the counter of [U] to 0, leaves every
    other counter (the one of [O], who sent them) alone and marks as read
    every non-deleted message of the match that [U] did not send. *)
Theorem unread_bookkeeping now s mid m u o msg ty page limit :
  findMatch s mid = Some m →
  Match.isActive m = true →
  participants m u o →
  1 ≤ String.length msg ≤ 1000 →
  (∃ s1 m1 c,
      send now s mid u msg ty
      = (s1, Success 201 (chatOid (length (chatDocs s)), c))
      ∧ chatDocs s1 = chatDocs s ++ [c]
      ∧ Chat.sender c = u ∧ Chat.matchId c = mid ∧ Chat.isRead c = false
      ∧ findMatch s1 mid = Some m1
      ∧ Match.unreadOf m1 o = Match.unreadOf m o + 1
      ∧ (∀ k, k ≠ o → Match.unreadCount m1 !! k = Match.unreadCount m !! k)
      ∧ Match.lastMessageAt m1 = now)
  ∧ (∃ s2 m2 d,
        listMessages now s mid u page limit = (s2, Success 200 d)
        ∧ findMatch s2 mid = Some m2
        ∧ Match.unreadOf m2 u = 0
        ∧ (∀ k, k ≠ u → Match.unreadCount m2 !! k = Match.unreadCount m !! k)
        ∧ (∀ i c, chatDocs s !! i = Some c →
                  Chat.matchId c = mid → Chat.sender c ≠ u →
                  Chat.isDeleted c = false →
                  ∃ c', chatDocs s2 !! i = Some c' ∧ Chat.isRead c' = true)).
Proof.
  intros Hm Hact Hp Hlen.
  pose proof (participants_hasUser _ _ _ Hp) as Hhas.
  pose proof (participants_getOtherUser _ _ _ Hp) as Hother.
  split.
  - unfold send, chatGuard, createChat. rewrite Hm, Hact, Hhas. simpl.
    unfold Chat.valid. simpl. rewrite bool_decide_eq_true_2 by done.
    rewrite Hother. simpl.
    eexists _, _, _. split; [reflexivity|].
    unfold saveUnread, findMatch, updateMatch in *. simpl.
    rewrite !findIn_updateIn_eq, Hm. simpl.
    split_and!; try done.
    + unfold Match.unreadOf. simpl. by rewrite !lookup_insert_eq.
    + intros k Hk. simpl. by rewrite lookup_insert_ne.
  - unfold listMessages, chatGuard. rewrite Hm, Hact, Hhas. simpl.
    eexists _, _, _. split; [reflexivity|].
    unfold saveUnread, findMatch, updateMatch in *. simpl.
    rewrite findIn_updateIn_eq, Hm. simpl.
    split_and!; try done.
    + unfold Match.unreadOf. simpl. by rewrite !lookup_insert_eq.
    + intros k Hk. simpl. by rewrite lookup_insert_ne.
    + intros i c Hi Hc Hs Hd.
      by apply (markAllRead_lookup now mid u s i c).
Qed.

Lemma unread_bookkeeping_witness :
  findMatch chattedStore (matchOid 0) = Some chattedMatch
  ∧ Match.isActive chattedMatch = true
  ∧ participants chattedMatch alice bob
  ∧ 1 ≤ String.length "hi" ≤ 1000
  ∧ (∃ s1 m1 c,
        send 9 chattedStore (matchOid 0) alice "hi" text
        = (s1, Success 201 (chatOid (length (chatDocs chattedStore)), c))
        ∧ chatDocs s1 = chatDocs chattedStore ++ [c]
        ∧ Chat.sender c = alice ∧ Chat.matchId c = matchOid 0
        ∧ Chat.isRead c = false
        ∧ findMatch s1 (matchOid 0) = Some m1
        ∧ Match.unreadOf m1 bob = Match.unreadOf chattedMatch bob + 1
        ∧ (∀ k, k ≠ bob →
                Match.unreadCount m1 !! k = Match.unreadCount chattedMatch !! k)
        ∧ Match.lastMessageAt m1 = 9)
  ∧ (∃ s2 m2 d,
        listMessages 9 chattedStore (matchOid 0) alice 1 50 = (s2, Success 200 d)
        ∧ findMatch s2 (matchOid 0) = Some m2
        ∧ Match.unreadOf m2 alice = 0
        ∧ (∀ k, k ≠ alice →
                Match.unreadCount m2 !! k = Match.unreadCount chattedMatch !! k)
        ∧ (∀ i c, chatDocs chattedStore !! i = Some c →
                  Chat.matchId c = matchOid 0 → Chat.sender c ≠ alice →
                  Chat.isDeleted c = false →
                  ∃ c', chatDocs s2 !! i = Some c' ∧ Chat.isRead c' = true)).
Proof.
  assert (participants chattedMatch alice bob) as Hp by (split; [done|by left]).
  assert (1 ≤ String.length "hi" ≤ 1000) as Hlen by (simpl; lia).
  do 4 (split; [done|]).
  exact (unread_bookkeeping 9 chattedStore (matchOid 0) chattedMatch alice bob
           "hi" text 1 50 eq_refl eq_refl Hp Hlen).
Defined.

Example listMessages_marks_read :
  (Chat.isRead <$> chatDocs chattedStore !! 0) = Some false
  ∧ (Chat.isRead
       <$> chatDocs (listMessages 9 chattedStore (matchOid 0) alice 1 50).1 !! 0)
    = Some true
  ∧ (Match.unreadCount
       <$> findMatch (listMessages 9 chattedStore (matchOid 0) alice 1 50).1
                     (matchOid 0))
    = Some (<[alice := 0]> (<[alice := 1]> ∅)).
Proof. done. Qed.

(** ** Unmatching *)

Lemma inactiveAt_updateIn f id mid docs :
  (∀ m, Match.isActive m = false → Match.isActive (f m) = false) →
  inactiveAt mid docs → inactiveAt mid (updateIn CMatches f id docs).
Proof.
  intros Hf (m & Hm & Hact). unfold inactiveAt. rewrite findIn_updateIn, Hm.
  case_decide; simpl; eauto.
Qed.

Lemma inactiveAt_app mid docs more :
  inactiveAt mid docs → inactiveAt mid (docs ++ more).
Proof.
  intros (m & Hm & Hact). exists m. split; [|done].
  unfold findIn in *. case_bool_decide; [|done]. by apply lookup_app_l_Some.
Qed.

Lemma serve_inactive now s r mid :
  inactiveAt mid (matchDocs s) → inactiveAt mid (matchDocs (serve now s r)).
Proof.
  intros H.
  destruct r; unfold_handlers; repeat case_match; simplify_eq/=;
    repeat first [ assumption
                 | apply inactiveAt_app
                 | apply inactiveAt_updateIn; [by intros|] ].
Qed.

Lemma serveAll_inactive s rs mid :
  inactiveAt mid (matchDocs s) → inactiveAt mid (matchDocs (serveAll s rs)).
Proof.
  revert s. induction rs as [|[now r] rs IH]; intros s H; [done|].
  simpl. by apply IH, serve_inactive.
Qed.

Lemma send_inactive now s mid u msg ty :
  inactiveAt mid (matchDocs s) →
  send now s mid u msg ty = (s, Failure NotFound "Match not found").
Proof.
  intros (m & Hm & Hact). unfold send, chatGuard, findMatch.
  by rewrite Hm, Hact.
Qed.

(** C6. When a participant [U] of the match [M] with [O] unmatches: [O] is
    pulled from the matches of [U] and [U] from those of [O], the document
    of [M] is kept with [isActive = false], and from then on, whatever
    requests are served in between, a send on [M] is answered 404 (NotFound)
    and changes nothing.  A caller who is not a user of [M] is answered 403
    (Forbidden) and the store is left as it was. *)
Theorem unmatch_unlinks_and_deactivates s mid m u o :
  findMatch s mid = Some m →
  participants m u o →
  (∃ s',
      unmatch s mid u = (s', Success 200 ())
      ∧ findUser s' u
        = (fun d => User.set_matches (without o (User.matches d)) d) <$> findUser s u
      ∧ findUser s' o
        = (fun d => User.set_matches (without u (User.matches d)) d) <$> findUser s o
      ∧ (∀ d, findUser s' u = Some d → o ∉ User.matches d)
      ∧ (∀ d, findUser s' o = Some d → u ∉ User.matches d)
      ∧ findMatch s' mid = Some (Match.set_isActive false m)
      ∧ length (matchDocs s') = length (matchDocs s)
      ∧ (∀ rs now sender msg ty,
           send now (serveAll s' rs) mid sender msg ty
           = (serveAll s' rs, Failure NotFound "Match not found")))
  ∧ (∀ x, Match.hasUser m x = false →
          unmatch s mid x
          = (s, Failure Forbidden "Not authorized to unmatch this user")).
Proof.
  intros Hm Hp.
  pose proof (participants_hasUser _ _ _ Hp) as Hhas.
  pose proof (participants_getOtherUser _ _ _ Hp) as Hother.
  destruct Hp as [Hne _].
  split.
  - unfold unmatch. rewrite Hm, Hhas, Hother. simpl.
    eexists. split; [reflexivity|].
    assert (findUser
              (updateMatch (Match.set_isActive false) mid
                 (pullMatch u o (pullMatch o u s))) u
            = (fun d => User.set_matches (without o (User.matches d)) d)
                <$> findUser s u) as Hu.
    { unfold pullMatch, findUser, updateMatch, updateUser. simpl.
      rewrite !findIn_updateIn. decide_ids. }
    assert (findUser
              (updateMatch (Match.set_isActive false) mid
                 (pullMatch u o (pullMatch o u s))) o
            = (fun d => User.set_matches (without u (User.matches d)) d)
                <$> findUser s o) as Ho.
    { unfold pullMatch, findUser, updateMatch, updateUser. simpl.
      rewrite !findIn_updateIn. decide_ids. }
    assert (findMatch
              (updateMatch (Match.set_isActive false) mid
                 (pullMatch u o (pullMatch o u s))) mid
            = Some (Match.set_isActive false m)) as Hm'.
    { unfold pullMatch, findMatch, updateMatch, updateUser in *. simpl.
      by rewrite findIn_updateIn_eq, Hm. }
    split_and!; try done.
    + intros d. rewrite Hu. destruct (findUser s u); intros [= <-]. simpl.
      apply not_elem_of_without.
    + intros d. rewrite Ho. destruct (findUser s o); intros [= <-]. simpl.
      apply not_elem_of_without.
    + unfold pullMatch, updateMatch, updateUser. simpl. apply length_updateIn.
    + intros rs now sender msg ty. apply send_inactive, serveAll_inactive.
      eexists. split; [exact Hm'|done].
  - intros x Hx. unfold unmatch. by rewrite Hm, Hx.
Qed.

Lemma unmatch_unlinks_and_deactivates_witness :
  findMatch chattedStore (matchOid 0) = Some chattedMatch
  ∧ participants chattedMatch alice bob
  ∧ (∃ s',
        unmatch chattedStore (matchOid 0) alice = (s', Success 200 ())
        ∧ findUser s' alice
          = (fun d => User.set_matches (without bob (User.matches d)) d)
              <$> findUser chattedStore alice
        ∧ findUser s' bob
          = (fun d => User.set_matches (without alice (User.matches d)) d)
              <$> findUser chattedStore bob
        ∧ (∀ d, findUser s' alice = Some d → bob ∉ User.matches d)
        ∧ (∀ d, findUser s' bob = Some d → alice ∉ User.matches d)
        ∧ findMatch s' (matchOid 0) = Some (Match.set_isActive false chattedMatch)
        ∧ length (matchDocs s') = length (matchDocs chattedStore)
        ∧ (∀ rs now sender msg ty,
             send now (serveAll s' rs) (matchOid 0) sender msg ty
             = (serveAll s' rs, Failure NotFound "Match not found")))
  ∧ (∀ x, Match.hasUser chattedMatch x = false →
          unmatch chattedStore (matchOid 0) x
          = (chattedStore, Failure Forbidden "Not authorized to unmatch this user")).
Proof.
  assert (participants chattedMatch alice bob) as Hp by (split; [done|by left]).
  do 2 (split; [done|]).
  exact (unmatch_unlinks_and_deactivates chattedStore (matchOid 0) chattedMatch
           alice bob eq_refl Hp).
Defined.

Example unmatch_then_send :
  Match.hasUser chattedMatch carol = false
  ∧ unmatch chattedStore (matchOid 0) carol
    = (chattedStore, Failure Forbidden "Not authorized to unmatch this user")
  ∧ (User.matches <$> findUser chattedStore alice) = Some [bob]
  ∧ (User.matches
       <$> findUser (unmatch chattedStore (matchOid 0) alice).1 alice) = Some []
  ∧ (User.matches
       <$> findUser (unmatch chattedStore (matchOid 0) alice).1 bob) = Some []
  ∧ (send 11 (unmatch chattedStore (matchOid 0) alice).1 (matchOid 0) bob "again" text).2
    = Failure NotFound "Match not found".
Proof. done. Qed.

(** ** The unread summary *)

Lemma filter_none {A} (P : A → Prop) `{∀ x, Decision (P x)} (l : list A) :
  (∀ x, x ∈ l → ¬ P x) → filter P l = [].
Proof.
  induction l as [|x l IH]; intros Hl; [done|].
  rewrite filter_cons, decide_False.
  - apply IH. intros y Hy. apply Hl. by right.
  - apply Hl. by left.
Qed.

(** The handler never gets past its first statement. *)
Lemma unreadCount_fails s userId : unreadCount s userId = serverError.
Proof. done. Qed.

(** With [User] in scope the handler would still count nothing: the ids it
    selects messages by are ids of users, and a message carries the id of a
    match. *)
Lemma unreadCountBody_empty s userId :
  (∀ c, c ∈ chatDocs s → oid_coll (Chat.matchId c) = CMatches) →
  is_Some (findUser s userId) →
  unreadCountBody s userId = Success 200 (mkUnreadData ∅ 0).
Proof.
  intros Hchats [user Huser]. unfold unreadCountBody. rewrite Huser.
  rewrite filter_none; [done|].
  intros c Hc (Hin & _). apply includes_true in Hin.
  apply list_elem_of_fmap in Hin as ([id u] & Hid & Hin). simpl in Hid. subst id.
  apply list_elem_of_omap in Hin as (id' & _ & Hfind).
  destruct (findUser s id') as [u'|] eqn:E; simplify_eq/=.
  apply findIn_Some in E as [E _].
  specialize (Hchats c Hc). rewrite E in Hchats. done.
Qed.

(** C7 at a failing input: Bob's message to Alice is unread, and the
    handler answers Alice with a server error; its body, were [User] bound,
    would answer with an empty summary. *)
Theorem unreadCount_misses_unread_message :
  findMatch chattedStore (matchOid 0) = Some chattedMatch
  ∧ (User.matches <$> findUser chattedStore alice) = Some [bob]
  ∧ unreadFromOthersIn chattedStore alice (matchOid 0) = 1
  ∧ unreadCount chattedStore alice = Failure ServerError "Server error"
  ∧ unreadCountBody chattedStore alice = Success 200 (mkUnreadData ∅ 0).
Proof. done. Qed.

(** ** Super-like *)

(** For a premium caller the handler ends in the route registration, which
    throws: the answer is a server error and nothing is stored. *)
Lemma superLike_premium now s a b ua :
  findUser s a = Some ua → User.isPremiumActive now ua = true →
  superLike now s a b = (s, serverError).
Proof. intros Ha Hp. unfold superLike. by rewrite Ha, Hp. Qed.

(** C8 at a failing input: a premium Alice, whose document has coordinates,
    likes Bob and the like is recorded; she super-likes Bob and gets a
    server error, with nothing recorded. *)
Theorem superLike_is_not_like :
  User.isPremiumActive 1 premiumUser = true
  ∧ User.savable premiumUser = true
  ∧ like 1 premiumStore alice (canon bob)
    = (mkStore [User.set_likes [bob] premiumUser; newUser] [] [],
       Success 200 (mkLikeData false None))
  ∧ superLike 1 premiumStore alice bob
    = (premiumStore, Failure ServerError "Server error").
Proof. done. Qed.

(** * Further properties of the handlers *)

(** ** Likes: refusals, dislike, liking again *)

Lemma proj_findIn_updateIn {B} (g : User.t → B) f id id' (docs : list User.t) :
  (∀ u, g (f u) = g u) →
  g <$> findIn CUsers (updateIn CUsers f id docs) id'
  = g <$> findIn CUsers docs id'.
Proof.
  intros Hf. rewrite findIn_updateIn. case_decide; [|done].
  destruct (findIn CUsers docs id'); simpl; [|done]. by rewrite Hf.
Qed.

(** No handler writes [isActive], [isBlocked] or [likedBy] of a user. *)
Lemma serve_account_flags now s r id :
  (User.isActive <$> findUser (serve now s r) id) = (User.isActive <$> findUser s id)
  ∧ (User.isBlocked <$> findUser (serve now s r) id) = (User.isBlocked <$> findUser s id)
  ∧ (User.likedBy <$> findUser (serve now s r) id) = (User.likedBy <$> findUser s id).
Proof.
  unfold findUser.
  destruct r; unfold_handlers; repeat case_match; simplify_eq/=;
    rewrite ?(proj_findIn_updateIn User.isActive),
            ?(proj_findIn_updateIn User.isBlocked),
            ?(proj_findIn_updateIn User.likedBy) by done; done.
Qed.

Lemma serveAll_account_flags s rs id :
  (User.isActive <$> findUser (serveAll s rs) id) = (User.isActive <$> findUser s id)
  ∧ (User.isBlocked <$> findUser (serveAll s rs) id) = (User.isBlocked <$> findUser s id)
  ∧ (User.likedBy <$> findUser (serveAll s rs) id) = (User.likedBy <$> findUser s id).
Proof.
  revert s. induction rs as [|[now r] rs IH]; intros s; [done|].
  simpl. destruct (IH (serve now s r)) as (-> & -> & ->).
  apply serve_account_flags.
Qed.

Lemma like_already_liked now s a b ua ub :
  a ≠ b → findUser s b = Some ub → findUser s a = Some ua →
  User.isActive ub = true → User.isBlocked ub = false →
  b ∈ User.likes ua →
  like now s a (canon b) = (s, Failure BadRequest "Already liked this user").
Proof.
  intros Hab Hb Ha Hact Hblk Hin. unfold like.
  rewrite sameString_canon, bool_decide_eq_false_2 by congruence. simpl.
  rewrite Hb, Hact, Hblk, Ha, includesRaw_canon. simpl.
  apply includes_true in Hin. by rewrite Hin.
Qed.

(** X1. The refusals of the like handler.  It answers 400 when the string of
    the request is the caller's own id as [toString] spells it, 500 when
    the string does not cast to an id, 404 when no user has the id, 400
    when that user is deactivated or blocked, 400 when the string is found
    in the caller's likes, and 500 when the caller's document has no
    coordinates; in all these cases, and whenever the answer is not a 500,
    the store is left as it was. *)
Theorem like_refusals now s a r :
  (sameString r a = true →
   like now s a r = (s, Failure BadRequest "Cannot like yourself"))
  ∧ (sameString r a = false → castId r = None →
     like now s a r = (s, Failure ServerError "Server error"))
  ∧ (∀ b, sameString r a = false → castId r = Some b → findUser s b = None →
          like now s a r = (s, Failure NotFound "User not found"))
  ∧ (∀ b ub, sameString r a = false → castId r = Some b →
             findUser s b = Some ub →
             User.isActive ub = false ∨ User.isBlocked ub = true →
             like now s a r = (s, Failure BadRequest "User is not available"))
  ∧ (∀ b ua ub, sameString r a = false → castId r = Some b →
                findUser s b = Some ub → findUser s a = Some ua →
                User.isActive ub = true → User.isBlocked ub = false →
                includesRaw (User.likes ua) r = true →
                like now s a r
                = (s, Failure BadRequest "Already liked this user"))
  ∧ (∀ b ua ub, sameString r a = false → castId r = Some b →
                findUser s b = Some ub → findUser s a = Some ua →
                User.isActive ub = true → User.isBlocked ub = false →
                includesRaw (User.likes ua) r = false →
                User.savable ua = false →
                like now s a r = (s, Failure ServerError "Server error"))
  ∧ (∀ s' status msg, like now s a r = (s', Failure status msg) →
       status ≠ ServerError → s' = s).
Proof.
  split_and!.
  - intros Hs. unfold like. by rewrite Hs.
  - intros Hs Hr. unfold like. by rewrite Hs, Hr.
  - intros b Hs Hr Hb. unfold like. by rewrite Hs, Hr, Hb.
  - intros b ub Hs Hr Hb Hflag. unfold like. rewrite Hs, Hr, Hb.
    by destruct Hflag as [-> | ->]; [|rewrite orb_true_r].
  - intros b ua ub Hs Hr Hb Ha Hact Hblk Hin. unfold like.
    by rewrite Hs, Hr, Hb, Hact, Hblk, Ha, Hin.
  - intros b ua ub Hs Hr Hb Ha Hact Hblk Hin Hsa. unfold like.
    by rewrite Hs, Hr, Hb, Hact, Hblk, Ha, Hin, Hsa.
  - intros s' status msg. unfold like, createMatch, serverError.
    repeat case_match; intros [= <- <- <-]; done.
Qed.

(** A second like of oneself in upper case is answered 500, the match
    document being refused, after the like has been stored once more. *)
Example like_oneself_twice :
  like 4 (like 3 threeUsers alice (Spelled alice false)).1 alice (Spelled alice false)
  = (mkStore [User.set_likes [alice; alice] newUser; newUser; newUser] [] [],
     Failure ServerError "Server error").
Proof. done. Qed.

Lemma like_success_inv now s a r s' status d :
  like now s a r = (s', Success status d) →
  ∃ b ua ub,
    castId r = Some b
    ∧ findUser s a = Some ua ∧ findUser s b = Some ub
    ∧ User.isActive ub = true ∧ User.isBlocked ub = false
    ∧ User.savable ua = true
    ∧ ∃ ua', findUser s' a = Some ua' ∧ b ∈ User.likes ua'
             ∧ User.savable ua' = true.
Proof.
  unfold like, createMatch. destruct (sameString r a); [done|].
  destruct (castId r) as [b|]; [|done].
  destruct (findUser s b) as [ub|] eqn:Hb; [|done].
  destruct (negb (User.isActive ub) || User.isBlocked ub) eqn:Hflag; [done|].
  destruct (findUser s a) as [ua|] eqn:Ha; [|done].
  destruct (includesRaw (User.likes ua) r) eqn:Hnew; [done|].
  destruct (User.savable ua) eqn:Hsa; [|done]. simpl.
  bool_hyps. intros Hlike.
  exists b, ua, ub. split_and!; try done.
  assert (b ∈ User.likes ua ++ [b]) as Hin.
  { apply elem_of_app. right. by apply list_elem_of_singleton. }
  destruct (includes (User.likes ub) a).
  - destruct (Match.preSave _); [|done]. simpl in Hlike.
    destruct (User.savable ub); [|done]. simpl in Hlike.
    injection Hlike as <- _ _.
    unfold findUser, updateUser in *. simpl.
    rewrite !findIn_updateIn, Ha. decide_ids; simpl; eauto.
  - injection Hlike as <- _ _.
    unfold findUser, updateUser in *. simpl.
    rewrite !findIn_updateIn, Ha. decide_ids. simpl. eauto.
Qed.

(** A like on record stays on record while no dislike or block is served. *)
Lemma serve_likes_grow now s r id l x :
  noRemoval r = true →
  likesOf s id = Some l → x ∈ l →
  ∃ l', likesOf (serve now s r) id = Some l' ∧ x ∈ l'.
Proof.
  intros Hk Hid Hx.
  assert ((∃ a b, r = ReqLike a b) ∨ ∀ a b, r ≠ ReqLike a b) as [(a & b & ->)|Hno]
    by (destruct r; eauto).
  - destruct (like_views now s a b) as [[_ Hl]|(b' & la & _ & Hla & _ & Hl & _)];
      simpl in *; rewrite Hl; [eauto|].
    case_decide as E; [|eauto]. subst id. rewrite Hla in Hid. injection Hid as <-.
    eexists. split; [done|]. apply elem_of_app. by left.
  - destruct (serve_quiet_views now s r Hk Hno) as [_ Hl]. rewrite Hl. eauto.
Qed.

Lemma serveAll_likes_grow s rs id l x :
  Forall (fun r => noRemoval r.2 = true) rs →
  likesOf s id = Some l → x ∈ l →
  ∃ l', likesOf (serveAll s rs) id = Some l' ∧ x ∈ l'.
Proof.
  revert s l. induction rs as [|[now r] rs IH]; intros s l Hrs Hid Hx; [eauto|].
  apply Forall_cons in Hrs as [Hr Hrs]. simpl.
  destruct (serve_likes_grow now s r id l x Hr Hid Hx) as (l' & Hl' & Hx').
  by apply (IH _ l').
Qed.

(** X2. Once a like of [B] by another user [A] has gone through, however it
    spelled the id, every further like by [A] that spells the id of [B] as
    [toString] does is refused with 400 "Already liked this user" and
    changes nothing, whatever requests other than dislike and block are
    served in between (an unmatch among them: two users who unmatched do
    not match again this way). *)
Theorem like_again_refused now s a r b s' status d rs now' :
  a ≠ b → castId r = Some b →
  like now s a r = (s', Success status d) →
  Forall (fun r => noRemoval r.2 = true) rs →
  like now' (serveAll s' rs) a (canon b)
  = (serveAll s' rs, Failure BadRequest "Already liked this user").
Proof.
  intros Hab Hr Hlike Hrs.
  destruct (like_success_inv _ _ _ _ _ _ _ Hlike)
    as (b' & ua & ub & Hr' & Ha & Hb & Hact & Hblk & _ & ua' & Ha' & Hin & _).
  assert (b' = b) as -> by congruence.
  destruct (serveAll_likes_grow s' rs a (User.likes ua') b Hrs) as (l' & Hl' & Hin');
    [by unfold likesOf; rewrite Ha'|done|].
  unfold likesOf in Hl'.
  destruct (findUser (serveAll s' rs) a) as [ua2|] eqn:Ha2; [|done].
  injection Hl' as <-.
  assert (∃ ub2, findUser (serveAll s' rs) b = Some ub2
                 ∧ User.isActive ub2 = true ∧ User.isBlocked ub2 = false)
    as (ub2 & Hb2 & Hact2 & Hblk2).
  { destruct (serveAll_account_flags s' rs b) as (Hf1 & Hf2 & _).
    assert (findUser s' b = findUser (serve now s (ReqLike a r)) b) as Hsb
      by (simpl; by rewrite Hlike).
    destruct (serve_account_flags now s (ReqLike a r) b) as (Hg1 & Hg2 & _).
    rewrite <- Hsb, Hb in Hg1, Hg2.
    rewrite Hg1 in Hf1. rewrite Hg2 in Hf2.
    destruct (findUser (serveAll s' rs) b) as [ub2|]; [|done].
    simpl in *. exists ub2. split_and!; congruence. }
  by apply (like_already_liked now' (serveAll s' rs) a b ua2 ub2).
Qed.

Lemma like_again_refused_witness :
  alice ≠ bob
  ∧ castId (Spelled bob false) = Some bob
  ∧ like 5 bobLikedAlice alice (Spelled bob false)
    = (matchedStore,
       Success 200
         (dataOf (mkLikeData false None)
            (like 5 bobLikedAlice alice (Spelled bob false)).2))
  ∧ Forall (fun r => noRemoval r.2 = true)
      [(6, ReqUnmatch (matchOid 0) alice); (7, ReqLike carol (canon alice))]
  ∧ like 8 (serveAll matchedStore
              [(6, ReqUnmatch (matchOid 0) alice); (7, ReqLike carol (canon alice))])
         alice (canon bob)
    = (serveAll matchedStore
         [(6, ReqUnmatch (matchOid 0) alice); (7, ReqLike carol (canon alice))],
       Failure BadRequest "Already liked this user").
Proof.
  assert (alice ≠ bob) as Hne by done.
  assert (Forall (fun r : nat * Request => noRemoval r.2 = true)
                 [(6, ReqUnmatch (matchOid 0) alice);
                  (7, ReqLike carol (canon alice))]) as Hrs
    by (repeat constructor).
  do 4 (split; [done|]).
  exact (like_again_refused 5 bobLikedAlice alice (Spelled bob false) bob
           matchedStore 200 _
           [(6, ReqUnmatch (matchOid 0) alice); (7, ReqLike carol (canon alice))]
           8 Hne eq_refl eq_refl Hrs).
Defined.

(** X3. A dislike by a user [A] whose document has coordinates, of another
    user [B], rewrites the [likes] of [A] and nothing else: the [matches]
    of [A], every other profile, the match documents and the messages stay
    as they were.  When the request spells the id of [B] as [toString]
    does, [B] is out of the likes afterwards and [A] can like [B] again;
    spelled otherwise, the dislike is answered 200 all the same and the
    likes are what they were. *)
Theorem dislike_only_removes_like now s a r b ua ub :
  a ≠ b → castId r = Some b →
  findUser s a = Some ua → findUser s b = Some ub →
  User.savable ua = true →
  ∃ s',
    dislike s a r = (s', Success 200 ())
    ∧ findUser s' a = Some (User.set_likes (withoutRaw r (User.likes ua)) ua)
    ∧ (∀ id, id ≠ a → findUser s' id = findUser s id)
    ∧ matchDocs s' = matchDocs s
    ∧ chatDocs s' = chatDocs s
    ∧ (canonical r = true →
       withoutRaw r (User.likes ua) = without b (User.likes ua)
       ∧ (User.isActive ub = true → User.isBlocked ub = false →
          User.savable ub = true →
          ∃ s'' d, like now s' a r = (s'', Success 200 d)))
    ∧ (canonical r = false → withoutRaw r (User.likes ua) = User.likes ua).
Proof.
  intros Hab Hr Ha Hb Hsa. unfold dislike.
  destruct (sameString r a) eqn:Hself.
  { apply (sameString_cast r b a Hr) in Hself. congruence. }
  rewrite Hr, Hb, Ha, Hsa. simpl.
  eexists. split; [done|].
  set (s' := updateUser _ a s).
  assert (findUser s' a = Some (User.set_likes (withoutRaw r (User.likes ua)) ua))
    as Ha'.
  { unfold s'. by rewrite findUser_updateUser, decide_True, Ha. }
  assert (∀ id, id ≠ a → findUser s' id = findUser s id) as Hother.
  { intros id Hid. unfold s'. by rewrite findUser_updateUser, decide_False. }
  split_and!; try done.
  - intros Hcan. assert (r = canon b) as ->.
    { destruct r as [|? []]; try done. by injection Hr as ->. }
    split; [apply withoutRaw_canon|].
    intros Hact Hblk Hsb.
    apply (like_succeeds now s' a (canon b) b
             (User.set_likes (withoutRaw (canon b) (User.likes ua)) ua) ub);
      try done.
    + by rewrite Hother, Hb by congruence.
    + simpl. rewrite includesRaw_canon. apply includes_false.
      apply not_elem_of_withoutRaw_canon.
  - intros Hcan. by apply withoutRaw_not_canonical.
Qed.

Lemma dislike_only_removes_like_witness :
  alice ≠ bob
  ∧ castId (canon bob) = Some bob
  ∧ findUser matchedStore alice
    = Some (User.set_matches [bob] (User.set_likes [bob] newUser))
  ∧ findUser matchedStore bob
    = Some (User.set_matches [alice] (User.set_likes [alice] newUser))
  ∧ User.savable (User.set_matches [bob] (User.set_likes [bob] newUser)) = true
  ∧ ∃ s',
      dislike matchedStore alice (canon bob) = (s', Success 200 ())
      ∧ findUser s' alice
        = Some (User.set_likes
                  (withoutRaw (canon bob)
                     (User.likes (User.set_matches [bob] (User.set_likes [bob] newUser))))
                  (User.set_matches [bob] (User.set_likes [bob] newUser)))
      ∧ (∀ id, id ≠ alice → findUser s' id = findUser matchedStore id)
      ∧ matchDocs s' = matchDocs matchedStore
      ∧ chatDocs s' = chatDocs matchedStore
      ∧ (canonical (canon bob) = true →
         withoutRaw (canon bob)
           (User.likes (User.set_matches [bob] (User.set_likes [bob] newUser)))
         = without bob
             (User.likes (User.set_matches [bob] (User.set_likes [bob] newUser)))
         ∧ (User.isActive (User.set_matches [alice] (User.set_likes [alice] newUser))
            = true →
            User.isBlocked (User.set_matches [alice] (User.set_likes [alice] newUser))
            = false →
            User.savable (User.set_matches [alice] (User.set_likes [alice] newUser))
            = true →
            ∃ s'' d, like 9 s' alice (canon bob) = (s'', Success 200 d)))
      ∧ (canonical (canon bob) = false →
         withoutRaw (canon bob)
           (User.likes (User.set_matches [bob] (User.set_likes [bob] newUser)))
         = User.likes (User.set_matches [bob] (User.set_likes [bob] newUser))).
Proof.
  assert (alice ≠ bob) as Hne by done.
  do 5 (split; [done|]).
  exact (dislike_only_removes_like 9 matchedStore alice (canon bob) bob _ _
           Hne eq_refl eq_refl eq_refl eq_refl).
Defined.

(** The same dislike with Bob's id in upper case leaves Alice's likes as
    they were. *)
Example dislike_in_upper_case :
  dislike matchedStore alice (Spelled bob false) = (matchedStore, Success 200 ()).
Proof. done. Qed.

(** ** Invariants of the social graph *)

Lemma getOtherUser_ne m u o : Match.getOtherUser m u = Some o → o ≠ u.
Proof.
  unfold Match.getOtherUser. intros H.
  apply head_Some_elem_of, list_elem_of_filter in H. tauto.
Qed.

Lemma selfFree_updateUser f id s :
  selfFree s →
  (∀ u, findUser s id = Some u →
        id ∉ User.likes u → id ∉ User.matches u → id ∉ User.blocked u →
        (id ∉ User.likes (f u)) ∧ (id ∉ User.matches (f u))
        ∧ (id ∉ User.blocked (f u))) →
  selfFree (updateUser f id s).
Proof.
  intros Hinv Hf id' u'. rewrite findUser_updateUser. case_decide as E.
  - subst id'. destruct (findUser s id) as [u|] eqn:Hu; [|done].
    intros [= <-]. destruct (Hinv id u Hu) as (? & ? & ?). by apply Hf.
  - apply Hinv.
Qed.

Lemma selfFree_userDocs s s' : userDocs s' = userDocs s → selfFree s → selfFree s'.
Proof. intros E Hinv id u. unfold findUser. rewrite E. apply Hinv. Qed.

Lemma not_elem_of_snoc (x y : ObjectId) l : x ∉ l → x ≠ y → x ∉ l ++ [y].
Proof.
  intros Hl Hne [?| ->%list_elem_of_singleton]%elem_of_app; done.
Qed.

Lemma not_elem_of_without_2 (x y : ObjectId) l : x ∉ l → x ∉ without y l.
Proof. rewrite elem_of_without. tauto. Qed.

Lemma not_elem_of_withoutRaw_2 (x : ObjectId) r l : x ∉ l → x ∉ withoutRaw r l.
Proof. rewrite elem_of_withoutRaw. tauto. Qed.

Lemma cast_not_caller r a b :
  castId r = Some b → sameString r a = false → r ≠ Spelled a false → a ≠ b.
Proof.
  destruct r as [|b' []]; simpl; try done.
  - intros [= ->] Hs%bool_decide_eq_false _. congruence.
  - intros [= ->] _ Hr ->. done.
Qed.

Lemma serve_selfFree now s r :
  namesCallerOtherwise r = false → selfFree s → selfFree (serve now s r).
Proof.
  intros Hr Hinv. destruct r; simpl.
  - (* like *)
    unfold like, createMatch.
    destruct (sameString targetUserId currentUserId) eqn:Hself; [done|].
    destruct (castId targetUserId) as [b|] eqn:Hcast; [|done].
    assert (currentUserId ≠ b) as Hab.
    { apply (cast_not_caller targetUserId); try done.
      intros ->. simpl in Hr. by rewrite bool_decide_eq_true_2 in Hr. }
    destruct (findUser s b) as [ub|] eqn:Hb; [|done].
    destruct (negb (User.isActive ub) || User.isBlocked ub); [done|].
    destruct (findUser s currentUserId) as [ua|] eqn:Ha; [|done].
    destruct (includesRaw (User.likes ua) targetUserId); [done|].
    destruct (User.savable ua); [|done]. simpl.
    destruct (Hinv _ _ Ha) as (? & ? & ?). destruct (Hinv _ _ Hb) as (? & ? & ?).
    assert (selfFree (updateUser
                        (User.set_likes (User.likes ua ++ [b]))
                        currentUserId s)) as Hliked.
    { apply selfFree_updateUser; [done|]. intros u Hu _ ? ?. simpl.
      split_and!; try done. by apply not_elem_of_snoc. }
    destruct (includes (User.likes ub) currentUserId); [|done].
    rewrite preSave_pair by done. simpl.
    assert (selfFree
              (updateUser
                 (User.set_matches (User.matches ua ++ [b])) currentUserId
                 (mkStore
                    (userDocs (updateUser (User.set_likes (User.likes ua ++ [b]))
                                 currentUserId s))
                    (matchDocs s ++ [Match.mk [currentUserId; b] true now ∅])
                    (chatDocs s)))) as Hmatched.
    { apply selfFree_updateUser.
      - eapply selfFree_userDocs; [|exact Hliked]. done.
      - intros u Hu ? _ ?. simpl. split_and!; try done.
        by apply not_elem_of_snoc. }
    destruct (User.savable ub); simpl; [|exact Hmatched].
    apply selfFree_updateUser; [exact Hmatched|].
    intros u Hu ? _ ?. simpl. split_and!; try done.
    apply not_elem_of_snoc; [done|congruence].
  - (* dislike *)
    unfold dislike. destruct (sameString _ _); [done|].
    destruct (castId targetUserId) as [b|]; [|done].
    destruct (findUser s b); [|done].
    destruct (findUser s currentUserId) as [ua|] eqn:Ha; [|done].
    destruct (User.savable ua); [|done]. simpl.
    destruct (Hinv _ _ Ha) as (? & ? & ?).
    apply selfFree_updateUser; [done|]. intros u Hu _ ? ?. simpl.
    split_and!; try done. by apply not_elem_of_withoutRaw_2.
  - (* super-like *)
    unfold superLike. by repeat case_match.
  - (* block *)
    unfold block.
    destruct (sameString targetUserId currentUserId) eqn:Hself; [done|].
    destruct (castId targetUserId) as [b|] eqn:Hcast; [|done].
    assert (currentUserId ≠ b) as Hab.
    { apply (cast_not_caller targetUserId); try done.
      intros ->. simpl in Hr. by rewrite bool_decide_eq_true_2 in Hr. }
    destruct (findUser s b); [|done].
    destruct (findUser s currentUserId) as [ua|] eqn:Ha; [|done].
    destruct (User.savable ua); [|done]. simpl.
    destruct (Hinv _ _ Ha) as (? & ? & ?).
    apply selfFree_updateUser; [done|]. intros u Hu _ _ _. simpl.
    split_and!; try by apply not_elem_of_withoutRaw_2.
    destruct (negb (includesRaw (User.blocked ua) targetUserId)); [|done].
    by apply not_elem_of_snoc.
  - (* unblock *)
    unfold unblock.
    destruct (findUser s currentUserId) as [ua|] eqn:Ha; [|done].
    destruct (User.savable ua); [|done]. simpl.
    destruct (Hinv _ _ Ha) as (? & ? & ?).
    apply selfFree_updateUser; [done|]. intros u Hu ? ? _. simpl.
    split_and!; try done. by apply not_elem_of_withoutRaw_2.
  - (* send *)
    eapply selfFree_userDocs; [|exact Hinv].
    unfold_handlers. by repeat case_match; simplify_eq/=.
  - (* listMessages *)
    eapply selfFree_userDocs; [|exact Hinv].
    unfold_handlers. by repeat case_match; simplify_eq/=.
  - (* markRead *)
    eapply selfFree_userDocs; [|exact Hinv].
    unfold_handlers. by repeat case_match; simplify_eq/=.
  - (* deleteMessage *)
    eapply selfFree_userDocs; [|exact Hinv].
    unfold_handlers. by repeat case_match; simplify_eq/=.
  - (* unmatch *)
    unfold unmatch.
    destruct (findMatch s matchId) as [m|]; [|done].
    destruct (negb (Match.hasUser m userId)); [done|].
    destruct (Match.getOtherUser m userId) as [o|]; [|done]. simpl.
    eapply (selfFree_userDocs (pullMatch userId o (pullMatch o userId s))); [done|].
    unfold pullMatch.
    apply selfFree_updateUser; [apply selfFree_updateUser; [done|]|];
      intros u Hu ? ? ?; simpl; split_and!; try done;
      by apply not_elem_of_without_2.
Qed.

(** X4. No profile gets into its own [likes], [matches] or [blocked] as long
    as no like and no block names the caller by another spelling of the
    caller's own id: whatever other requests are served on a store that
    signups left.  (Such a spelling passes the guard, which compares
    strings: see [like_oneself_in_upper_case].) *)
Theorem selfFree_without_respelled_caller s0 rs :
  initial s0 →
  Forall (fun r => namesCallerOtherwise r.2 = false) rs →
  selfFree (serveAll s0 rs).
Proof.
  intros Hinit Hrs.
  assert (selfFree s0) as H0.
  { destruct Hinit as (Hfresh & _ & _). intros id u Hu.
    apply findIn_Some in Hu as [_ Hu].
    destruct (Forall_lookup_1 _ _ _ _ Hfresh Hu) as (-> & _ & -> & -> & _).
    split_and!; apply not_elem_of_nil. }
  clear Hinit. revert s0 H0.
  induction rs as [|[now r] rs IH]; intros s0 H0; [done|].
  apply Forall_cons in Hrs as [Hr Hrs].
  simpl. by apply IH, serve_selfFree.
Qed.

Lemma selfFree_without_respelled_caller_witness :
  initial threeUsers
  ∧ Forall (fun r => namesCallerOtherwise r.2 = false)
      (relikeTrace ++ [(5, ReqBlock bob (Spelled alice false))])
  ∧ selfFree (serveAll threeUsers
                (relikeTrace ++ [(5, ReqBlock bob (Spelled alice false))])).
Proof.
  assert (Forall (fun r : nat * Request => namesCallerOtherwise r.2 = false)
            (relikeTrace ++ [(5, ReqBlock bob (Spelled alice false))])) as Hrs
    by (repeat constructor).
  do 2 (split; [done || exact initial_threeUsers|]).
  exact (selfFree_without_respelled_caller threeUsers _ initial_threeUsers Hrs).
Defined.

(** With the caller's own id in upper case a block goes through as a like
    does. *)
Example block_oneself_in_upper_case :
  blockedOf (block threeUsers alice (Spelled alice false)).1 alice = Some [alice].
Proof. done. Qed.

Lemma symmetricMatches_alt s :
  symmetricMatches s
  ↔ ∀ a b la lb,
      (User.matches <$> findUser s a) = Some la →
      (User.matches <$> findUser s b) = Some lb →
      b ∈ la ↔ a ∈ lb.
Proof.
  split.
  - intros H a b la lb Ha Hb.
    destruct (findUser s a) as [ua|] eqn:Hua; [|done].
    destruct (findUser s b) as [ub|] eqn:Hub; [|done].
    simplify_eq/=. by apply H.
  - intros H a b ua ub Ha Hb. apply H; by rewrite ?Ha, ?Hb.
Qed.

Lemma serve_matches_other now s r id :
  (∀ a b, r ≠ ReqLike a b) → (∀ a b, r ≠ ReqBlock a b) →
  (∀ m u, r ≠ ReqUnmatch m u) →
  (User.matches <$> findUser (serve now s r) id) = (User.matches <$> findUser s id).
Proof.
  intros Hl Hb Hu. unfold findUser.
  destruct r;
    try (by destruct (Hl currentUserId targetUserId));
    try (by destruct (Hb currentUserId targetUserId));
    try (by destruct (Hu matchId userId));
    unfold_handlers; repeat case_match; simplify_eq/=;
    rewrite ?(proj_findIn_updateIn User.matches) by done; done.
Qed.

Lemma like_matches now s a r :
  likersLocated s →
  (∀ x, (User.matches <$> findUser (like now s a r).1 x)
        = (User.matches <$> findUser s x))
  ∨ ∃ b, a ≠ b
    ∧ (∀ x, (User.matches <$> findUser (like now s a r).1 x)
            = (fun l => if decide (x = a) then l ++ [b]
                        else if decide (x = b) then l ++ [a] else l)
                <$> (User.matches <$> findUser s x)).
Proof.
  intros Hloc. unfold like, createMatch, Match.preSave.
  destruct (sameString r a); [by left|].
  destruct (castId r) as [b|]; [|by left].
  destruct (findUser s b) as [ub|] eqn:Hb; [|by left].
  destruct (negb (User.isActive ub) || User.isBlocked ub); [by left|].
  destruct (findUser s a) as [ua|] eqn:Ha; [|by left].
  destruct (includesRaw (User.likes ua) r); [by left|].
  destruct (User.savable ua); [|by left]. simpl.
  destruct (includes (User.likes ub) a) eqn:Hmut.
  - case_bool_decide as Hab; simpl.
    { left. intros x. unfold findUser, updateUser. simpl.
      by rewrite (proj_findIn_updateIn User.matches). }
    assert (User.savable ub = true) as ->.
    { destruct (User.savable ub) eqn:Hsb; [done|].
      rewrite (Hloc b ub Hb Hsb) in Hmut. done. }
    right. exists b. split; [done|]. intros x. simpl.
    unfold findUser, updateUser in *. simpl.
    rewrite !findIn_updateIn.
    repeat case_decide; subst; try congruence;
      rewrite ?Ha, ?Hb; simpl; try done.
    by destruct (findIn CUsers (userDocs s) x).
  - left. intros x. simpl. unfold findUser, updateUser. simpl.
    by rewrite (proj_findIn_updateIn User.matches).
Qed.

Lemma likersLocated_updateUser f id s :
  likersLocated s →
  (∀ u, findUser s id = Some u →
        User.savable (f u) = false → User.likes (f u) = []) →
  likersLocated (updateUser f id s).
Proof.
  intros Hinv Hf id' u'. rewrite findUser_updateUser. case_decide as E.
  - subst id'. destruct (findUser s id) as [u|] eqn:Hu; [|done].
    intros [= <-]. by apply Hf.
  - apply Hinv.
Qed.

Lemma likersLocated_userDocs s s' :
  userDocs s' = userDocs s → likersLocated s → likersLocated s'.
Proof. intros E Hinv id u. unfold findUser. rewrite E. apply Hinv. Qed.

(** Only a document with coordinates gets likes: the save that would store
    them is refused otherwise, and no request takes coordinates away. *)
Lemma serve_likersLocated now s r : likersLocated s → likersLocated (serve now s r).
Proof.
  intros Hinv.
  assert (∀ f id s1, likersLocated s1 →
            (∀ u, User.savable (f u) = User.savable u
                  ∧ User.likes (f u) = User.likes u) →
            likersLocated (updateUser f id s1)) as Hkeep.
  { intros f id s1 H1 Hf. apply (likersLocated_updateUser f id s1 H1).
    intros u Hu. destruct (Hf u) as [-> ->]. exact (H1 id u Hu). }
  assert (∀ l id u s1, likersLocated s1 →
            findUser s1 id = Some u → User.savable u = true →
            likersLocated (updateUser (User.set_likes l) id s1)) as Hsaved.
  { intros l id u s1 H1 Hu Hsu.
    apply (likersLocated_updateUser (User.set_likes l) id s1 H1).
    intros u' Hu'. assert (u' = u) as -> by congruence.
    unfold User.savable in *. simpl. by rewrite Hsu. }
  destruct r; simpl.
  - (* like *)
    unfold like, createMatch.
    destruct (sameString _ _); [done|].
    destruct (castId targetUserId) as [b|]; [|done].
    destruct (findUser s b) as [ub|]; [|done].
    destruct (negb (User.isActive ub) || User.isBlocked ub); [done|].
    destruct (findUser s currentUserId) as [ua|] eqn:Ha; [|done].
    destruct (includesRaw (User.likes ua) targetUserId); [done|].
    destruct (User.savable ua) eqn:Hsa; [|done]. simpl.
    assert (likersLocated
              (updateUser (User.set_likes (User.likes ua ++ [b]))
                          currentUserId s)) as Hliked
      by (by apply (Hsaved _ _ ua)).
    destruct (includes (User.likes ub) currentUserId); [|done].
    destruct (Match.preSave _); [|done]. simpl.
    assert (likersLocated
              (updateUser
                 (User.set_matches (User.matches ua ++ [b])) currentUserId
                 (mkStore
                    (userDocs (updateUser (User.set_likes (User.likes ua ++ [b]))
                                 currentUserId s))
                    (matchDocs s ++ [t])
                    (chatDocs s)))) as Hmatched.
    { apply Hkeep; [|done].
      eapply likersLocated_userDocs; [|exact Hliked]. done. }
    destruct (User.savable ub); simpl; [|exact Hmatched].
    by apply Hkeep.
  - (* dislike *)
    unfold dislike. destruct (sameString _ _); [done|].
    destruct (castId targetUserId) as [b|]; [|done].
    destruct (findUser s b); [|done].
    destruct (findUser s currentUserId) as [ua|] eqn:Ha; [|done].
    destruct (User.savable ua) eqn:Hsa; [|done]. simpl.
    by apply (Hsaved _ _ ua).
  - (* super-like *)
    unfold superLike. by repeat case_match.
  - (* block *)
    unfold block. destruct (sameString _ _); [done|].
    destruct (castId targetUserId) as [b|]; [|done].
    destruct (findUser s b); [|done].
    destruct (findUser s currentUserId) as [ua|] eqn:Ha; [|done].
    destruct (User.savable ua) eqn:Hsa; [|done]. simpl.
    apply (likersLocated_updateUser _ _ _ Hinv).
    intros u' Hu'. assert (u' = ua) as -> by congruence.
    unfold User.savable in *. simpl. by rewrite Hsa.
  - (* unblock *)
    unfold unblock.
    destruct (findUser s currentUserId) as [ua|] eqn:Ha; [|done].
    destruct (User.savable ua) eqn:Hsa; [|done]. simpl.
    by apply Hkeep.
  - (* send *)
    eapply likersLocated_userDocs; [|exact Hinv].
    unfold_handlers. by repeat case_match; simplify_eq/=.
  - (* listMessages *)
    eapply likersLocated_userDocs; [|exact Hinv].
    unfold_handlers. by repeat case_match; simplify_eq/=.
  - (* markRead *)
    eapply likersLocated_userDocs; [|exact Hinv].
    unfold_handlers. by repeat case_match; simplify_eq/=.
  - (* deleteMessage *)
    eapply likersLocated_userDocs; [|exact Hinv].
    unfold_handlers. by repeat case_match; simplify_eq/=.
  - (* unmatch *)
    unfold unmatch.
    destruct (findMatch s matchId) as [m|]; [|done].
    destruct (negb (Match.hasUser m userId)); [done|].
    destruct (Match.getOtherUser m userId) as [o|]; [|done]. simpl.
    eapply (likersLocated_userDocs (pullMatch userId o (pullMatch o userId s)));
      [done|].
    unfold pullMatch. apply Hkeep; [apply Hkeep; [done|]|]; done.
Qed.

Lemma initial_likersLocated s : initial s → likersLocated s.
Proof.
  intros (Hfresh & _ & _) id u Hu _.
  apply findIn_Some in Hu as [_ Hu].
  by destruct (Forall_lookup_1 _ _ _ _ Hfresh Hu) as (-> & _).
Qed.

Lemma serveAll_likersLocated s rs : likersLocated s → likersLocated (serveAll s rs).
Proof.
  revert s. induction rs as [|[now r] rs IH]; intros s H; [done|].
  simpl. by apply IH, serve_likersLocated.
Qed.

Lemma reachable_likersLocated s : reachable s → likersLocated s.
Proof.
  intros (s0 & rs & Hinit & ->).
  by apply serveAll_likersLocated, initial_likersLocated.
Qed.

Lemma unmatch_matches s mid u :
  (∀ x, (User.matches <$> findUser (unmatch s mid u).1 x)
        = (User.matches <$> findUser s x))
  ∨ ∃ o, o ≠ u
         ∧ (∀ x, (User.matches <$> findUser (unmatch s mid u).1 x)
                 = (fun l => if decide (x = u) then without o l
                             else if decide (x = o) then without u l else l)
                     <$> (User.matches <$> findUser s x)).
Proof.
  unfold unmatch.
  destruct (findMatch s mid) as [m|]; [|by left].
  destruct (negb (Match.hasUser m u)); [by left|].
  destruct (Match.getOtherUser m u) as [o|] eqn:Ho; [|by left].
  apply getOtherUser_ne in Ho.
  right. exists o. split; [done|]. intros x. simpl.
  unfold pullMatch, findUser, updateUser, updateMatch. simpl.
  rewrite !findIn_updateIn.
  repeat case_decide; subst; try congruence;
    by destruct (findIn CUsers (userDocs s) _).
Qed.

Lemma serve_symmetricMatches now s r :
  notBlock r = true → likersLocated s →
  symmetricMatches s → symmetricMatches (serve now s r).
Proof.
  intros Hnb Hloc. rewrite !symmetricMatches_alt. intros Hsym x y lx ly.
  assert ((∃ a b, r = ReqLike a b) ∨ (∃ m u, r = ReqUnmatch m u)
          ∨ ((∀ a b, r ≠ ReqLike a b) ∧ (∀ a b, r ≠ ReqBlock a b)
             ∧ ∀ m u, r ≠ ReqUnmatch m u))
    as [(a & b & ->)|[(m & u & ->)|(H1 & H2 & H3)]].
  { destruct r; try discriminate; eauto 10; right; right; by split_and!. }
  - simpl. destruct (like_matches now s a b Hloc) as [Hm|(b' & Hab & Hm)];
      rewrite !Hm; [apply Hsym|].
    destruct (User.matches <$> findUser s x) as [lx0|] eqn:Hx; [|done].
    destruct (User.matches <$> findUser s y) as [ly0|] eqn:Hy; [|done].
    simpl. intros [= <-] [= <-]. specialize (Hsym x y lx0 ly0 Hx Hy).
    repeat case_decide; subst; rewrite ?elem_of_app, ?list_elem_of_singleton;
      simplify_eq; intuition congruence.
  - simpl. destruct (unmatch_matches s m u) as [Hm|(o & Hou & Hm)];
      rewrite !Hm; [apply Hsym|].
    destruct (User.matches <$> findUser s x) as [lx0|] eqn:Hx; [|done].
    destruct (User.matches <$> findUser s y) as [ly0|] eqn:Hy; [|done].
    simpl. intros [= <-] [= <-]. specialize (Hsym x y lx0 ly0 Hx Hy).
    repeat case_decide; subst; rewrite ?elem_of_without;
      simplify_eq; intuition congruence.
  - rewrite !serve_matches_other by done. apply Hsym.
Qed.

(** X5. While no block is served, the [matches] arrays stay symmetric:
    in a store reached from one that signups left, [B] is in the matches of
    [A] exactly when [A] is in the matches of [B]. *)
Theorem matches_symmetric_without_block s0 rs :
  initial s0 →
  Forall (fun r => notBlock r.2 = true) rs →
  symmetricMatches (serveAll s0 rs).
Proof.
  intros Hinit Hrs.
  assert (symmetricMatches s0) as H0.
  { destruct Hinit as (Hfresh & _ & _). intros a b ua ub Ha Hb.
    apply findIn_Some in Ha as [_ Ha]. apply findIn_Some in Hb as [_ Hb].
    destruct (Forall_lookup_1 _ _ _ _ Hfresh Ha) as (_ & _ & -> & _).
    destruct (Forall_lookup_1 _ _ _ _ Hfresh Hb) as (_ & _ & -> & _).
    split; by intros ?%elem_of_nil. }
  apply initial_likersLocated in Hinit. revert s0 H0 Hinit.
  induction rs as [|[now r] rs IH]; intros s0 H0 Hloc; [done|].
  apply Forall_cons in Hrs as [Hr Hrs]. simpl.
  apply IH; [done|by apply serve_symmetricMatches|by apply serve_likersLocated].
Qed.

Lemma matches_symmetric_without_block_witness :
  initial threeUsers
  ∧ Forall (fun r => notBlock r.2 = true) relikeTrace
  ∧ symmetricMatches (serveAll threeUsers relikeTrace).
Proof.
  assert (Forall (fun r : nat * Request => notBlock r.2 = true) relikeTrace)
    as Hrs by (repeat constructor).
  split; [exact initial_threeUsers|]. split; [exact Hrs|].
  exact (matches_symmetric_without_block threeUsers relikeTrace
           initial_threeUsers Hrs).
Defined.

(** A block breaks the symmetry: the blocker drops the match, the blocked
    user keeps it. *)
Example block_breaks_symmetry :
  (User.matches <$> findUser (block matchedStore alice (canon bob)).1 alice)
  = Some []
  ∧ (User.matches <$> findUser (block matchedStore alice (canon bob)).1 bob)
    = Some [alice].
Proof. done. Qed.

(** ** Reading a thread *)

Lemma unreadOf_resetUnread m u : Match.unreadOf (Match.resetUnread u m) u = 0.
Proof. unfold Match.unreadOf. simpl. by rewrite lookup_insert_eq. Qed.

Lemma markAllRead_twice now now' mid u s :
  markAllRead now' mid u (markAllRead now mid u s) = markAllRead now mid u s.
Proof.
  unfold markAllRead. simpl. f_equal. rewrite <- list_fmap_compose.
  apply list_fmap_ext. intros i c _. simpl.
  destruct (unreadFromOthers mid u c) eqn:E; [|by rewrite E].
  unfold unreadFromOthers in *. simpl. by rewrite andb_false_r.
Qed.

Lemma updateIn_twice {A} c (f g : A → A) id (docs : list A) :
  (∀ x, g (f x) = f x) →
  updateIn c g id (updateIn c f id docs) = updateIn c f id docs.
Proof.
  intros Hgf. apply list_eq. intros i. rewrite !updateIn_lookup.
  case_decide; [|done]. destruct (docs !! i); simpl; [|done]. by rewrite Hgf.
Qed.

(** X6. Marking a thread as read and listing it leave the same store behind
    and are refused alike; marking it again, at any later time, changes
    nothing more. *)
Theorem markRead_as_listing_and_idempotent now now' s mid u page limit :
  (markRead now s mid u).1 = (listMessages now s mid u page limit).1
  ∧ (∀ status msg,
       (markRead now s mid u).2 = Failure status msg
       → ∃ msg', (listMessages now s mid u page limit).2 = Failure status msg')
  ∧ (markRead now' (markRead now s mid u).1 mid u).1 = (markRead now s mid u).1.
Proof.
  split_and!.
  - unfold markRead, listMessages, chatGuard. by repeat case_match.
  - intros status msg. unfold markRead, listMessages, chatGuard.
    repeat case_match; intros [= <- <-]; eauto.
  - destruct (findMatch s mid) as [m|] eqn:Hm.
    2: { assert (∀ t, (markRead t s mid u).1 = s) as Hr
           by (intros t; unfold markRead, chatGuard; by rewrite Hm).
         by rewrite (Hr now), (Hr now'). }
    destruct (Match.isActive m) eqn:Hact.
    2: { assert (∀ t, (markRead t s mid u).1 = s) as Hr
           by (intros t; unfold markRead, chatGuard; by rewrite Hm, Hact).
         by rewrite (Hr now), (Hr now'). }
    destruct (Match.hasUser m u) eqn:Hhas.
    2: { assert (∀ t, (markRead t s mid u).1 = s) as Hr
           by (intros t; unfold markRead, chatGuard; by rewrite Hm, Hact, Hhas).
         by rewrite (Hr now), (Hr now'). }
    assert (markRead now s mid u
            = (saveUnread (Match.resetUnread u m) u mid (markAllRead now mid u s),
               Success 200 ())) as ->.
    { unfold markRead, chatGuard. by rewrite Hm, Hact, Hhas. }
    simpl.
    assert (findMatch
              (saveUnread (Match.resetUnread u m) u mid (markAllRead now mid u s)) mid
            = Some (Match.set_unread u 0 m)) as Hm2.
    { unfold saveUnread, findMatch, updateMatch in *. simpl.
      by rewrite findIn_updateIn_eq, Hm, unreadOf_resetUnread. }
    assert (Match.isActive (Match.set_unread u 0 m) = true) as Hact2 by done.
    assert (Match.hasUser (Match.set_unread u 0 m) u = true) as Hhas2 by done.
    unfold markRead, chatGuard. rewrite Hm2, Hact2, Hhas2.
    cbn [fst negb]. unfold saveUnread. rewrite !unreadOf_resetUnread.
    unfold updateMatch, markAllRead. simpl. f_equal.
    + apply updateIn_twice. intros x. unfold Match.set_unread. simpl.
      by rewrite insert_insert_eq.
    + exact (f_equal chatDocs (markAllRead_twice now now' mid u s)).
Qed.

(** ** Sorting sorts *)

Section SortedLemmas.
Context {A : Type} (before : A → A → bool).
Hypothesis before_total : ∀ x y, before x y = true ∨ before y x = true.
Hypothesis before_trans :
  ∀ x y z, before x y = true → before y z = true → before x z = true.

Lemma insertSorted_sorted x l :
  StronglySorted (fun a b => before a b = true) l →
  StronglySorted (fun a b => before a b = true) (insertSorted before x l).
Proof using All.
  induction l as [|y l IH]; intros Hl; simpl.
  - apply StronglySorted_cons. split; [constructor|constructor].
  - apply StronglySorted_cons in Hl as [Hy Hl].
    destruct (before x y) eqn:E.
    + apply StronglySorted_cons. split.
      * constructor; [done|].
        eapply Forall_impl; [exact Hy|]. intros z Hz. by eapply before_trans.
      * by apply StronglySorted_cons.
    + apply StronglySorted_cons. split; [|by apply IH].
      apply Forall_forall. intros z Hz.
      rewrite insertSorted_Permutation in Hz.
      apply elem_of_cons in Hz as [->|Hz].
      * destruct (before_total x y) as [?|?]; [congruence|done].
      * by apply (proj1 (Forall_forall _ _) Hy).
Qed.

Lemma sortBy_sorted l : StronglySorted (fun a b => before a b = true) (sortBy before l).
Proof using All.
  induction l as [|x l IH]; simpl; [constructor|by apply insertSorted_sorted].
Qed.
End SortedLemmas.

Lemma StronglySorted_mono {A} (R R' : A → A → Prop) l :
  (∀ x y, R x y → R' x y) → StronglySorted R l → StronglySorted R' l.
Proof.
  intros HR. induction 1 as [|x l Hl IH Hx]; constructor; [done|].
  eapply Forall_impl; [exact Hx|]. intros y. apply HR.
Qed.

Lemma StronglySorted_take_drop {A} (R : A → A → Prop) l n k :
  StronglySorted R l → StronglySorted R (take n (drop k l)).
Proof.
  intros Hl.
  assert (StronglySorted R (drop k l)) as Hd.
  { rewrite <- (take_drop k l) in Hl. by apply StronglySorted_app_1_r in Hl. }
  rewrite <- (take_drop n (drop k l)) in Hd. by apply StronglySorted_app_1_l in Hd.
Qed.

Lemma StronglySorted_reverse {A} (R : A → A → Prop) l :
  StronglySorted R l → StronglySorted (flip R) (reverse l).
Proof.
  induction 1 as [|x l Hl IH Hx]; [constructor|].
  rewrite reverse_cons. apply StronglySorted_app. split_and!.
  - intros y z Hy ->%list_elem_of_singleton. rewrite elem_of_reverse in Hy.
    unfold flip. by apply (proj1 (Forall_forall _ _) Hx).
  - done.
  - apply StronglySorted_cons. split; constructor.
Qed.

(** ** Listing and deleting messages *)

Lemma elem_of_visibleMessages s mid id c :
  (id, c) ∈ visibleMessages s mid
  ↔ findChat s id = Some c ∧ Chat.matchId c = mid ∧ Chat.isDeleted c = false.
Proof.
  unfold visibleMessages. rewrite list_elem_of_filter. simpl. split.
  - intros [[Hm Hd] Hin].
    apply elem_of_lookup_imap in Hin as (i & c0 & [= -> ->] & Hi).
    split_and!; done.
  - intros (Hfind & Hm & Hd). split; [done|].
    apply findIn_Some in Hfind as [-> Hi].
    apply elem_of_lookup_imap. eauto.
Qed.

Lemma listMessages_listed now s mid u page limit :
  listedMessages (listMessages now s mid u page limit).2
  ⊆ visibleMessages s mid.
Proof.
  unfold listMessages, chatGuard.
  repeat case_match; simpl; try (by intros x ?%elem_of_nil).
  intros x Hx. rewrite elem_of_reverse in Hx.
  apply subseteq_take, subseteq_drop in Hx.
  by apply elem_of_sortBy in Hx.
Qed.

(** X7. The listing of a thread holds only non-deleted messages of that
    match, as they were stored before the call, at most [limit] of them,
    oldest first; [hasMore] says that the page is full; and when the match
    has no more than [limit] such messages, the first page holds them all. *)
Theorem listMessages_page now s mid u page limit s' status d :
  listMessages now s mid u page limit = (s', Success status d) →
  (∀ id c, (id, c) ∈ msg_messages d →
           findChat s id = Some c ∧ Chat.matchId c = mid
           ∧ Chat.isDeleted c = false)
  ∧ length (msg_messages d) ≤ limit
  ∧ StronglySorted (fun x y => Chat.createdAt x.2 ≤ Chat.createdAt y.2)
                   (msg_messages d)
  ∧ msg_hasMore d = bool_decide (length (msg_messages d) = limit)
  ∧ (page = 1 → length (visibleMessages s mid) ≤ limit →
     ∀ id c, findChat s id = Some c → Chat.matchId c = mid →
             Chat.isDeleted c = false → (id, c) ∈ msg_messages d).
Proof.
  intros Hlist.
  pose proof (listMessages_listed now s mid u page limit) as Hsub.
  rewrite Hlist in Hsub. simpl in Hsub.
  revert Hlist. unfold listMessages, chatGuard.
  repeat case_match; try done. intros [= <- <- <-]. simpl in *.
  fold (visibleMessages s mid) in *.
  split_and!.
  - intros id c Hin. by apply elem_of_visibleMessages, Hsub.
  - rewrite length_reverse, length_take. lia.
  - eapply (StronglySorted_reverse
              (fun x y : ObjectId * Chat.t => Chat.createdAt y.2 ≤ Chat.createdAt x.2)).
    apply StronglySorted_take_drop.
    eapply StronglySorted_mono;
      [|apply (sortBy_sorted
                 (fun c1 c2 : ObjectId * Chat.t =>
                    bool_decide (Chat.createdAt c2.2 ≤ Chat.createdAt c1.2)))].
    + intros x y Hxy. by apply bool_decide_eq_true in Hxy.
    + intros x y. rewrite !bool_decide_eq_true. lia.
    + intros x y z. rewrite !bool_decide_eq_true. lia.
  - by rewrite length_reverse.
  - intros -> Hfit id c Hfind Hm Hd. rewrite elem_of_reverse.
    simpl. rewrite drop_0, take_ge.
    + apply elem_of_sortBy. by apply elem_of_visibleMessages.
    + by rewrite sortBy_Permutation.
Qed.

Lemma listMessages_page_witness :
  listMessages 9 chattedStore (matchOid 0) alice 1 50
  = ((listMessages 9 chattedStore (matchOid 0) alice 1 50).1,
     Success 200
       (mkMessagesData (listedMessages (listMessages 9 chattedStore (matchOid 0) alice 1 50).2)
          1 50 false))
  ∧ (∀ id c,
       (id, c) ∈ listedMessages (listMessages 9 chattedStore (matchOid 0) alice 1 50).2 →
       findChat chattedStore id = Some c ∧ Chat.matchId c = matchOid 0
       ∧ Chat.isDeleted c = false)
  ∧ length (listedMessages (listMessages 9 chattedStore (matchOid 0) alice 1 50).2) ≤ 50
  ∧ StronglySorted (fun x y => Chat.createdAt x.2 ≤ Chat.createdAt y.2)
      (listedMessages (listMessages 9 chattedStore (matchOid 0) alice 1 50).2)
  ∧ false
    = bool_decide
        (length (listedMessages (listMessages 9 chattedStore (matchOid 0) alice 1 50).2)
         = 50)
  ∧ (1 = 1 → length (visibleMessages chattedStore (matchOid 0)) ≤ 50 →
     ∀ id c, findChat chattedStore id = Some c → Chat.matchId c = matchOid 0 →
             Chat.isDeleted c = false →
             (id, c) ∈ listedMessages
                          (listMessages 9 chattedStore (matchOid 0) alice 1 50).2).
Proof.
  split; [reflexivity|].
  exact (listMessages_page 9 chattedStore (matchOid 0) alice 1 50 _ 200
           (mkMessagesData
              (listedMessages (listMessages 9 chattedStore (matchOid 0) alice 1 50).2)
              1 50 false) eq_refl).
Defined.

Lemma findChat_updateChat f id id' s :
  findChat (updateChat f id s) id'
  = if decide (id = id') then f <$> findChat s id' else findChat s id'.
Proof. apply findIn_updateIn. Qed.

Lemma markRead_keeps_deleted now s mid u id c :
  findChat s id = Some c → Chat.isDeleted c = true →
  findChat (markRead now s mid u).1 id = Some c.
Proof.
  intros Hc Hd. unfold markRead, chatGuard.
  repeat case_match; simpl; try done.
  unfold saveUnread, updateMatch, markAllRead, findChat, findIn in *. simpl.
  case_bool_decide; [|done]. rewrite list_lookup_fmap, Hc. simpl.
  unfold unreadFromOthers. by rewrite Hd, andb_false_r.
Qed.

(** A deleted message stays deleted, and as read or unread as it was,
    whatever is served. *)
Lemma serve_keeps_deleted now s r cid c :
  findChat s cid = Some c → Chat.isDeleted c = true →
  ∃ c', findChat (serve now s r) cid = Some c'
        ∧ Chat.isDeleted c' = true ∧ Chat.isRead c' = Chat.isRead c.
Proof.
  intros Hc Hd.
  assert (∀ s1 : Store, chatDocs s1 = chatDocs s →
            ∃ c', findChat s1 cid = Some c'
                  ∧ Chat.isDeleted c' = true ∧ Chat.isRead c' = Chat.isRead c)
    as Hsame.
  { intros s1 E. exists c. unfold findChat in *. by rewrite E. }
  assert (∀ now' mid u (s1 : Store),
            chatDocs s1 = chatDocs (markAllRead now' mid u s) →
            ∃ c', findChat s1 cid = Some c'
                  ∧ Chat.isDeleted c' = true ∧ Chat.isRead c' = Chat.isRead c)
    as Hread.
  { intros now' mid u s1 E. exists c. split; [|done].
    unfold findChat, findIn, markAllRead in *. rewrite E. simpl.
    case_bool_decide; [|done]. rewrite list_lookup_fmap, Hc. simpl.
    unfold unreadFromOthers. by rewrite Hd, andb_false_r. }
  destruct r; simpl.
  - apply Hsame. unfold_handlers. by repeat case_match; simplify_eq/=.
  - apply Hsame. unfold_handlers. by repeat case_match; simplify_eq/=.
  - apply Hsame. unfold_handlers. by repeat case_match; simplify_eq/=.
  - apply Hsame. unfold_handlers. by repeat case_match; simplify_eq/=.
  - apply Hsame. unfold_handlers. by repeat case_match; simplify_eq/=.
  - (* send *)
    unfold send, chatGuard, createChat.
    repeat case_match; simplify_eq/=; try (by apply Hsame);
      exists c; (split; [|done]);
      unfold findChat, findIn, saveUnread, updateMatch in *; simpl;
      (case_bool_decide; [|done]); by apply lookup_app_l_Some.
  - (* listMessages *)
    unfold listMessages, chatGuard.
    repeat case_match; simplify_eq/=; try (by apply Hsame).
    by eapply Hread.
  - (* markRead *)
    unfold markRead, chatGuard.
    repeat case_match; simplify_eq/=; try (by apply Hsame).
    by eapply Hread.
  - (* deleteMessage *)
    unfold deleteMessage, chatGuard.
    repeat case_match; simplify_eq/=; try (by apply Hsame).
    rewrite findChat_updateChat.
    destruct (decide (messageId = cid)) as [->|E]; [|eauto].
    rewrite Hc. simpl. eauto.
  - apply Hsame. unfold_handlers. by repeat case_match; simplify_eq/=.
Qed.

Lemma serveAll_keeps_deleted s rs cid c :
  findChat s cid = Some c → Chat.isDeleted c = true →
  ∃ c', findChat (serveAll s rs) cid = Some c'
        ∧ Chat.isDeleted c' = true ∧ Chat.isRead c' = Chat.isRead c.
Proof.
  revert s c. induction rs as [|[now r] rs IH]; intros s c Hc Hd; [eauto|].
  simpl. destruct (serve_keeps_deleted now s r cid c Hc Hd) as (c1 & Hc1 & Hd1 & <-).
  by apply IH.
Qed.

(** X8. In an active match a participant can delete a message of that match
    only when the request spells the match id as [toString] does, and only
    if they sent the message: with another spelling of the match id the
    answer is 404 for everyone, and a participant who is not the sender is
    answered 403; in both cases nothing changes.  The sender's delete keeps
    the document, flagged and dated, and leaves every other message, the
    users and the match (its unread counters included) alone; whatever is
    served afterwards, the message stays deleted, is in no listing and keeps
    the read flag it had. *)
Theorem deleteMessage_soft_and_own now s r mid m u cid c :
  castId r = Some mid →
  findMatch s mid = Some m →
  Match.isActive m = true →
  Match.hasUser m u = true →
  findChat s cid = Some c →
  Chat.matchId c = mid →
  (canonical r = false →
   deleteMessage now s r cid u = (s, Failure NotFound "Message not found"))
  ∧ (canonical r = true → Chat.sender c ≠ u →
     deleteMessage now s r cid u
     = (s, Failure Forbidden "Not authorized to delete this message"))
  ∧ (canonical r = true → Chat.sender c = u →
     ∃ s',
       deleteMessage now s r cid u = (s', Success 200 ())
       ∧ findChat s' cid = Some (Chat.softDelete now c)
       ∧ length (chatDocs s') = length (chatDocs s)
       ∧ (∀ id, id ≠ cid → findChat s' id = findChat s id)
       ∧ userDocs s' = userDocs s
       ∧ matchDocs s' = matchDocs s
       ∧ ∀ rs,
           (∃ c', findChat (serveAll s' rs) cid = Some c'
                  ∧ Chat.isDeleted c' = true
                  ∧ Chat.isRead c' = Chat.isRead c)
           ∧ (∀ now' mid' v page limit,
                cid ∉ (listedMessages
                         (listMessages now' (serveAll s' rs) mid' v page limit).2).*1)).
Proof.
  intros Hr Hm Hact Hhas Hc Hcm.
  assert (canonical r = true → sameString r (Chat.matchId c) = true) as Hsame.
  { intros Hcan. destruct r as [|? []]; try done. simpl in *.
    apply bool_decide_eq_true. congruence. }
  split_and!.
  - intros Hcan. unfold deleteMessage, chatGuard.
    rewrite Hr, Hm, Hact, Hhas, Hc. simpl.
    by rewrite sameString_not_canonical.
  - intros Hcan Hs. unfold deleteMessage, chatGuard.
    rewrite Hr, Hm, Hact, Hhas, Hc, Hsame by done. simpl.
    by rewrite bool_decide_eq_true_2.
  - intros Hcan Hs. unfold deleteMessage, chatGuard.
    rewrite Hr, Hm, Hact, Hhas, Hc, Hsame by done. simpl.
    rewrite bool_decide_eq_false_2 by (by intros []).
    eexists. split; [done|].
    set (s' := updateChat _ cid s).
    assert (findChat s' cid = Some (Chat.softDelete now c)) as Hc'.
    { unfold s'. by rewrite findChat_updateChat, decide_True, Hc. }
    split_and!; try done.
    + unfold s', updateChat. simpl. apply length_updateIn.
    + intros id Hid. unfold s'. by rewrite findChat_updateChat, decide_False.
    + intros rs.
      destruct (serveAll_keeps_deleted s' rs cid _ Hc' eq_refl)
        as (c' & Hc'' & Hd & Hrd).
      split; [by exists c'|].
      intros now' mid' v page limit Hin.
      apply list_elem_of_fmap in Hin as ([id c0] & Heq & Hin).
      simpl in Heq. subst id.
      apply listMessages_listed, elem_of_visibleMessages in Hin as (Hf & _ & Hd0).
      rewrite Hc'' in Hf. injection Hf as <-. congruence.
Qed.

Lemma deleteMessage_soft_and_own_witness :
  castId (canon (matchOid 0)) = Some (matchOid 0)
  ∧ findMatch chattedStore (matchOid 0) = Some chattedMatch
  ∧ Match.isActive chattedMatch = true
  ∧ Match.hasUser chattedMatch bob = true
  ∧ findChat chattedStore (chatOid 0)
    = Some (Chat.mk (matchOid 0) bob "hello" text false None false None 7)
  ∧ Chat.matchId (Chat.mk (matchOid 0) bob "hello" text false None false None 7)
    = matchOid 0
  ∧ (canonical (canon (matchOid 0)) = false →
     deleteMessage 8 chattedStore (canon (matchOid 0)) (chatOid 0) bob
     = (chattedStore, Failure NotFound "Message not found"))
  ∧ (canonical (canon (matchOid 0)) = true →
     Chat.sender (Chat.mk (matchOid 0) bob "hello" text false None false None 7) ≠ bob →
     deleteMessage 8 chattedStore (canon (matchOid 0)) (chatOid 0) bob
     = (chattedStore, Failure Forbidden "Not authorized to delete this message"))
  ∧ (canonical (canon (matchOid 0)) = true →
     Chat.sender (Chat.mk (matchOid 0) bob "hello" text false None false None 7) = bob →
     ∃ s',
       deleteMessage 8 chattedStore (canon (matchOid 0)) (chatOid 0) bob
       = (s', Success 200 ())
       ∧ findChat s' (chatOid 0)
         = Some (Chat.softDelete 8
                   (Chat.mk (matchOid 0) bob "hello" text false None false None 7))
       ∧ length (chatDocs s') = length (chatDocs chattedStore)
       ∧ (∀ id, id ≠ chatOid 0 → findChat s' id = findChat chattedStore id)
       ∧ userDocs s' = userDocs chattedStore
       ∧ matchDocs s' = matchDocs chattedStore
       ∧ ∀ rs,
           (∃ c', findChat (serveAll s' rs) (chatOid 0) = Some c'
                  ∧ Chat.isDeleted c' = true
                  ∧ Chat.isRead c'
                    = Chat.isRead
                        (Chat.mk (matchOid 0) bob "hello" text false None false None 7))
           ∧ (∀ now' mid' v page limit,
                chatOid 0
                ∉ (listedMessages
                     (listMessages now' (serveAll s' rs) mid' v page limit).2).*1)).
Proof.
  do 6 (split; [done|]).
  exact (deleteMessage_soft_and_own 8 chattedStore (canon (matchOid 0)) (matchOid 0)
           chattedMatch bob (chatOid 0) _ eq_refl eq_refl eq_refl eq_refl eq_refl
           eq_refl).
Defined.

(** Alice cannot delete Bob's message, and neither can Bob when the request
    spells the match id in upper case; after Bob deleted it, Alice's
    listing is empty and her unread counter still says 1. *)
Example delete_then_list :
  (deleteMessage 8 chattedStore (canon (matchOid 0)) (chatOid 0) alice).2
  = Failure Forbidden "Not authorized to delete this message"
  ∧ (deleteMessage 8 chattedStore (Spelled (matchOid 0) false) (chatOid 0) bob).2
    = Failure NotFound "Message not found"
  ∧ listedMessages
      (listMessages 9
         (deleteMessage 8 chattedStore (canon (matchOid 0)) (chatOid 0) bob).1
         (matchOid 0) alice 1 50).2 = []
  ∧ (Match.unreadCount
       <$> findMatch
             (deleteMessage 8 chattedStore (canon (matchOid 0)) (chatOid 0) bob).1
             (matchOid 0)) = Some (<[alice := 1]> ∅).
Proof. done. Qed.

(** ** Sending *)

Lemma send_ok now s mid m u o msg ty :
  findMatch s mid = Some m → Match.isActive m = true → participants m u o →
  validText msg →
  send now s mid u msg ty
  = (mkStore (userDocs s)
       (updateIn CMatches (Match.set_unread o (Match.unreadOf m o + 1)) mid
          (updateIn CMatches (Match.set_lastMessageAt now) mid (matchDocs s)))
       (chatDocs s ++ [Chat.mk mid u msg ty false None false None now]),
     Success 201
       (chatOid (length (chatDocs s)),
        Chat.mk mid u msg ty false None false None now)).
Proof.
  intros Hm Hact Hp Hlen.
  unfold send, chatGuard, createChat.
  rewrite Hm, Hact, (participants_hasUser _ _ _ Hp). simpl.
  unfold Chat.valid. simpl. rewrite bool_decide_eq_true_2 by done.
  rewrite (participants_getOtherUser _ _ _ Hp).
  unfold saveUnread, updateMatch, Match.unreadOf. simpl.
  by rewrite lookup_insert_eq.
Qed.

(** X9. A send is refused with 404 when the match does not exist or is not
    active, with 403 when the caller is not one of its users, and with 500
    when the text is empty or longer than 1000 characters; in a reachable
    store a send that is refused leaves the store as it was. *)
Theorem send_refusals now s mid u msg ty :
  (findMatch s mid = None →
   send now s mid u msg ty = (s, Failure NotFound "Match not found"))
  ∧ (∀ m, findMatch s mid = Some m → Match.isActive m = false →
          send now s mid u msg ty = (s, Failure NotFound "Match not found"))
  ∧ (∀ m, findMatch s mid = Some m → Match.isActive m = true →
          Match.hasUser m u = false →
          send now s mid u msg ty
          = (s, Failure Forbidden "Not authorized to send message to this match"))
  ∧ (∀ m, findMatch s mid = Some m → Match.isActive m = true →
          Match.hasUser m u = true → ¬ validText msg →
          send now s mid u msg ty = (s, Failure ServerError "Server error"))
  ∧ (reachable s →
     ∀ s' status txt, send now s mid u msg ty = (s', Failure status txt) → s' = s).
Proof.
  split_and!.
  - intros Hm. unfold send, chatGuard. by rewrite Hm.
  - intros m Hm Hact. unfold send, chatGuard. by rewrite Hm, Hact.
  - intros m Hm Hact Hhas. unfold send, chatGuard. by rewrite Hm, Hact, Hhas.
  - intros m Hm Hact Hhas Hbad. unfold send, chatGuard, createChat.
    rewrite Hm, Hact, Hhas. simpl. unfold Chat.valid. simpl.
    by rewrite bool_decide_eq_false_2.
  - intros Hreach s' status txt. unfold send, chatGuard, createChat.
    destruct (findMatch s mid) as [m|] eqn:Hm; [|by intros [= <-]].
    destruct (negb (Match.isActive m)); [by intros [= <-]|].
    destruct (Match.hasUser m u) eqn:Hhas; [|by intros [= <-]]. simpl.
    destruct (Chat.valid _); [|by intros [= <-]].
    destruct (reachable_participants s mid m u Hreach Hm Hhas) as (o & _ & ->).
    done.
Qed.

(** X10. In an active match of [U] and [O], any number of messages sent by
    [U], each with a text of 1 to 1000 characters, raises the unread counter
    of [O] by that number, leaves the counter of [U] alone and stores that
    many messages more. *)
Theorem sends_accumulate msgs s mid m u o :
  findMatch s mid = Some m →
  Match.isActive m = true →
  participants m u o →
  Forall (fun x => validText x.1.2) msgs →
  ∃ m',
    findMatch (serveAll s (sendsOf mid u msgs)) mid = Some m'
    ∧ Match.unreadOf m' o = Match.unreadOf m o + length msgs
    ∧ Match.unreadOf m' u = Match.unreadOf m u
    ∧ Match.users m' = Match.users m
    ∧ Match.isActive m' = true
    ∧ length (chatDocs (serveAll s (sendsOf mid u msgs)))
      = length (chatDocs s) + length msgs.
Proof.
  revert s m. induction msgs as [|[[now msg] ty] msgs IH]; intros s m Hm Hact Hp Hok.
  { exists m. simpl. split_and!; try done; lia. }
  apply Forall_cons in Hok as [Hmsg Hok]. simpl in Hmsg. simpl.
  rewrite (send_ok now s mid m u o msg ty) by done. simpl.
  set (s1 := mkStore _ _ _).
  set (m1 := Match.set_unread o (Match.unreadOf m o + 1) (Match.set_lastMessageAt now m)).
  assert (findMatch s1 mid = Some m1) as Hm1.
  { unfold s1, findMatch in *. simpl. by rewrite !findIn_updateIn_eq, Hm. }
  destruct (IH s1 m1 Hm1) as (m' & Hm' & Ho & Hu & Hus & Hact' & Hlen); try done.
  exists m'. split_and!; try done.
  - rewrite Ho. unfold m1, Match.unreadOf. simpl. rewrite lookup_insert_eq. simpl. lia.
  - rewrite Hu. unfold m1, Match.unreadOf. simpl.
    rewrite lookup_insert_ne; [done|]. by destruct Hp.
  - rewrite Hlen. unfold s1. simpl. rewrite length_app. simpl. lia.
Qed.

Lemma sends_accumulate_witness :
  findMatch chattedStore (matchOid 0) = Some chattedMatch
  ∧ Match.isActive chattedMatch = true
  ∧ participants chattedMatch bob alice
  ∧ Forall (fun x : nat * string * MessageType => validText x.1.2)
           [(8, "one", text); (9, "two", emoji)]
  ∧ ∃ m',
      findMatch (serveAll chattedStore
                   (sendsOf (matchOid 0) bob [(8, "one", text); (9, "two", emoji)]))
                (matchOid 0) = Some m'
      ∧ Match.unreadOf m' alice = Match.unreadOf chattedMatch alice + 2
      ∧ Match.unreadOf m' bob = Match.unreadOf chattedMatch bob
      ∧ Match.users m' = Match.users chattedMatch
      ∧ Match.isActive m' = true
      ∧ length (chatDocs (serveAll chattedStore
                            (sendsOf (matchOid 0) bob
                                     [(8, "one", text); (9, "two", emoji)])))
        = length (chatDocs chattedStore) + 2.
Proof.
  assert (participants chattedMatch bob alice) as Hp by (split; [done|by right]).
  assert (Forall (fun x : nat * string * MessageType => validText x.1.2)
                 [(8, "one", text); (9, "two", emoji)]) as Hok
    by (repeat constructor; unfold validText; simpl; lia).
  do 4 (split; [done|]).
  exact (sends_accumulate [(8, "one", text); (9, "two", emoji)] chattedStore
           (matchOid 0) chattedMatch bob alice eq_refl eq_refl Hp Hok).
Defined.

(** ** Unread counters and unread messages *)

Lemma findIn_updateIn_Some {A} c (f : A → A) id id' (docs : list A) y :
  findIn c (updateIn c f id docs) id' = Some y →
  ∃ x, findIn c docs id' = Some x ∧ (id ≠ id' ∧ y = x ∨ id = id' ∧ y = f x).
Proof.
  rewrite findIn_updateIn. case_decide.
  - destruct (findIn c docs id') as [x|]; [|done]. intros [= <-]. eauto.
  - eauto.
Qed.

Lemma Forall_updateIn {A} (P : A → Prop) c f id (docs : list A) :
  (∀ x, P x → P (f x)) → Forall P docs → Forall P (updateIn c f id docs).
Proof.
  intros Hf Hdocs. apply Forall_lookup. intros i y.
  rewrite updateIn_lookup. case_decide.
  - destruct (docs !! i) as [x|] eqn:Hi; [|done]. intros [= <-].
    apply Hf. by eapply Forall_lookup_1.
  - intros Hi. by eapply Forall_lookup_1.
Qed.

Lemma length_filter_fmap_ext {A} (P Q : A → Prop)
    `{∀ x, Decision (P x)} `{∀ x, Decision (Q x)} (g : A → A) (l : list A) :
  (∀ x, x ∈ l → Q (g x) ↔ P x) →
  length (filter Q (g <$> l)) = length (filter P l).
Proof.
  induction l as [|x l IH]; intros Hl; [done|].
  rewrite fmap_cons, !filter_cons.
  assert (Q (g x) ↔ P x) as Hx by (apply Hl; by left).
  assert (length (filter Q (g <$> l)) = length (filter P l)) as Hrest
    by (apply IH; intros y Hy; apply Hl; by right).
  repeat case_decide; simpl; try tauto; by rewrite Hrest.
Qed.

Lemma participants_elem m u o k :
  participants m u o → k ∈ Match.users m → k = u ∨ k = o.
Proof.
  intros [_ [E|E]]; rewrite E; rewrite !elem_of_cons, elem_of_nil; tauto.
Qed.

(** A change of a match document that keeps its users and its counters. *)
Lemma countersAgreeOn_meta f id docs chats :
  (∀ m, Match.users (f m) = Match.users m) →
  (∀ m, Match.unreadCount (f m) = Match.unreadCount m) →
  countersAgreeOn docs chats →
  countersAgreeOn (updateIn CMatches f id docs) chats.
Proof.
  intros Hus Hcnt (Hwf & Hchats & Hagree). split_and!.
  - apply Forall_updateIn; [|done]. intros m (a & b & E & Hab).
    exists a, b. by rewrite Hus.
  - intros c Hc. destruct (Hchats c Hc) as (Hd & m & Hm & Hs).
    split; [done|]. rewrite findIn_updateIn, Hm.
    case_decide; simpl; eexists; split; try done. by rewrite Hus.
  - intros mid m k Hm Hk.
    apply findIn_updateIn_Some in Hm as (m0 & Hm0 & [[_ ->]|[_ ->]]).
    + by apply Hagree.
    + rewrite Hus in Hk. rewrite <- (Hagree mid m0 k Hm0 Hk).
      unfold Match.unreadOf. by rewrite Hcnt.
Qed.

(** A new match document, with no counter yet. *)
Lemma countersAgreeOn_new m docs chats :
  wellFormed m → Match.unreadCount m = ∅ →
  countersAgreeOn docs chats → countersAgreeOn (docs ++ [m]) chats.
Proof.
  intros Hm Hcnt (Hwf & Hchats & Hagree).
  assert (∀ id x, findIn CMatches docs id = Some x →
                  findIn CMatches (docs ++ [m]) id = Some x) as Hold.
  { intros id x. unfold findIn. case_bool_decide; [|done]. apply lookup_app_l_Some. }
  split_and!.
  - apply Forall_app. split; [done|]. by apply Forall_singleton.
  - intros c Hc. destruct (Hchats c Hc) as (Hd & m0 & Hm0 & Hs). eauto.
  - intros mid m1 k Hm1 Hk.
    destruct (findIn CMatches docs mid) as [m0|] eqn:Hm0.
    + rewrite (Hold _ _ Hm0) in Hm1. injection Hm1 as <-. by apply Hagree.
    + assert (m1 = m) as ->.
      { unfold findIn in *. case_bool_decide; [|done].
        apply lookup_app_Some in Hm1 as [Hm1|[_ Hm1]]; [congruence|].
        by apply list_lookup_singleton_Some in Hm1 as [_ <-]. }
      unfold Match.unreadOf. rewrite Hcnt, lookup_empty. simpl.
      rewrite filter_none; [done|].
      intros c Hc Hun. destruct (Hchats c Hc) as (_ & m2 & Hm2 & _).
      unfold unreadFromOthers in Hun. bool_hyps. congruence.
Qed.

(** A message of [u] stored in the match of [u] and [o], and the counter of
    [o] raised. *)
Lemma countersAgreeOn_send now msg ty mid m u o docs chats :
  findIn CMatches docs mid = Some m → participants m u o →
  countersAgreeOn docs chats →
  countersAgreeOn
    (updateIn CMatches (Match.set_unread o (Match.unreadOf m o + 1)) mid docs)
    (chats ++ [Chat.mk mid u msg ty false None false None now]).
Proof.
  intros Hm Hp (Hwf & Hchats & Hagree).
  pose proof Hp as [Huo Hus]. split_and!.
  - apply Forall_updateIn; [|done]. by intros m0 (a & b & E & Hab); exists a, b.
  - intros c [Hc| ->%list_elem_of_singleton]%elem_of_app.
    + destruct (Hchats c Hc) as (Hd & m0 & Hm0 & Hs).
      split; [done|]. rewrite findIn_updateIn, Hm0.
      case_decide; simpl; eexists; by split.
    + simpl. split; [done|]. rewrite findIn_updateIn_eq, Hm. simpl.
      eexists. split; [done|]. simpl. apply hasUser_true.
      by apply (participants_hasUser _ _ o).
  - intros mid1 m1 k Hm1 Hk. rewrite filter_app, length_app.
    apply findIn_updateIn_Some in Hm1 as (m0 & Hm0 & [[Hne ->]|[<- ->]]).
    + rewrite (Hagree mid1 m0 k Hm0 Hk).
      rewrite filter_cons, decide_False, filter_nil; [simpl; lia|].
      unfold unreadFromOthers. simpl.
      rewrite (bool_decide_eq_false_2 (mid = mid1)) by congruence. done.
    + rewrite Hm in Hm0. injection Hm0 as <-. simpl in Hk.
      destruct (participants_elem m u o k Hp Hk) as [-> | ->].
      * unfold Match.unreadOf at 1. simpl. rewrite lookup_insert_ne by done.
        fold (Match.unreadOf m u). rewrite (Hagree mid m u Hm Hk).
        rewrite filter_cons, decide_False, filter_nil; [simpl; lia|].
        unfold unreadFromOthers. simpl.
        rewrite (bool_decide_eq_false_2 (u ≠ u)) by (by intros []).
        by rewrite andb_false_r.
      * unfold Match.unreadOf at 1. simpl. rewrite lookup_insert_eq. simpl.
        rewrite (Hagree mid m o Hm Hk).
        rewrite filter_cons, decide_True, filter_nil; [simpl; lia|].
        unfold unreadFromOthers. simpl.
        rewrite !bool_decide_eq_true_2; done.
Qed.

Lemma wellFormed_third m u k x :
  wellFormed m → u ∈ Match.users m → k ∈ Match.users m → k ≠ u →
  x ∈ Match.users m → x = u ∨ x = k.
Proof.
  intros (a & b & E & Hab). rewrite E, !elem_of_cons, !elem_of_nil.
  intros [->|[->|[]]] [->|[->|[]]] Hne [->|[->|[]]]; tauto.
Qed.

(** The messages of the others marked as read, and the counter of [u] reset. *)
Lemma countersAgreeOn_read now mid m u docs chats :
  findIn CMatches docs mid = Some m → u ∈ Match.users m →
  countersAgreeOn docs chats →
  countersAgreeOn
    (updateIn CMatches (Match.set_unread u 0) mid docs)
    ((fun c => if unreadFromOthers mid u c then Chat.set_read now c else c) <$> chats).
Proof.
  intros Hm Hu (Hwf & Hchats & Hagree).
  set (g := fun c => if unreadFromOthers mid u c then Chat.set_read now c else c).
  assert (∀ c, Chat.matchId (g c) = Chat.matchId c ∧ Chat.sender (g c) = Chat.sender c
               ∧ Chat.isDeleted (g c) = Chat.isDeleted c) as Hg.
  { intros c. unfold g. by destruct (unreadFromOthers mid u c). }
  assert (∀ c, unreadFromOthers mid u (g c) = false) as Hmine.
  { intros c. unfold g. destruct (unreadFromOthers mid u c) eqn:E; [|done].
    unfold unreadFromOthers in *. simpl. by rewrite andb_false_r. }
  assert (wellFormed m) as Hwfm.
  { apply findIn_Some in Hm as [_ Hm]. by eapply Forall_lookup_1. }
  split_and!.
  - apply Forall_updateIn; [|done]. by intros m0 (a & b & E & Hab); exists a, b.
  - intros c' Hc'. apply list_elem_of_fmap in Hc' as (c & -> & Hc).
    destruct (Hchats c Hc) as (Hd & m0 & Hm0 & Hs).
    destruct (Hg c) as (-> & -> & ->). split; [done|].
    rewrite findIn_updateIn, Hm0. case_decide; simpl; eexists; by split.
  - intros mid1 m1 k Hm1 Hk.
    apply findIn_updateIn_Some in Hm1 as (m0 & Hm0 & [[Hne ->]|[<- ->]]).
    + rewrite (Hagree mid1 m0 k Hm0 Hk). symmetry.
      apply length_filter_fmap_ext. intros c Hc. unfold g.
      destruct (unreadFromOthers mid u c) eqn:E; [|done].
      unfold unreadFromOthers in *. bool_hyps. simpl.
      rewrite !(bool_decide_eq_false_2 (Chat.matchId c = mid1)) by congruence.
      done.
    + rewrite Hm in Hm0. injection Hm0 as <-. simpl in Hk.
      destruct (decide (k = u)) as [->|Hku].
      * unfold Match.unreadOf. simpl. rewrite lookup_insert_eq. simpl.
        rewrite filter_none; [done|].
        intros c' Hc'. apply list_elem_of_fmap in Hc' as (c & -> & Hc).
        by rewrite Hmine.
      * unfold Match.unreadOf at 1. simpl. rewrite lookup_insert_ne by done.
        fold (Match.unreadOf m k). rewrite (Hagree mid m k Hm Hk). symmetry.
        apply length_filter_fmap_ext. intros c Hc. unfold g.
        destruct (unreadFromOthers mid u c) eqn:E; [|done].
        destruct (Hchats c Hc) as (_ & m0 & Hm0 & Hs).
        unfold unreadFromOthers in *. bool_hyps. simpl.
        assert (m0 = m) as -> by congruence.
        destruct (wellFormed_third m u k (Chat.sender c) Hwfm Hu Hk Hku Hs)
          as [?| Hsk]; [done|].
        rewrite !(bool_decide_eq_false_2 (Chat.sender c ≠ k)) by (by intros []).
        by rewrite !andb_false_r.
Qed.

Lemma serve_countersAgree now s r :
  notDelete r = true → countersAgree s → countersAgree (serve now s r).
Proof.
  intros Hnd Hinv. unfold countersAgree in *. destruct r; try done; simpl.
  - (* like *)
    unfold like, createMatch.
    destruct (sameString _ _); [done|].
    destruct (castId targetUserId) as [b|]; [|done].
    destruct (findUser s b) as [ub|]; [|done].
    destruct (negb (User.isActive ub) || User.isBlocked ub); [done|].
    destruct (findUser s currentUserId) as [ua|]; [|done].
    destruct (includesRaw (User.likes ua) targetUserId); [done|].
    destruct (User.savable ua); [|done]. simpl.
    destruct (includes (User.likes ub) currentUserId); [|done].
    destruct (Match.preSave _) as [m'|] eqn:Hpre; [|done].
    apply preSave_Some in Hpre as [-> Hwf]. simpl.
    assert (countersAgreeOn
              (matchDocs s ++ [Match.mk [currentUserId; b] true now ∅])
              (chatDocs s)) as Hnew
      by (by apply countersAgreeOn_new).
    by destruct (User.savable ub).
  - unfold dislike. by repeat case_match.
  - unfold superLike. by repeat case_match.
  - unfold block. by repeat case_match.
  - unfold unblock. by repeat case_match.
  - (* send *)
    unfold send, chatGuard, createChat.
    destruct (findMatch s matchId) as [m|] eqn:Hm; [|done].
    destruct (negb (Match.isActive m)); [done|].
    destruct (Match.hasUser m senderId) eqn:Hhas; [|done]. simpl.
    destruct (Chat.valid _); [|done].
    assert (wellFormed m) as Hwfm.
    { destruct Hinv as (Hwf & _). apply findIn_Some in Hm as [_ Hm].
      by eapply Forall_lookup_1. }
    destruct (wellFormed_getOtherUser m senderId Hwfm Hhas) as (o & Ho & Hne & Hus).
    rewrite Ho. simpl.
    assert (participants m senderId o) as Hp by (split; [done|destruct Hus; eauto]).
    assert (Match.unreadOf (Match.incrementUnread o m) o = Match.unreadOf m o + 1) as ->.
    { unfold Match.unreadOf. simpl. by rewrite lookup_insert_eq. }
    apply (countersAgreeOn_send now message messageType matchId
             (Match.set_lastMessageAt now m) senderId o).
    + unfold findMatch in Hm. by rewrite findIn_updateIn_eq, Hm.
    + done.
    + by apply countersAgreeOn_meta.
  - (* listMessages *)
    unfold listMessages, chatGuard.
    destruct (findMatch s matchId) as [m|] eqn:Hm; [|done].
    destruct (negb (Match.isActive m)); [done|].
    destruct (Match.hasUser m userId) eqn:Hhas; [|done]. simpl.
    rewrite unreadOf_resetUnread.
    apply (countersAgreeOn_read now matchId m userId); try done.
    by apply hasUser_true.
  - (* markRead *)
    unfold markRead, chatGuard.
    destruct (findMatch s matchId) as [m|] eqn:Hm; [|done].
    destruct (negb (Match.isActive m)); [done|].
    destruct (Match.hasUser m userId) eqn:Hhas; [|done]. simpl.
    rewrite unreadOf_resetUnread.
    apply (countersAgreeOn_read now matchId m userId); try done.
    by apply hasUser_true.
  - (* unmatch *)
    unfold unmatch.
    destruct (findMatch s matchId) as [m|]; [|done].
    destruct (negb (Match.hasUser m userId)); [done|].
    destruct (Match.getOtherUser m userId); [|done]. simpl.
    by apply countersAgreeOn_meta.
Qed.

(** X11. While no message is deleted, the unread counter that a match keeps
    for each of its users is the number of unread messages of that match
    that the user did not send: in every store reached from one that
    signups left by requests other than message deletions. *)
Theorem counters_count_unread_messages s0 rs mid m k :
  initial s0 →
  Forall (fun r => notDelete r.2 = true) rs →
  findMatch (serveAll s0 rs) mid = Some m →
  k ∈ Match.users m →
  Match.unreadOf m k = unreadFromOthersIn (serveAll s0 rs) k mid.
Proof.
  intros Hinit Hrs Hm Hk.
  assert (countersAgree (serveAll s0 rs)) as (_ & _ & Hagree); [|by apply Hagree].
  assert (countersAgree s0) as H0.
  { destruct Hinit as (_ & Hdocs & Hchats). unfold countersAgree, countersAgreeOn.
    rewrite Hdocs, Hchats. split_and!; [constructor|by intros c ?%elem_of_nil|].
    intros mid0 m0 k0 Hm0. unfold findIn in Hm0. case_bool_decide; [|done].
    by rewrite lookup_nil in Hm0. }
  clear Hinit Hm. revert s0 H0.
  induction rs as [|[now r] rs IH]; intros s0 H0; [done|].
  apply Forall_cons in Hrs as [Hr Hrs]. simpl.
  by apply IH, serve_countersAgree.
Qed.

Lemma counters_count_unread_messages_witness :
  initial threeUsers
  ∧ Forall (fun r => notDelete r.2 = true)
      [(3, ReqLike bob (canon alice)); (5, ReqLike alice (canon bob));
       (7, ReqSend (matchOid 0) bob "hello" text)]
  ∧ findMatch (serveAll threeUsers
                 [(3, ReqLike bob (canon alice)); (5, ReqLike alice (canon bob));
                  (7, ReqSend (matchOid 0) bob "hello" text)])
              (matchOid 0) = Some chattedMatch
  ∧ alice ∈ Match.users chattedMatch
  ∧ Match.unreadOf chattedMatch alice
    = unreadFromOthersIn
        (serveAll threeUsers
           [(3, ReqLike bob (canon alice)); (5, ReqLike alice (canon bob));
            (7, ReqSend (matchOid 0) bob "hello" text)])
        alice (matchOid 0).
Proof.
  assert (Forall (fun r : nat * Request => notDelete r.2 = true)
            [(3, ReqLike bob (canon alice)); (5, ReqLike alice (canon bob));
             (7, ReqSend (matchOid 0) bob "hello" text)]) as Hrs
    by (repeat constructor).
  assert (alice ∈ Match.users chattedMatch) as Hin by (by left).
  split; [exact initial_threeUsers|]. do 3 (split; [done|]).
  exact (counters_count_unread_messages threeUsers _ (matchOid 0) chattedMatch alice
           initial_threeUsers Hrs eq_refl Hin).
Defined.

(** With a deletion the two part: Bob deletes his unread message and
    Alice's counter still says 1. *)
Example deletion_breaks_the_count :
  ((fun m => Match.unreadOf m alice)
     <$> findMatch (deleteMessage 8 chattedStore (canon (matchOid 0)) (chatOid 0) bob).1
                   (matchOid 0)) = Some 1
  ∧ unreadFromOthersIn (deleteMessage 8 chattedStore (canon (matchOid 0)) (chatOid 0) bob).1
                       alice (matchOid 0) = 0.
Proof. done. Qed.

(** ** The matches of a user: pages, details, statistics *)

Lemma elem_of_populateMatches s user id :
  id ∈ populateMatches s user
  ↔ id ∈ User.matches user
    ∧ ∃ u, findUser s id = Some u
           ∧ User.isActive u = true ∧ User.isBlocked u = false.
Proof.
  unfold populateMatches. rewrite list_elem_of_omap. split.
  - intros (x & Hx & Hf). destruct (findUser s x) as [u|] eqn:Hu; [|done].
    destruct (User.isActive u && negb (User.isBlocked u)) eqn:E; [|done].
    injection Hf as <-. bool_hyps. eauto.
  - intros (Hin & u & Hu & Hact & Hblk). exists id. split; [done|].
    by rewrite Hu, Hact, Hblk.
Qed.

(** X12. For a user that exists and a page number of at least 1, the list
    of matches answers with at most [limit] ids, each one in the user's
    [matches] and the id of an active user who is not blocked; [total]
    counts those ids over all pages, [hasMore] is true exactly when
    [page * limit] is less than [total], and the first [n] pages, one after
    the other, are the first [n * limit] of them. *)
Theorem getMatches_pages s userId user page limit :
  findUser s userId = Some user →
  1 ≤ page →
  ∃ d,
    getMatches s userId page limit = Success 200 d
    ∧ length (mt_matches d) ≤ limit
    ∧ (∀ id, id ∈ mt_matches d →
             id ∈ User.matches user
             ∧ ∃ u, findUser s id = Some u
                    ∧ User.isActive u = true ∧ User.isBlocked u = false)
    ∧ mt_total d = length (populateMatches s user)
    ∧ (mt_hasMore d = true ↔ page * limit < mt_total d)
    ∧ (∀ n, concat (map (fun p => matchesPage s userId p limit) (seq 1 n))
            = take (n * limit) (populateMatches s user)).
Proof.
  intros Huser Hpage. unfold getMatches. rewrite Huser.
  eexists. split; [done|]. simpl. split_and!.
  - rewrite length_take. lia.
  - intros id Hin. apply subseteq_take, subseteq_drop in Hin.
    by apply elem_of_populateMatches.
  - done.
  - rewrite bool_decide_eq_true, length_take, length_drop.
    assert (page * limit = (page - 1) * limit + limit) as -> by nia. lia.
  - intros n. induction n as [|n IH]; [done|].
    rewrite seq_S, map_app, concat_app, IH. simpl. rewrite app_nil_r.
    unfold matchesPage, getMatches. rewrite Huser. simpl.
    rewrite Nat.sub_0_r, take_take_drop. f_equal. lia.
Qed.

Lemma getMatches_pages_witness :
  findUser matchedStore alice
  = Some (User.set_matches [bob] (User.set_likes [bob] newUser))
  ∧ 1 ≤ 1
  ∧ ∃ d,
      getMatches matchedStore alice 1 20 = Success 200 d
      ∧ length (mt_matches d) ≤ 20
      ∧ (∀ id, id ∈ mt_matches d →
               id ∈ User.matches (User.set_matches [bob] (User.set_likes [bob] newUser))
               ∧ ∃ u, findUser matchedStore id = Some u
                      ∧ User.isActive u = true ∧ User.isBlocked u = false)
      ∧ mt_total d
        = length (populateMatches matchedStore
                    (User.set_matches [bob] (User.set_likes [bob] newUser)))
      ∧ (mt_hasMore d = true ↔ 1 * 20 < mt_total d)
      ∧ (∀ n, concat (map (fun p => matchesPage matchedStore alice p 20) (seq 1 n))
              = take (n * 20)
                  (populateMatches matchedStore
                     (User.set_matches [bob] (User.set_likes [bob] newUser)))).
Proof.
  assert (1 ≤ 1) as Hpage by lia.
  do 2 (split; [done|]).
  exact (getMatches_pages matchedStore alice _ 1 20 eq_refl Hpage).
Defined.

(** X13. The details of a match are served to its two users whether the
    match is active or not: after an unmatch the handler still answers 200
    with the other user, while a send on the same match is answered 404.  A
    caller who is not a user of the match is answered 403. *)
Theorem getMatch_ignores_isActive now s mid m u o msg ty :
  findMatch s mid = Some m →
  participants m u o →
  is_Some (findUser s o) →
  getMatch s mid u = Success 200 (mkMatchDetails mid (Match.lastMessageAt m) (Some o))
  ∧ getMatch (unmatch s mid u).1 mid u
    = Success 200 (mkMatchDetails mid (Match.lastMessageAt m) (Some o))
  ∧ send now (unmatch s mid u).1 mid u msg ty
    = ((unmatch s mid u).1, Failure NotFound "Match not found")
  ∧ (∀ x, Match.hasUser m x = false →
          getMatch s mid x = Failure Forbidden "Not authorized to view this match").
Proof.
  intros Hm Hp [uo Ho].
  pose proof (participants_hasUser _ _ _ Hp) as Hhas.
  pose proof (participants_getOtherUser _ _ _ Hp) as Hother.
  assert (unmatch s mid u
          = (updateMatch (Match.set_isActive false) mid
               (pullMatch u o (pullMatch o u s)), Success 200 ())) as Hun.
  { unfold unmatch. by rewrite Hm, Hhas, Hother. }
  assert (findMatch (unmatch s mid u).1 mid = Some (Match.set_isActive false m)) as Hm'.
  { rewrite Hun. simpl. unfold pullMatch, findMatch, updateMatch, updateUser in *.
    simpl. by rewrite findIn_updateIn_eq, Hm. }
  split_and!.
  - unfold getMatch. by rewrite Hm, Hhas, Hother, Ho.
  - unfold getMatch. rewrite Hm'.
    assert (Match.hasUser (Match.set_isActive false m) u = true) as -> by done.
    assert (Match.getOtherUser (Match.set_isActive false m) u = Some o) as -> by done.
    simpl.
    assert (is_Some (findUser (unmatch s mid u).1 o)) as [uo' ->]; [|done].
    rewrite Hun. simpl. unfold pullMatch, findUser, updateMatch, updateUser in *.
    simpl. rewrite !findIn_updateIn, Ho. by repeat case_decide.
  - apply send_inactive. eexists. split; [exact Hm'|done].
  - intros x Hx. unfold getMatch. by rewrite Hm, Hx.
Qed.

Lemma getMatch_ignores_isActive_witness :
  findMatch chattedStore (matchOid 0) = Some chattedMatch
  ∧ participants chattedMatch alice bob
  ∧ is_Some (findUser chattedStore bob)
  ∧ getMatch chattedStore (matchOid 0) alice
    = Success 200
        (mkMatchDetails (matchOid 0) (Match.lastMessageAt chattedMatch) (Some bob))
  ∧ getMatch (unmatch chattedStore (matchOid 0) alice).1 (matchOid 0) alice
    = Success 200
        (mkMatchDetails (matchOid 0) (Match.lastMessageAt chattedMatch) (Some bob))
  ∧ send 9 (unmatch chattedStore (matchOid 0) alice).1 (matchOid 0) alice "hi" text
    = ((unmatch chattedStore (matchOid 0) alice).1,
       Failure NotFound "Match not found")
  ∧ (∀ x, Match.hasUser chattedMatch x = false →
          getMatch chattedStore (matchOid 0) x
          = Failure Forbidden "Not authorized to view this match").
Proof.
  assert (participants chattedMatch alice bob) as Hp by (split; [done|by left]).
  assert (is_Some (findUser chattedStore bob)) as Hbob by (by eexists).
  do 3 (split; [done|]).
  exact (getMatch_ignores_isActive 9 chattedStore (matchOid 0) chattedMatch
           alice bob "hi" text eq_refl Hp Hbob).
Defined.

(** X14. No handler writes [likedBy]: in every store reached from one that
    signups left, the statistics of any user report [totalLikedBy = 0] and
    a [matchRate] of 0, whatever the numbers of likes and matches. *)
Theorem matchStats_rate_is_zero s userId user :
  reachable s →
  findUser s userId = Some user →
  matchStats s userId
  = Success 200
      (mkStats (length (User.matches user)) (length (User.likes user)) 0 0%R).
Proof.
  intros (s0 & rs & (Hfresh & _ & _) & ->) Huser.
  assert (User.likedBy user = []) as HlikedBy.
  { destruct (serveAll_account_flags s0 rs userId) as (_ & _ & Hl).
    rewrite Huser in Hl. simpl in Hl.
    destruct (findUser s0 userId) as [u0|] eqn:Hu0; [|done].
    apply findIn_Some in Hu0 as [_ Hu0].
    destruct (Forall_lookup_1 _ _ _ _ Hfresh Hu0) as (_ & Hl0 & _).
    simpl in Hl. congruence. }
  unfold matchStats. rewrite Huser, HlikedBy. simpl. done.
Qed.

Lemma matchStats_rate_is_zero_witness :
  reachable relikeStore
  ∧ findUser relikeStore alice
    = Some (User.set_matches [bob; bob] (User.set_likes [bob] newUser))
  ∧ matchStats relikeStore alice
    = Success 200
        (mkStats
           (length (User.matches (User.set_matches [bob; bob] (User.set_likes [bob] newUser))))
           (length (User.likes (User.set_matches [bob; bob] (User.set_likes [bob] newUser))))
           0 0%R).
Proof.
  assert (reachable relikeStore) as Hreach
    by (exists threeUsers, relikeTrace; split; [exact initial_threeUsers|done]).
  do 2 (split; [done|]).
  exact (matchStats_rate_is_zero relikeStore alice _ Hreach eq_refl).
Defined.

(** ** Super-like, premium *)

(** X15. A super-like never stores anything and never succeeds: a caller
    whose premium is off, or has expired at the time of the request, is
    answered 403; every other caller is answered 500.  The target plays no
    part in the answer. *)
Theorem superLike_never_records now s a b :
  (superLike now s a b).1 = s
  ∧ (superLike now s a b).2 = (superLike now s a a).2
  ∧ ((superLike now s a b).2 = Failure Forbidden "Super like is a premium feature"
     ↔ ∃ ua, findUser s a = Some ua
             ∧ (User.isPremium ua = false
                ∨ ∃ e, User.premiumExpiresAt ua = Some e ∧ e ≤ now))
  ∧ ((superLike now s a b).2 ≠ Failure Forbidden "Super like is a premium feature"
     → (superLike now s a b).2 = Failure ServerError "Server error").
Proof.
  unfold superLike, User.isPremiumActive.
  destruct (findUser s a) as [ua|]; simpl.
  2: { split_and!; try done. split; [done|]. by intros (? & ? & _). }
  destruct (User.isPremium ua) eqn:Hp; simpl.
  2: { split_and!; try done. split; [eauto|done]. }
  destruct (User.premiumExpiresAt ua) as [e|] eqn:He; simpl.
  2: { split_and!; try done. split; [done|].
       intros (? & [= <-] & [?|(? & ? & _)]); congruence. }
  case_bool_decide as Hlt; simpl.
  - split_and!; try done. split; [done|].
    intros (? & [= <-] & [?|(e' & ? & ?)]); [congruence|].
    assert (e' = e) as -> by congruence. lia.
  - split_and!; try done. split; [|done].
    intros _. exists ua. split; [done|]. right. exists e. split; [done|lia].
Qed.

(** ** Photos *)




(** ** Authentication *)

Lemma splitOn_no_separator sep str :
  hasChar sep str = false → splitOn sep str = [str].
Proof.
  induction str as [|c rest IH]; [done|]. simpl.
  intros [Hc Hrest]%orb_false_iff. rewrite Hc, (IH Hrest). done.
Qed.

(** X18. Reading the token off the [Authorization] header: a header
    ["Bearer "] followed by a non-empty token without spaces yields that
    token; no header, a header that does not start with [Bearer], and
    [Bearer] with nothing or only a space after it yield none. *)
Theorem bearerToken_reads_header :
  (∀ token, token ≠ EmptyString → hasChar space token = false →
            bearerToken (Some ("Bearer " +:+ token)) = Some token)
  ∧ bearerToken None = None
  ∧ bearerToken (Some "Bearer") = None
  ∧ bearerToken (Some "Bearer ") = None
  ∧ (∀ header, String.prefix "Bearer" header = false →
               bearerToken (Some header) = None).
Proof.
  split_and!; try done.
  - intros token Hne Hsp. unfold bearerToken.
    assert (String.prefix "Bearer" ("Bearer " +:+ token) = true) as -> by done.
    assert (splitOn space ("Bearer " +:+ token) = ["Bearer"; token]) as Hsplit.
    { simpl. rewrite splitOn_no_separator by exact Hsp. done. }
    change (Ascii.ascii_of_nat 32) with space. rewrite Hsplit. simpl.
    by destruct token.
  - intros header Hp. unfold bearerToken. by rewrite Hp.
Qed.

Section AuthLemmas.
Variable verifyToken : string → option (ObjectId * string).

(** X19. [protectUser] calls [next] exactly for a header whose token
    verifies with type [user] and names an existing user who is active and
    not blocked, and hands that user on; every other request is answered
    401.  [optionalAuth] attaches a user to the request in exactly the same
    cases. *)
Theorem protectUser_lets_through s authorization id user :
  (protectUser verifyToken s authorization = Next id user
   ↔ ∃ token,
       bearerToken authorization = Some token
       ∧ verifyToken token = Some (id, "user")
       ∧ findUser s id = Some user
       ∧ User.isActive user = true
       ∧ User.isBlocked user = false)
  ∧ (∀ status msg,
       protectUser verifyToken s authorization = Rejected status msg → status = 401)
  ∧ (optionalAuth verifyToken s authorization = Some (id, user)
     ↔ protectUser verifyToken s authorization = Next id user).
Proof.
  unfold protectUser, optionalAuth.
  destruct (bearerToken authorization) as [token|].
  2: { split_and!; [split; [done|by intros (? & ? & _)]|by intros ? ? [= <- _]|done]. }
  destruct (verifyToken token) as [[id' ty]|] eqn:Hv.
  2: { split_and!; [split; [done|]|by intros ? ? [= <- _]|done].
       intros (? & [= <-] & ? & _). congruence. }
  destruct (String.eqb ty "user") eqn:Hty; simpl.
  2: { apply String.eqb_neq in Hty.
       split_and!; [split; [done|]|by intros ? ? [= <- _]|done].
       intros (? & [= <-] & ? & _). congruence. }
  apply String.eqb_eq in Hty as ->.
  destruct (findUser s id') as [u|] eqn:Hu.
  2: { split_and!; [split; [done|]|by intros ? ? [= <- _]|done].
       intros (? & [= <-] & ? & ? & _). congruence. }
  destruct (User.isActive u) eqn:Hact; destruct (User.isBlocked u) eqn:Hblk; simpl.
  all: split_and!;
    [split; [try done|]
    |by intros ? ? [= <- _]
    |split; intros [= <- <-]; done || congruence].
  all: try (intros (? & [= <-] & ? & ? & ? & ?); congruence).
  intros [= <- <-]. eauto 10.
Qed.
End AuthLemmas.

(** ** The other user of a match *)

(** X20. In a match of two users [getOtherUser] is an involution: it takes
    each of the two to the other.  For anyone else it does not fail: it
    returns the first user of the match, which is why the handlers ask
    [hasUser] first. *)
Theorem getOtherUser_swaps m a b :
  Match.users m = [a; b] → a ≠ b →
  Match.getOtherUser m a = Some b
  ∧ Match.getOtherUser m b = Some a
  ∧ (∀ u o, Match.hasUser m u = true → Match.getOtherUser m u = Some o →
            Match.hasUser m o = true ∧ Match.getOtherUser m o = Some u)
  ∧ (∀ x, Match.hasUser m x = false → Match.getOtherUser m x = Some a).
Proof.
  intros E Hab.
  assert (∀ u, Match.getOtherUser m u = if decide (u = a) then Some b else Some a)
    as Hother by (intros u; by apply getOtherUser_pair).
  split_and!.
  - by rewrite Hother, decide_True.
  - by rewrite Hother, decide_False.
  - intros u o Hu. rewrite !Hother. rewrite hasUser_true, E in Hu.
    rewrite hasUser_true, E, !elem_of_cons, !elem_of_nil in *.
    repeat case_decide; intros [= <-]; subst; intuition congruence.
  - intros x Hx. rewrite Hother. case_decide as Hxa; [|done]. subst x.
    assert (Match.hasUser m a = true) as Hin; [|congruence].
    apply hasUser_true. rewrite E. by left.
Qed.

Lemma getOtherUser_swaps_witness :
  Match.users chattedMatch = [alice; bob]
  ∧ alice ≠ bob
  ∧ Match.getOtherUser chattedMatch alice = Some bob
  ∧ Match.getOtherUser chattedMatch bob = Some alice
  ∧ (∀ u o, Match.hasUser chattedMatch u = true →
            Match.getOtherUser chattedMatch u = Some o →
            Match.hasUser chattedMatch o = true
            ∧ Match.getOtherUser chattedMatch o = Some u)
  ∧ (∀ x, Match.hasUser chattedMatch x = false →
          Match.getOtherUser chattedMatch x = Some alice).
Proof.
  assert (alice ≠ bob) as Hne by done.
  do 2 (split; [done|]).
  exact (getOtherUser_swaps chattedMatch alice bob eq_refl Hne).
Defined.

(** ** Blocking and unblocking *)

Lemma unblock_succeeds s a r ua :
  findUser s a = Some ua → User.savable ua = true →
  unblock s a r
  = (updateUser (User.set_blocked (withoutRaw r (User.blocked ua))) a s,
     Success 200 ()).
Proof. intros Ha Hsa. unfold unblock. by rewrite Ha, Hsa. Qed.

Lemma without_snoc_self b l : without b (l ++ [b]) = without b l.
Proof.
  unfold without. rewrite filter_app, filter_cons, decide_False, filter_nil by tauto.
  apply app_nil_r.
Qed.

(** X21. An unblock does not undo a block.  [A], whose document has
    coordinates, blocks and then unblocks another user [B], both requests
    spelling the id of [B] as [toString] does: [B] is out of [A]'s
    [blocked] again, but the like and the match that the block removed from
    [A]'s document stay removed, while [B]'s document, the match documents
    and the messages were never touched.  With [B] active, not blocked and
    with coordinates, [A] can then like [B] anew. *)
Theorem block_then_unblock now s a b ua ub :
  a ≠ b → findUser s a = Some ua → findUser s b = Some ub →
  User.savable ua = true →
  findUser (unblock (block s a (canon b)).1 a (canon b)).1 a
  = Some (User.set_matches (without b (User.matches ua))
            (User.set_likes (without b (User.likes ua))
               (User.set_blocked (without b (User.blocked ua)) ua)))
  ∧ findUser (unblock (block s a (canon b)).1 a (canon b)).1 b = Some ub
  ∧ matchDocs (unblock (block s a (canon b)).1 a (canon b)).1 = matchDocs s
  ∧ chatDocs (unblock (block s a (canon b)).1 a (canon b)).1 = chatDocs s
  ∧ (User.isActive ub = true → User.isBlocked ub = false →
     User.savable ub = true →
     ∃ s' d,
       like now (unblock (block s a (canon b)).1 a (canon b)).1 a (canon b)
       = (s', Success 200 d)).
Proof.
  intros Hab Ha Hb Hsa.
  rewrite (block_succeeds s a (canon b) b ua ub) by done. simpl.
  set (s1 := updateUser _ a s).
  assert (findUser s1 a = Some (blockedDoc (canon b) b ua)) as Ha1.
  { unfold s1. by rewrite findUser_updateUser, decide_True, Ha. }
  assert (User.savable (blockedDoc (canon b) b ua) = true) as Hsa1 by exact Hsa.
  rewrite (unblock_succeeds s1 a (canon b) _ Ha1 Hsa1). simpl.
  set (s2 := updateUser _ a s1).
  assert (findUser s2 a
          = Some (User.set_matches (without b (User.matches ua))
                    (User.set_likes (without b (User.likes ua))
                       (User.set_blocked (without b (User.blocked ua)) ua)))) as Ha2.
  { unfold s2. rewrite findUser_updateUser, decide_True, Ha1 by done. simpl.
    unfold User.set_blocked, User.set_matches, User.set_likes. simpl.
    rewrite !withoutRaw_canon, includesRaw_canon.
    do 2 f_equal.
    destruct (includes (User.blocked ua) b); simpl; [done|].
    apply without_snoc_self. }
  assert (findUser s2 b = Some ub) as Hb2.
  { unfold s2, s1. by rewrite !findUser_updateUser, !decide_False, Hb. }
  split_and!; try done.
  intros Hact Hblk Hsb.
  eapply (like_succeeds now s2 a (canon b) b); try done.
  simpl. rewrite includesRaw_canon. apply includes_false, not_elem_of_without.
Qed.

Lemma block_then_unblock_witness :
  alice ≠ bob
  ∧ findUser matchedStore alice
    = Some (User.set_matches [bob] (User.set_likes [bob] newUser))
  ∧ findUser matchedStore bob
    = Some (User.set_matches [alice] (User.set_likes [alice] newUser))
  ∧ User.savable (User.set_matches [bob] (User.set_likes [bob] newUser)) = true
  ∧ findUser (unblock (block matchedStore alice (canon bob)).1 alice (canon bob)).1
             alice
    = Some (User.set_matches
              (without bob
                 (User.matches (User.set_matches [bob] (User.set_likes [bob] newUser))))
              (User.set_likes
                 (without bob
                    (User.likes (User.set_matches [bob] (User.set_likes [bob] newUser))))
                 (User.set_blocked
                    (without bob
                       (User.blocked
                          (User.set_matches [bob] (User.set_likes [bob] newUser))))
                    (User.set_matches [bob] (User.set_likes [bob] newUser)))))
  ∧ findUser (unblock (block matchedStore alice (canon bob)).1 alice (canon bob)).1
             bob
    = Some (User.set_matches [alice] (User.set_likes [alice] newUser))
  ∧ matchDocs (unblock (block matchedStore alice (canon bob)).1 alice (canon bob)).1
    = matchDocs matchedStore
  ∧ chatDocs (unblock (block matchedStore alice (canon bob)).1 alice (canon bob)).1
    = chatDocs matchedStore
  ∧ (User.isActive (User.set_matches [alice] (User.set_likes [alice] newUser)) = true →
     User.isBlocked (User.set_matches [alice] (User.set_likes [alice] newUser)) = false →
     User.savable (User.set_matches [alice] (User.set_likes [alice] newUser)) = true →
     ∃ s' d,
       like 9 (unblock (block matchedStore alice (canon bob)).1 alice (canon bob)).1
            alice (canon bob)
       = (s', Success 200 d)).
Proof.
  assert (alice ≠ bob) as Hne by done.
  do 4 (split; [done|]).
  exact (block_then_unblock 9 matchedStore alice bob _ _ Hne eq_refl eq_refl eq_refl).
Defined.

(** With Bob's id in upper case the same two requests leave him blocked,
    liked and matched. *)
Example block_then_unblock_in_upper_case :
  findUser (unblock (block matchedStore alice (Spelled bob false)).1
                    alice (Spelled bob false)).1 alice
  = Some (User.set_blocked [bob]
            (User.set_matches [bob] (User.set_likes [bob] newUser))).
Proof. done. Qed.

(** ** Discovery: what a page holds *)

Lemma Rleb_true x y : Rleb x y = true ↔ (x <= y)%R.
Proof. unfold Rleb. destruct (Rle_dec x y); split; intros; done || lra. Qed.

Lemma sublist_omap_fst {A B C} (f : A * B → option C) (k : C → A) (l : list (A * B)) :
  (∀ p c, f p = Some c → k c = p.1) →
  map k (omap f l) `sublist_of` map fst l.
Proof.
  intros Hk. induction l as [|p l IH]; simpl; [constructor|].
  destruct (f p) as [c|] eqn:E; simpl.
  - rewrite (Hk p c E). by constructor.
  - by constructor.
Qed.

Lemma NoDup_locatedUsers s : NoDup (map (fun d => d.1.1) (locatedUsers s)).
Proof.
  unfold locatedUsers.
  eapply sublist_NoDup; cycle 1.
  - apply (sublist_omap_fst _ (fun d : ObjectId * User.t * Location => d.1.1)).
    intros [id u] c. simpl. destruct (User.location u); simpl; [|done].
    by intros [= <-].
  - assert (map fst (imap (fun i u => (userOid i, u)) (userDocs s))
            = userOid <$> seq 0 (length (userDocs s))) as ->.
    { apply list_eq. intros i.
      change (map fst ?l) with (fst <$> l).
      rewrite !list_lookup_fmap, list_lookup_imap.
      destruct (userDocs s !! i) as [u|] eqn:E; simpl.
      - apply lookup_lt_Some in E.
        by rewrite (proj2 (lookup_seq 0 _ i i) (conj eq_refl E)).
      - apply lookup_ge_None in E.
        assert (seq 0 (length (userDocs s)) !! i = None) as ->; [|done].
        apply lookup_ge_None. by rewrite length_seq. }
    apply NoDup_fmap_2; [|apply NoDup_seq].
    intros i j [= ->]. done.
Qed.

Lemma length_locatedUsers s : length (locatedUsers s) ≤ length (userDocs s).
Proof.
  unfold locatedUsers.
  assert (∀ {A B} (f : A → option B) l, length (omap f l) ≤ length l) as Homap.
  { intros A B f l. induction l as [|x l IH]; [done|].
    change (omap f (x :: l))
      with (match f x with Some y => y :: omap f l | None => omap f l end).
    destruct (f x); simpl; lia. }
  etrans; [apply Homap|]. by rewrite length_imap.
Qed.

Section DiscoveryPages.
Context {runtime : JSMath}.
Variable geoDistance : Location → Location → R.

Lemma discoveryPage_eq s seekerId user center page limit maxDistance :
  findUser s seekerId = Some user →
  User.location user = Some center →
  discoveryPage geoDistance s seekerId page limit maxDistance
  = map (withDistance center)
      (take limit
         (drop ((page - 1) * limit)
            (sortBy (fun d1 d2 => Rleb (geoDistance center d1.2)
                                       (geoDistance center d2.2))
               (filter (fun d => discoveryQuery geoDistance seekerId user center
                                                maxDistance d = true)
                       (locatedUsers s))))).
Proof.
  intros Huser Hcenter. unfold discoveryPage, findCandidates.
  by rewrite Huser, Hcenter.
Qed.

(** What the query lets through, read on a page of the answer. *)
Lemma elem_of_discoveryPage s seekerId user page limit maxDistance id dist :
  findUser s seekerId = Some user →
  (id, dist) ∈ discoveryPage geoDistance s seekerId page limit maxDistance →
  ∃ center u l,
    User.location user = Some center
    ∧ findUser s id = Some u ∧ User.location u = Some l
    ∧ discoveryQuery geoDistance seekerId user center maxDistance (id, u, l) = true
    ∧ dist = roundedDistance center l.
Proof.
  intros Huser Hin.
  destruct (User.location user) as [center|] eqn:Hcenter.
  - rewrite (discoveryPage_eq s seekerId user center) in Hin by done.
    apply list_elem_of_fmap in Hin as ([[id' u] l] & [= -> ->] & Hin).
    apply subseteq_take, subseteq_drop in Hin.
    apply elem_of_sortBy, list_elem_of_filter in Hin as [Hq Hin].
    apply elem_of_locatedUsers in Hin as [Hfind Hloc].
    exists center, u, l. by split_and!.
  - unfold discoveryPage, findCandidates in Hin. rewrite Huser, Hcenter in Hin.
    by apply elem_of_nil in Hin.
Qed.

(** With a limit that no result set exceeds, the first page holds all that
    the query lets through. *)
Lemma discoveryPage_all s seekerId user center limit maxDistance id u l :
  findUser s seekerId = Some user →
  User.location user = Some center →
  length (userDocs s) ≤ limit →
  findUser s id = Some u → User.location u = Some l →
  discoveryQuery geoDistance seekerId user center maxDistance (id, u, l) = true →
  (id, roundedDistance center l)
  ∈ discoveryPage geoDistance s seekerId 1 limit maxDistance.
Proof.
  intros Huser Hcenter Hlimit Hu Hl Hq.
  rewrite (discoveryPage_eq s seekerId user center) by done. simpl.
  apply list_elem_of_fmap. exists (id, u, l). split; [done|].
  rewrite take_ge.
  - apply elem_of_sortBy, list_elem_of_filter. split; [done|].
    by apply elem_of_locatedUsers.
  - rewrite sortBy_Permutation.
    etrans; [apply length_filter|].
    etrans; [apply length_locatedUsers|done].
Qed.

(** X22. For a seeker whose location is set, a page of discovery holds at
    most [limit] profiles, no profile twice, each one a stored profile with
    a location that the store places within [maxDistance] kilometres of the
    seeker, in the order of that distance, nearest first; [hasMore] says
    that the page is full.  Pages follow one another: the first [n] pages
    of size [limit] are the first page of size [n * limit]. *)
Theorem discovery_page s seekerId user center page limit maxDistance :
  findUser s seekerId = Some user →
  User.location user = Some center →
  ∃ d found,
    findCandidates geoDistance s seekerId page limit maxDistance = Success 200 d
    ∧ disc_users d = map (withDistance center) found
    ∧ length found ≤ limit
    ∧ NoDup (map (fun x => x.1.1) found)
    ∧ Forall (fun x => findUser s x.1.1 = Some x.1.2
                       ∧ User.location x.1.2 = Some x.2
                       ∧ (geoDistance center x.2 <= maxDistance * 1000)%R) found
    ∧ StronglySorted
        (fun x y => (geoDistance center x.2 <= geoDistance center y.2)%R) found
    ∧ (disc_hasMore d = true ↔ length found = limit)
    ∧ ∀ n, concat (map (fun p => discoveryPage geoDistance s seekerId p limit
                                               maxDistance) (seq 1 n))
           = discoveryPage geoDistance s seekerId 1 (n * limit) maxDistance.
Proof.
  intros Huser Hcenter. unfold findCandidates. rewrite Huser, Hcenter.
  set (before := fun d1 d2 : ObjectId * User.t * Location =>
                   Rleb (geoDistance center d1.2) (geoDistance center d2.2)).
  set (all := sortBy before _).
  exists (mkDiscoveryData (map (withDistance center)
                             (take limit (drop ((page - 1) * limit) all)))
            page limit
            (bool_decide (length (map (withDistance center)
                                    (take limit (drop ((page - 1) * limit) all)))
                          = limit))),
         (take limit (drop ((page - 1) * limit) all)).
  split; [done|]. simpl. split_and!.
  - done.
  - rewrite length_take. lia.
  - eapply sublist_NoDup; cycle 1.
    + apply fmap_sublist. etrans; [apply sublist_take|apply sublist_drop].
    + unfold all. change (map ?f ?l) with (f <$> l).
      rewrite sortBy_Permutation.
      eapply sublist_NoDup; [apply NoDup_locatedUsers|].
      apply fmap_sublist, sublist_filter.
  - apply Forall_forall. intros [[id u] l] Hin. simpl.
    apply subseteq_take, subseteq_drop in Hin.
    apply elem_of_sortBy, list_elem_of_filter in Hin as [Hq Hin].
    apply elem_of_locatedUsers in Hin as [Hfind Hloc].
    split_and!; try done.
    unfold discoveryQuery in Hq. apply andb_prop in Hq as [_ Hq].
    by apply Rleb_true in Hq.
  - apply StronglySorted_take_drop.
    eapply StronglySorted_mono; [|apply (sortBy_sorted before)].
    + intros x y Hxy. by apply Rleb_true in Hxy.
    + intros x y. unfold before. rewrite !Rleb_true.
      destruct (Rle_dec (geoDistance center x.2) (geoDistance center y.2));
        [by left|right; lra].
    + intros x y z. unfold before. rewrite !Rleb_true. lra.
  - by rewrite bool_decide_eq_true, length_map.
  - intros n.
    rewrite (discoveryPage_eq s seekerId user center 1) by done. simpl.
    fold before. fold all.
    induction n as [|n IH]; [done|].
    rewrite seq_S, map_app, concat_app, IH. simpl. rewrite app_nil_r.
    rewrite (discoveryPage_eq s seekerId user center) by done.
    fold before. fold all.
    change (drop 0 all) with all.
    replace (S n - 1) with n by lia.
    rewrite <- map_app, take_take_drop. f_equal. f_equal. lia.
Qed.
End DiscoveryPages.

Lemma discovery_page_witness :
  findUser locatedStore alice = Some (locatedUser [bob])
  ∧ User.location (locatedUser [bob]) = Some origin
  ∧ ∃ d found,
      findCandidates (fun _ _ => 0%R) locatedStore alice 1 20 50 = Success 200 d
      ∧ disc_users d = map (withDistance origin) found
      ∧ length found ≤ 20
      ∧ NoDup (map (fun x => x.1.1) found)
      ∧ Forall (fun x => findUser locatedStore x.1.1 = Some x.1.2
                         ∧ User.location x.1.2 = Some x.2
                         ∧ (0 <= 50 * 1000)%R) found
      ∧ StronglySorted (fun x y => (0 <= 0)%R) found
      ∧ (disc_hasMore d = true ↔ length found = 20)
      ∧ ∀ n, concat (map (fun p => discoveryPage (fun _ _ => 0%R) locatedStore
                                                 alice p 20 50) (seq 1 n))
             = discoveryPage (fun _ _ => 0%R) locatedStore alice 1 (n * 20) 50.
Proof.
  do 2 (split; [reflexivity|]).
  exact (discovery_page (fun _ _ => 0%R) locatedStore alice (locatedUser [bob])
           origin 1 20 50 eq_refl eq_refl).
Defined.

(** A full last page announces more: with Carol as the only candidate and a
    limit of one, the first page says [hasMore] and the second is empty. *)
Example discovery_full_last_page :
  ∃ d, findCandidates (fun _ _ => 0%R) locatedStore alice 1 1 50 = Success 200 d
       ∧ map fst (disc_users d) = [carol]
       ∧ disc_hasMore d = true
       ∧ discoveryPage (fun _ _ => 0%R) locatedStore alice 2 1 50 = [].
Proof.
  eexists. split; [reflexivity|].
  unfold discoveryPage, findCandidates.
  cbn [disc_users disc_hasMore]. unfold locatedUsers. simpl.
  rewrite !filter_cons, filter_nil. unfold discoveryQuery, Rleb. simpl.
  destruct (Rle_dec 0 (50 * 1000)) as [_|Hn]; [|exfalso; apply Hn; lra].
  simpl. done.
Qed.

(** ** Discovery after a like and after a dislike *)

(** A like writes [likes] and [matches] only. *)
Lemma like_keeps {B} (g : User.t → B) now s a b id :
  (∀ l u, g (User.set_likes l u) = g u) →
  (∀ l u, g (User.set_matches l u) = g u) →
  g <$> findUser (like now s a b).1 id = g <$> findUser s id.
Proof.
  intros Hlikes Hmatches. unfold findUser, like, createMatch, updateUser.
  repeat case_match; simplify_eq/=;
    rewrite ?(proj_findIn_updateIn g) by done; done.
Qed.

Section DiscoveryAfter.
Context {runtime : JSMath}.
Variable geoDistance : Location → Location → R.

Lemma liked_not_discovered s a b ua page limit maxDistance :
  findUser s a = Some ua → b ∈ User.likes ua →
  b ∉ map fst (discoveryPage geoDistance s a page limit maxDistance).
Proof.
  intros Ha Hin Hpage.
  apply list_elem_of_fmap in Hpage as ([id dist] & -> & Hpage). simpl in Hin.
  apply (elem_of_discoveryPage geoDistance s a ua) in Hpage
    as (center & u & l & _ & _ & _ & Hq & _); [|done].
  unfold discoveryQuery in Hq. simpl in Hq.
  repeat (apply andb_prop in Hq as [Hq ?]).
  match goal with H : negb (includes _ _) = true |- _ =>
    apply negb_true_iff, includes_false in H; rewrite !not_elem_of_app in H;
    destruct H as (? & ? & ?) end.
  done.
Qed.

(** X23. Discovery forgets a dislike.  A profile that the seeker's discovery
    shows is hidden from every page once the seeker has liked it.  A dislike
    that spells the id as [toString] does only takes the profile out of
    [likes] and so brings it back: nothing records that it was disliked.  A
    dislike that spells the id otherwise is answered 200 as well and leaves
    the profile hidden. *)
Theorem dislike_is_not_remembered now s a b ua ub center l limit maxDistance :
  a ≠ b → findUser s a = Some ua → findUser s b = Some ub →
  User.isActive ub = true → User.isBlocked ub = false →
  User.profileCompleted ub = true →
  b ∉ User.likes ua → b ∉ User.blocked ua → b ∉ User.blockedBy ua →
  User.location ua = Some center → User.location ub = Some l →
  (geoDistance center l <= maxDistance * 1000)%R →
  length (userDocs s) ≤ limit →
  b ∈ map fst (discoveryPage geoDistance s a 1 limit maxDistance)
  ∧ ∃ s1 d1 s2 s2',
      like now s a (canon b) = (s1, Success 200 d1)
      ∧ (∀ page lim,
           b ∉ map fst (discoveryPage geoDistance s1 a page lim maxDistance))
      ∧ dislike s1 a (canon b) = (s2, Success 200 ())
      ∧ b ∈ map fst (discoveryPage geoDistance s2 a 1 limit maxDistance)
      ∧ dislike s1 a (Spelled b false) = (s2', Success 200 ())
      ∧ ∀ page lim,
          b ∉ map fst (discoveryPage geoDistance s2' a page lim maxDistance).
Proof.
  intros Hab Ha Hb Hact Hblk Hdone Hlikes Hblocked HblockedBy Hca Hlb Hnear Hlimit.
  assert (∀ s' ua' ub',
            findUser s' a = Some ua' → findUser s' b = Some ub' →
            length (userDocs s') ≤ limit →
            User.location ua' = Some center → User.location ub' = Some l →
            User.isActive ub' = true → User.isBlocked ub' = false →
            User.profileCompleted ub' = true →
            b ∉ User.likes ua' → b ∉ User.blocked ua' → b ∉ User.blockedBy ua' →
            b ∈ map fst (discoveryPage geoDistance s' a 1 limit maxDistance))
    as Hshown.
  { intros s' ua' ub' Ha' Hb' Hlen Hca' Hlb' Hact' Hblk' Hdone' Hl1 Hl2 Hl3.
    apply list_elem_of_fmap. exists (b, roundedDistance center l). split; [done|].
    apply (discoveryPage_all geoDistance s' a ua' center limit maxDistance b ub' l);
      try done.
    unfold discoveryQuery. simpl.
    rewrite bool_decide_eq_true_2 by congruence.
    rewrite Hact', Hblk', Hdone'. simpl.
    rewrite (proj2 (Rleb_true _ _) Hnear).
    assert (includes (User.likes ua' ++ User.blocked ua' ++ User.blockedBy ua') b
            = false) as ->; [|done].
    apply includes_false. by rewrite !not_elem_of_app. }
  split; [by apply (Hshown s ua ub)|].
  destruct (like_succeeds now s a (canon b) b ua ub) as (s1 & d1 & Hlike);
    try done.
  { rewrite includesRaw_canon. by apply includes_false. }
  { unfold User.savable. by rewrite Hca. }
  { intros _. unfold User.savable. by rewrite Hlb. }
  destruct (like_success_inv now s a (canon b) s1 200 d1 Hlike)
    as (b' & ua0 & ub0 & [= <-] & Ha0 & Hb0 & _ & _ & _ & ua1 & Ha1 & Hin1 & Hsa1).
  assert (s1 = (like now s a (canon b)).1) as Hs1 by by rewrite Hlike.
  assert (∃ ub1, findUser s1 b = Some ub1
                 ∧ User.location ub1 = Some l ∧ User.isActive ub1 = true
                 ∧ User.isBlocked ub1 = false
                 ∧ User.profileCompleted ub1 = true)
    as (ub1 & Hb1 & Hlb1 & Hact1 & Hblk1 & Hdone1).
  { pose proof (like_keeps User.location now s a (canon b) b) as H1.
    pose proof (like_keeps User.isActive now s a (canon b) b) as H2.
    pose proof (like_keeps User.isBlocked now s a (canon b) b) as H3.
    pose proof (like_keeps User.profileCompleted now s a (canon b) b) as H4.
    rewrite <- Hs1, Hb in H1, H2, H3, H4.
    destruct (findUser s1 b) as [ub1|]; [|by specialize (H1 ltac:(done) ltac:(done))].
    exists ub1. simpl in *.
    specialize (H1 ltac:(done) ltac:(done)). specialize (H2 ltac:(done) ltac:(done)).
    specialize (H3 ltac:(done) ltac:(done)). specialize (H4 ltac:(done) ltac:(done)).
    split_and!; congruence. }
  assert (User.location ua1 = Some center ∧ User.blocked ua1 = User.blocked ua
          ∧ User.blockedBy ua1 = User.blockedBy ua) as (Hca1 & Hbl1 & Hbb1).
  { pose proof (like_keeps User.location now s a (canon b) a) as H1.
    pose proof (like_keeps User.blocked now s a (canon b) a) as H2.
    pose proof (like_keeps User.blockedBy now s a (canon b) a) as H3.
    rewrite <- Hs1, Ha, Ha1 in H1, H2, H3. simpl in *.
    specialize (H1 ltac:(done) ltac:(done)). specialize (H2 ltac:(done) ltac:(done)).
    specialize (H3 ltac:(done) ltac:(done)).
    split_and!; congruence. }
  assert (length (userDocs s1) = length (userDocs s)) as Hlen1.
  { rewrite Hs1. unfold like, createMatch, updateUser.
    repeat case_match; simplify_eq/=; by rewrite ?length_updateIn. }
  assert (∀ r, castId r = Some b →
            dislike s1 a r
            = (updateUser (User.set_likes (withoutRaw r (User.likes ua1))) a s1,
               Success 200 ())) as Hdislike.
  { intros r Hr. unfold dislike.
    destruct (sameString r a) eqn:Hself.
    { apply (sameString_cast r b a Hr) in Hself. congruence. }
    by rewrite Hr, Hb1, Ha1, Hsa1. }
  exists s1, d1,
    (updateUser (User.set_likes (withoutRaw (canon b) (User.likes ua1))) a s1),
    (updateUser (User.set_likes (withoutRaw (Spelled b false) (User.likes ua1)))
                a s1).
  split_and!.
  - done.
  - intros page lim. by apply (liked_not_discovered s1 a b ua1).
  - by apply Hdislike.
  - apply (Hshown _ (User.set_likes (withoutRaw (canon b) (User.likes ua1)) ua1)
             ub1); try done.
    + by rewrite findUser_updateUser, decide_True, Ha1.
    + rewrite findUser_updateUser, decide_False by done. done.
    + simpl. rewrite length_updateIn. lia.
    + simpl. apply not_elem_of_withoutRaw_canon.
    + simpl. by rewrite Hbl1.
    + simpl. by rewrite Hbb1.
  - by apply Hdislike.
  - intros page lim.
    apply (liked_not_discovered _ a b
             (User.set_likes (withoutRaw (Spelled b false) (User.likes ua1)) ua1)).
    + by rewrite findUser_updateUser, decide_True, Ha1.
    + simpl. by rewrite withoutRaw_not_canonical.
Qed.
End DiscoveryAfter.

Lemma dislike_is_not_remembered_witness :
  alice ≠ carol
  ∧ findUser locatedStore alice = Some (locatedUser [bob])
  ∧ findUser locatedStore carol = Some (locatedUser [])
  ∧ User.isActive (locatedUser []) = true
  ∧ User.isBlocked (locatedUser []) = false
  ∧ User.profileCompleted (locatedUser []) = true
  ∧ (carol ∉ User.likes (locatedUser [bob]))
  ∧ (carol ∉ User.blocked (locatedUser [bob]))
  ∧ (carol ∉ User.blockedBy (locatedUser [bob]))
  ∧ User.location (locatedUser [bob]) = Some origin
  ∧ User.location (locatedUser []) = Some origin
  ∧ (0 <= 50 * 1000)%R
  ∧ length (userDocs locatedStore) ≤ 20
  ∧ carol ∈ map fst (discoveryPage (fun _ _ => 0%R) locatedStore alice 1 20 50)
  ∧ ∃ s1 d1 s2 s2',
      like 7 locatedStore alice (canon carol) = (s1, Success 200 d1)
      ∧ (∀ page lim,
           carol ∉ map fst (discoveryPage (fun _ _ => 0%R) s1 alice page lim 50))
      ∧ dislike s1 alice (canon carol) = (s2, Success 200 ())
      ∧ carol ∈ map fst (discoveryPage (fun _ _ => 0%R) s2 alice 1 20 50)
      ∧ dislike s1 alice (Spelled carol false) = (s2', Success 200 ())
      ∧ ∀ page lim,
          carol ∉ map fst (discoveryPage (fun _ _ => 0%R) s2' alice page lim 50).
Proof.
  assert (alice ≠ carol) as Hne by done.
  assert (carol ∉ User.likes (locatedUser [bob])) as Hlikes.
  { simpl. intros Hin. apply list_elem_of_singleton in Hin. done. }
  assert (carol ∉ User.blocked (locatedUser [bob])) as Hblocked
    by apply not_elem_of_nil.
  assert (carol ∉ User.blockedBy (locatedUser [bob])) as HblockedBy
    by apply not_elem_of_nil.
  assert (0 <= 50 * 1000)%R as Hnear by lra.
  assert (length (userDocs locatedStore) ≤ 20) as Hlen by (simpl; lia).
  do 13 (split; [done|]).
  exact (dislike_is_not_remembered (fun _ _ => 0%R) 7 locatedStore alice carol
           (locatedUser [bob]) (locatedUser []) origin origin 20 50
           Hne eq_refl eq_refl eq_refl eq_refl eq_refl
           Hlikes Hblocked HblockedBy eq_refl eq_refl Hnear Hlen).
Defined.

(** ** Failed logins and the lock of an admin *)

Lemma adminStep_keeps a e :
  Admin.role (adminStep a e) = Admin.role a
  ∧ Admin.permissions (adminStep a e) = Admin.permissions a
  ∧ Admin.isActive (adminStep a e) = Admin.isActive a.
Proof.
  destruct e; simpl; [|done].
  unfold Admin.incLoginAttempts. by repeat case_match.
Qed.

Lemma adminStep_locked_iff a e :
  (5 ≤ Admin.loginAttempts a ↔ is_Some (Admin.lockUntil a)) →
  (5 ≤ Admin.loginAttempts (adminStep a e)
   ↔ is_Some (Admin.lockUntil (adminStep a e))).
Proof.
  intros Hinv.
  assert (∀ n, 5 ≤ n ↔ is_Some (@None Z) → n < 5) as Hnone.
  { intros n [Hn _]. destruct (decide (5 ≤ n)) as [Hge|]; [|lia].
    by destruct (Hn Hge). }
  destruct e as [now1 now2 now3|]; simpl.
  - unfold Admin.incLoginAttempts, Admin.isLocked.
    destruct (Admin.lockUntil a) as [until|] eqn:Hlock.
    + assert (5 ≤ Admin.loginAttempts a) as Hfive by (apply Hinv; eauto).
      repeat case_match; simpl; rewrite ?Hlock.
      * split; [lia|]. intros Hsome. by destruct Hsome.
      * split; [eauto|lia].
      * split; [eauto|lia].
    + apply Hnone in Hinv.
      case_bool_decide; simpl; rewrite ?Hlock.
      * split; [eauto|lia].
      * split; [lia|]. intros Hsome. by destruct Hsome.
  - split; [lia|]. intros Hsome. by destruct Hsome.
Qed.

(** X24. However failed and successful logins follow one another on an
    admin created with the defaults, and whatever the clock says, the
    document has a [lockUntil] exactly when [loginAttempts] is 5 or more;
    its role, permissions and [isActive] are never written. *)
Theorem admin_lock_iff_five_attempts r perms es :
  (5 ≤ Admin.loginAttempts (adminRun (Admin.create r perms) es)
   ↔ is_Some (Admin.lockUntil (adminRun (Admin.create r perms) es)))
  ∧ Admin.role (adminRun (Admin.create r perms) es) = r
  ∧ Admin.permissions (adminRun (Admin.create r perms) es) = perms
  ∧ Admin.isActive (adminRun (Admin.create r perms) es) = true.
Proof.
  unfold adminRun.
  induction es as [|e es IH] using rev_ind.
  - simpl. split_and!; try done. split; [lia|]. intros H. by destruct H.
  - rewrite foldl_app. simpl.
    destruct IH as (Hinv & Hr & Hp & Ha).
    destruct (adminStep_keeps (foldl adminStep (Admin.create r perms) es) e)
      as (-> & -> & ->).
    split_and!; try done. by apply adminStep_locked_iff.
Qed.

Lemma adminRun_few_failures readings a :
  Admin.lockUntil a = None →
  Admin.loginAttempts a + length readings < 5 →
  adminRun a (failures readings)
  = Admin.set_loginAttempts (Admin.loginAttempts a + length readings) a.
Proof.
  revert a. induction readings as [|[[now1 now2] now3] readings IH];
    intros a Hlock Hfew; simpl in *.
  - rewrite Nat.add_0_r. by destruct a.
  - unfold adminRun in *. simpl. unfold Admin.incLoginAttempts at 1.
    rewrite Hlock. rewrite bool_decide_eq_false_2 by lia. simpl.
    rewrite IH; simpl; [|done|lia].
    unfold Admin.set_loginAttempts. simpl. f_equal. lia.
Qed.

(** X25. The lock of an admin account.  On a new admin the first four
    failed logins only count; the fifth sets the lock to two hours after
    its last clock reading.  A failed login while the lock holds counts and
    leaves the lock where it is; one after the lock has run out clears it
    and restarts the count at 1; one at the very instant the lock ends
    counts and locks again for two hours. *)
Theorem admin_lockout r perms :
  (∀ readings, length readings < 5 →
     adminRun (Admin.create r perms) (failures readings)
     = Admin.mk r perms true (length readings) None)
  ∧ (∀ readings now1 now2 now3, length readings = 4 →
       adminRun (Admin.create r perms) (failures (readings ++ [(now1, now2, now3)]))
       = Admin.mk r perms true 5 (Some (now3 + twoHours)%Z))
  ∧ (∀ a until now1 now2 now3,
       Admin.lockUntil a = Some until → (now1 ≤ until)%Z → (now2 < until)%Z →
       Admin.incLoginAttempts now1 now2 now3 a
       = Admin.set_loginAttempts (Admin.loginAttempts a + 1) a)
  ∧ (∀ a until now1 now2 now3,
       Admin.lockUntil a = Some until → (until < now1)%Z →
       Admin.incLoginAttempts now1 now2 now3 a
       = Admin.mk (Admin.role a) (Admin.permissions a) (Admin.isActive a) 1 None)
  ∧ (∀ a until now2 now3,
       Admin.lockUntil a = Some until → 4 ≤ Admin.loginAttempts a →
       (until ≤ now2)%Z →
       Admin.incLoginAttempts until now2 now3 a
       = Admin.mk (Admin.role a) (Admin.permissions a) (Admin.isActive a)
           (Admin.loginAttempts a + 1) (Some (now3 + twoHours)%Z)).
Proof.
  split_and!.
  - intros readings Hfew.
    by rewrite adminRun_few_failures.
  - intros readings now1 now2 now3 Hfour.
    unfold failures, adminRun. rewrite map_app, foldl_app.
    fold (failures readings). fold (adminRun (Admin.create r perms) (failures readings)).
    rewrite (adminRun_few_failures readings (Admin.create r perms))
      by (simpl; done || lia).
    simpl. rewrite Hfour. done.
  - intros a until now1 now2 now3 Hlock Hnot Hheld.
    unfold Admin.incLoginAttempts, Admin.isLocked. rewrite Hlock.
    rewrite bool_decide_eq_false_2 by lia.
    rewrite (bool_decide_eq_true_2 (now2 < until)%Z) by done.
    by rewrite andb_false_r.
  - intros a until now1 now2 now3 Hlock Hout.
    unfold Admin.incLoginAttempts. rewrite Hlock.
    by rewrite bool_decide_eq_true_2.
  - intros a until now2 now3 Hlock Hfour Hend.
    unfold Admin.incLoginAttempts, Admin.isLocked. rewrite Hlock.
    rewrite bool_decide_eq_false_2 by lia.
    rewrite (bool_decide_eq_true_2 (5 ≤ _)) by lia.
    rewrite (bool_decide_eq_false_2 (now2 < until)%Z) by lia.
    done.
Qed.

(** Five failed logins, one more during the lock, one after it. *)
Example admin_lockout_scenario :
  adminRun (Admin.create Admin.Moderator [])
    (failures [(1, 1, 1); (2, 2, 2); (3, 3, 3); (4, 4, 4); (5, 5, 6)]%Z)
  = Admin.mk Admin.Moderator [] true 5 (Some 7200006%Z)
  ∧ adminRun (Admin.create Admin.Moderator [])
      (failures [(1, 1, 1); (2, 2, 2); (3, 3, 3); (4, 4, 4); (5, 5, 6); (9, 9, 9)]%Z)
    = Admin.mk Admin.Moderator [] true 6 (Some 7200006%Z)
  ∧ adminRun (Admin.create Admin.Moderator [])
      (failures [(1, 1, 1); (2, 2, 2); (3, 3, 3); (4, 4, 4); (5, 5, 6);
                 (7200007, 7200007, 7200007)]%Z)
    = Admin.mk Admin.Moderator [] true 1 None.
Proof. done. Qed.

(** ** Admin routes *)

Section AdminAuthLemmas.
Variable verifyToken : string → option (ObjectId * string).
Variable findAdmin : ObjectId → option Admin.t.

(** X26. A route behind [protectAdmin] and [checkPermission] lets a request
    through exactly when its header carries a token that verifies as an
    admin token of a stored, active admin who is a super admin or has the
    permission.  Neither [lockUntil] nor [loginAttempts] is looked at: a
    locked admin with a token passes.  The only answer other than 401 is
    the 403 of a missing permission. *)
Theorem adminGate_passes permission authorization :
  (∀ id admin,
     adminGate verifyToken findAdmin permission authorization = AdminNext id admin
     ↔ ∃ token,
         bearerToken authorization = Some token
         ∧ verifyToken token = Some (id, "admin")
         ∧ findAdmin id = Some admin
         ∧ Admin.isActive admin = true
         ∧ (Admin.role admin = Admin.SuperAdmin
            ∨ permission ∈ Admin.permissions admin))
  ∧ (∀ status msg,
       adminGate verifyToken findAdmin permission authorization
       = AdminRejected status msg →
       status = 401
       ∨ (status = 403 ∧ msg = "Insufficient permissions"
          ∧ ∃ id admin,
              protectAdmin verifyToken findAdmin authorization = AdminNext id admin
              ∧ Admin.hasPermission permission admin = false)).
Proof.
  unfold adminGate, protectAdmin, checkPermission, Admin.hasPermission.
  split.
  - intros id admin. split.
    + destruct (bearerToken authorization) as [token|]; [|done].
      destruct (verifyToken token) as [[id' type]|] eqn:Hv; [|done].
      destruct (String.eqb type "admin") eqn:Htype; simpl; [|done].
      apply String.eqb_eq in Htype. subst type.
      destruct (findAdmin id') as [admin'|] eqn:Hfind; [|done].
      destruct (Admin.isActive admin') eqn:Hact; simpl; [|done].
      destruct (Admin.role admin') eqn:Hrole; simpl;
        try case_bool_decide; simpl; intros [= -> ->];
        exists token; split_and!; auto.
    + intros (token & -> & -> & -> & -> & Hperm). simpl.
      destruct Hperm as [->|Hperm]; [done|].
      rewrite (bool_decide_eq_true_2 _ Hperm).
      by destruct (Admin.role admin).
  - intros status msg.
    destruct (bearerToken authorization) as [token|]; [|intros [= <- _]; by left].
    destruct (verifyToken token) as [[id' type]|] eqn:Hv; [|intros [= <- _]; by left].
    destruct (String.eqb type "admin") eqn:Htype; simpl; [|intros [= <- _]; by left].
    destruct (findAdmin id') as [admin'|] eqn:Hfind; [|intros [= <- _]; by left].
    destruct (Admin.isActive admin') eqn:Hact; simpl; [|intros [= <- _]; by left].
    destruct (Admin.role admin') eqn:Hrole; simpl; [done|..];
      case_bool_decide as Hperm; simpl; try done;
      intros [= <- <-]; right; split_and!; try done;
      exists id', admin'; rewrite Hrole; split; try done;
      by apply bool_decide_eq_false_2.
Qed.
End AdminAuthLemmas.

(** A moderator whose account is locked gets through with a token. *)
Example locked_admin_passes :
  adminGate (fun token => if String.eqb token "t" then Some (userOid 0, "admin") else None)
            (fun _ => Some (Admin.mk Admin.Moderator ["manage_reports"] true 5
                              (Some 7200006%Z)))
            "manage_reports" (Some "Bearer t")
  = AdminNext (userOid 0)
      (Admin.mk Admin.Moderator ["manage_reports"] true 5 (Some 7200006%Z)).
Proof. done. Qed.

(** ** The id check of the chat and match routes *)

Lemma validateObjectId_without_id params :
  params !! "id" = None →
  validateObjectId params = Some (400, [("id", "Invalid ID format")]).
Proof. intros Hid. unfold validateObjectId. by rewrite Hid. Qed.

(** X27. Every route declared with [validateObjectId] names its parameters
    [matchId] and [messageId]; the check reads the parameter [id], which
    such a request does not have, and so it answers 400 whatever ids the
    request carries: the handlers of these routes are not reached. *)
Theorem validateObjectId_rejects_declared_routes router method path params :
  (router, method, path) ∈ objectIdRoutes →
  dom params = list_to_set (paramNames path) →
  validateObjectId params = Some (400, [("id", "Invalid ID format")]).
Proof.
  intros Hroute Hdom. apply validateObjectId_without_id.
  apply not_elem_of_dom. rewrite Hdom.
  unfold objectIdRoutes in Hroute.
  repeat (apply elem_of_cons in Hroute as [[= -> -> ->]|Hroute];
          [vm_compute paramNames;
           rewrite elem_of_list_to_set, ?elem_of_cons, elem_of_nil;
           intros Hin; repeat destruct Hin as [Hin|Hin]; done|]).
  by apply elem_of_nil in Hroute.
Qed.

Lemma validateObjectId_rejects_declared_routes_witness :
  ("routes/chats.js", "GET", "/:matchId") ∈ objectIdRoutes
  ∧ dom ({[ "matchId" := "507f1f77bcf86cd799439011" ]} : gmap string string)
    = list_to_set (paramNames "/:matchId")
  ∧ validateObjectId {[ "matchId" := "507f1f77bcf86cd799439011" ]}
    = Some (400, [("id", "Invalid ID format")]).
Proof.
  assert (("routes/chats.js", "GET", "/:matchId") ∈ objectIdRoutes) as Hroute
    by apply list_elem_of_here.
  assert (dom ({[ "matchId" := "507f1f77bcf86cd799439011" ]} : gmap string string)
          = list_to_set (paramNames "/:matchId")) as Hdom.
  { rewrite dom_singleton_L. vm_compute paramNames. simpl.
    by rewrite union_empty_r_L. }
  do 2 (split; [done|]).
  exact (validateObjectId_rejects_declared_routes _ _ _ _ Hroute Hdom).
Defined.

(** The same id under the name that the check reads would pass. *)
Example validateObjectId_reads_id :
  isMongoId "507f1f77bcf86cd799439011" = true
  ∧ validateObjectId {[ "id" := "507f1f77bcf86cd799439011" ]} = None.
Proof. split; [done|]. unfold validateObjectId. by rewrite lookup_singleton_eq. Qed.

(** ** Location and discovery *)

Section LocationLemmas.
Context {runtime : JSMath}.
Variable geoDistance : Location → Location → R.

(** X28. Setting the location writes that one path of the caller's document
    and nothing else in the store.  Discovery, which answers 500 to a caller
    whose document has no coordinates, then answers 200 and measures from
    the new location: each listed profile is stored with a location that
    the store places within [maxDistance] kilometres of it and is listed
    with its rounded distance from it. *)
Theorem location_then_discovery s a ua latitude longitude page limit maxDistance :
  findUser s a = Some ua →
  (User.location ua = None →
   findCandidates geoDistance s a page limit maxDistance = serverError)
  ∧ (updateLocation s a latitude longitude).2
    = Success 200
        (Some (withLocation {| longitude := longitude; latitude := latitude |} ua))
  ∧ findUser (updateLocation s a latitude longitude).1 a
    = Some (withLocation {| longitude := longitude; latitude := latitude |} ua)
  ∧ (∀ id, id ≠ a →
       findUser (updateLocation s a latitude longitude).1 id = findUser s id)
  ∧ matchDocs (updateLocation s a latitude longitude).1 = matchDocs s
  ∧ chatDocs (updateLocation s a latitude longitude).1 = chatDocs s
  ∧ ∃ d,
      findCandidates geoDistance (updateLocation s a latitude longitude).1 a
                     page limit maxDistance
      = Success 200 d
      ∧ ∀ id dist, (id, dist) ∈ disc_users d →
          id ≠ a
          ∧ ∃ u l, findUser s id = Some u ∧ User.location u = Some l
                   ∧ (geoDistance {| longitude := longitude; latitude := latitude |} l
                      <= maxDistance * 1000)%R
                   ∧ dist = roundedDistance
                              {| longitude := longitude; latitude := latitude |} l.
Proof.
  intros Ha.
  set (here := {| longitude := longitude; latitude := latitude |}).
  assert (findUser (updateLocation s a latitude longitude).1 a
          = Some (withLocation here ua)) as Ha'.
  { simpl. by rewrite findUser_updateUser, decide_True, Ha. }
  assert (∀ id, id ≠ a →
            findUser (updateLocation s a latitude longitude).1 id = findUser s id)
    as Hother.
  { intros id Hid. simpl. by rewrite findUser_updateUser, decide_False. }
  split_and!; try done.
  - intros Hnone. unfold findCandidates. by rewrite Ha, Hnone.
  - unfold updateLocation. cbn [snd]. f_equal.
    by rewrite findUser_updateUser, decide_True, Ha.
  - unfold findCandidates. rewrite Ha'. cbn [User.location withLocation].
    eexists. split; [done|]. cbn [disc_users]. intros id dist Hin.
    apply list_elem_of_fmap in Hin as ([[id' u] l] & [= -> ->] & Hin).
    apply subseteq_take, subseteq_drop in Hin.
    apply elem_of_sortBy, list_elem_of_filter in Hin as [Hq Hin].
    apply elem_of_locatedUsers in Hin as [Hfind Hloc].
    unfold discoveryQuery in Hq. simpl in Hq.
    repeat (apply andb_prop in Hq as [Hq ?]).
    apply bool_decide_eq_true in Hq.
    split; [done|]. exists u, l. rewrite <- Hother by done.
    split_and!; try done. by apply Rleb_true.
Qed.
End LocationLemmas.

Lemma location_then_discovery_witness :
  findUser arrivingStore alice = Some unlocatedUser
  ∧ (User.location unlocatedUser = None →
     findCandidates (fun _ _ => 0%R) arrivingStore alice 1 20 50 = serverError)
  ∧ (updateLocation arrivingStore alice 0 0).2
    = Success 200
        (Some (withLocation {| longitude := 0; latitude := 0 |} unlocatedUser))
  ∧ findUser (updateLocation arrivingStore alice 0 0).1 alice
    = Some (withLocation {| longitude := 0; latitude := 0 |} unlocatedUser)
  ∧ (∀ id, id ≠ alice →
       findUser (updateLocation arrivingStore alice 0 0).1 id
       = findUser arrivingStore id)
  ∧ matchDocs (updateLocation arrivingStore alice 0 0).1 = matchDocs arrivingStore
  ∧ chatDocs (updateLocation arrivingStore alice 0 0).1 = chatDocs arrivingStore
  ∧ ∃ d,
      findCandidates (fun _ _ => 0%R) (updateLocation arrivingStore alice 0 0).1
                     alice 1 20 50
      = Success 200 d
      ∧ ∀ id dist, (id, dist) ∈ disc_users d →
          id ≠ alice
          ∧ ∃ u l, findUser arrivingStore id = Some u ∧ User.location u = Some l
                   ∧ (0 <= 50 * 1000)%R
                   ∧ dist = roundedDistance {| longitude := 0; latitude := 0 |} l.
Proof.
  split; [reflexivity|].
  exact (location_then_discovery (fun _ _ => 0%R) arrivingStore alice
           unlocatedUser 0 0 1 20 50 eq_refl).
Defined.

(** Alice, who gets 500 before she has sent her coordinates, is shown Bob
    and Carol afterwards, both at no distance. *)
Example discovery_after_first_location :
  findCandidates (fun _ _ => 0%R) arrivingStore alice 1 20 50 = serverError
  ∧ ∃ d, findCandidates (fun _ _ => 0%R)
           (updateLocation arrivingStore alice 0 0).1 alice 1 20 50
         = Success 200 d
         ∧ disc_users d = [(bob, 0%float); (carol, 0%float)].
Proof.
  split; [reflexivity|].
  eexists. split; [reflexivity|].
  cbn [disc_users]. unfold locatedUsers. simpl.
  rewrite !filter_cons, filter_nil. unfold discoveryQuery, Rleb. simpl.
  destruct (Rle_dec 0 (50 * 1000)) as [_|Hn]; [|exfalso; apply Hn; lra].
  destruct (Rle_dec 0 0) as [_|Hn]; [|exfalso; apply Hn; lra].
  by vm_compute.
Qed.
